(* ===== verification/_CoqProject ===== *)
-Q . S2P
Prelude.v
GoStrings.v
Libs.v
Types.v
Schema.v
Netip.v
DnsName.v
Samples.v
Corefile.v
Fetch.v
Build.v
Loader.v
Lifecycle.v
Resolver.v
Publish.v
Dispenser.v
Directive.v
Layout.v
Interleave.v
Concurrent.v
