(* ===== verification/Prelude.v ===== *)
(** * Verification of the CoreDNS [views] plugin set-up code (ardikabs/simpledns)

    ** The program

    [src/setup.go] is the set-up half of a split-horizon DNS plugin: it
    reads the plugin's block of the Corefile, loads two documents (the
    groups of client networks and the record sets of the views) and
    reloads them on a timer.  Its parts, in the order they call each other:

    - [schemaCheck] (l.290-297) classifies a source locator as an HTTP
      endpoint or a YAML file by its prefix or suffix;
    - [parse] (l.77-134) reads the block through a [caddy.Controller],
      collects the [client], [record] and [reload] directives and builds
      the initial [Views] value;
    - [parseFromYAML] (l.239-251) and [parseFromHTTP] (l.253-288) fetch a
      document and decode it into a caller-supplied value;
    - [loadConfig] (l.154-237) fetches the raw client groups and record
      sets, and rebuilds [v.ClientACLs] and [v.ClientZones] from them, in
      place;
    - [setup] (l.47-71) and [reload] (l.136-152) wire the plugin into the
      server: a goroutine reloads on every tick until the reload channel is
      closed, [OnStartup] loads once, [OnShutdown] closes the channel.

    The handler that answers the queries (the matcher and the resolver of
    the specification) is in a file of the repository that is not under
    [src/]; it is modelled from the specification, in [Resolver].

    ** The files, in the order of their dependencies

    - [Prelude] (this file): Go's two ways of failing, [result] (a value or
      an [error]) and [outcome] (a [result] or a panic), their binds with
      notations in [views_scope]; [foldM] for the loops with early return
      and its decomposition lemmas; the shape lemmas of the
      accumulate-in-a-loop idioms of the source ([append] in a
      [for range], assignment into a [map]: [assign] and
      [foldl_assign_lookup]); [scanl], the successive values of a loop
      variable; the tactics and the hint databases.
    - [GoStrings]: the functions of Go's [strings] package the source
      calls, on byte strings: [HasPrefix], [HasSuffix], [ToUpper] (and
      [ToLower] for the names).
    - [Libs]: the interfaces of the libraries the source calls and does not
      define, as type classes with their laws: the schema constants
      ([SchemaConsts]), the record types of [miekg/dns] ([DNSConsts]),
      [net.ParseCIDR] and [Contains] ([NetLib], over the types of
      [NetTypes]), [plugin.Host.Normalize] ([HostLib]), [plugin.Error]
      ([PluginLib]), [time.ParseDuration] ([TimeLib]), the decoders
      ([Decoder]), [net/url] and [net/http] ([HTTPLib], over the types of
      [HTTPTypes]); and the outside at the time of a call ([World]: the
      files, the servers).  The theorems on [parse], [loadConfig] and the
      life cycle are proved against these interfaces and hold for every
      instance.
    - [Types]: the data of the source: [RawClientACL], [RawRecord] and its
      entries (l.26-43), [ClientACL], [Zone], [Zones], [Views], the log.
    - [Schema]: [schemaCheck] and its characterisation by the shape of the
      locator.
    - [Netip]: an instance of [NetLib], from the documentation of Go's
      [net]: IPv4 addresses, [CIDRMask], [ParseCIDR] on dotted-decimal
      prefixes, [Contains].
    - [DnsName]: an instance of [HostLib], from the specification:
      lower-casing and the trailing dot.
    - [Samples]: instances and documents to run the definitions (the
      scenario of the specification among them) and worlds in which the
      sources are there, missing or damaged.
    - [Corefile]: the [caddy.Controller] as the sequence of lines it
      yields, and [parse] over it, with its specification [parse_spec].
    - [Fetch]: [parseFromYAML] and [parseFromHTTP], each with the trace
      of its input and output, and [fetch], the [switch] on the schema.
    - [Build]: the two halves of [loadConfig] that build the
      configuration; each loop is the fold of its body ([cidr_step],
      [client_step], [zone_step], [record_step]).
    - [Loader]: [loadConfig], the two fetches and the two builds with the
      log; the specification [load_spec] of what a load leaves.
    - [Lifecycle]: [setup] and [reload]; the plugin, its channel, its
      goroutine and its ticker as a labelled transition system ([Step],
      [step], [Reachable]) in which a call of [loadConfig] is one step.
    - [Resolver]: the matcher and the resolver of the specification
      ([match_group], [resolve]), and queries followed through the
      configuration [loadConfig] builds.
    - [Publish]: the writes of [loadConfig] to the plugin, one by one, as a
      reader finds them ([loadConfig_writes]).
    - [Dispenser]: the dispenser of tokens behind [caddy.Controller], from
      the documentation of [coredns/caddy]: its state (tokens, cursor,
      nesting) and the methods [parse] calls, [Next], [NextArg],
      [NextBlock], [Val], [RemainingArgs].
    - [Directive]: [parse] once more, over the dispenser: the [switch]
      ([parse_switch]) and the two loops as they are written
      ([NextBlock_loop], [Next_loop]); [controller_of], the blocks of lines
      of [Corefile] that the loops read from a dispenser.
    - [Layout]: the tokens of a Corefile in which the directive is written
      in lines ([layout]).
    - [Interleave]: two calls of [loadConfig] at once, that of the
      start-up hook and that of a tick: each call as the sequence of its
      writes ([load_ops]), the two sequences interleaved ([Merge]).
    - [Concurrent]: the transition system of [Lifecycle] with the calls of
      [loadConfig] write by write ([CStep], [cstep], [CReachable]): a
      caller enters (the fetches, the errors logged) and then does its
      writes one at a time, between the steps of the other caller, of the
      server and of the ticker.

    ** What the theorems show

    - [Schema]: [schemaCheck] returns each of its three results exactly for
      the locators of one shape; the prefix test comes first.
    - [Corefile]: [parse] refines [parse_spec] (the failure of the first
      line that fails, otherwise the settings made of the last line of each
      directive); what it returns is well formed; it panics on a directive
      without argument; the test of [err] after its loops is dead.
    - [Loader]: [loadConfig] refines [load_spec]; it depends on the
      settings and the outside only, not on what was loaded before; what it
      logs (errors first, then one warning for each prefix refused); what
      each failure of a fetch leaves (an unreadable source empties the
      configuration; a document decoded in part is used as far as it was
      decoded); the invariant of the record sets; last-write-wins for
      records and for record sets; of which raw record each stored record
      is made, field by field, with the exact condition of each record
      type; the discipline of the trace (timeout, close).
    - [Lifecycle], for the runs whose loads do not overlap: the
      configuration in force is that of the last load alone; from [setup]
      on the settings stay well formed and the record sets too, in every
      reachable state; the loads of the goroutine are paced by the ticks;
      a returned goroutine stays so; and what the source does not guard
      against: an interval that is not positive, a second shutdown, a tick
      served after the shutdown, the ticker left running.
    - [Resolver]: the answer after a load is the one the documents give
      ([resolve_raw]); the order of the groups decides; names are found in
      any spelling; the scenario of section 8 of the specification.
    - [Publish]: the plugin after each write of [loadConfig], by the
      number of the write: new groups with the record sets of before the
      call, then all the groups with the record sets built so far; every
      load goes through a state that declines every query.
    - [Dispenser]: every method keeps the cursor within the tokens and
      never moves it back; what each method does at a position
      ([on pre post]); [RemainingArgs] returns the rest of the line.
    - [Directive]: the loops of [parse] end on every dispenser; [parse]
      over the tokens is [parse] of [Corefile] on [controller_of], so that
      the theorems of [Corefile] hold of the tokens; the dispenser is well
      formed when the loops end.
    - [Layout]: from the tokens of a directive laid out in lines the
      loops read the lines back, and [parse] over the dispenser is [parse]
      of [Corefile] on these lines.
    - [Interleave]: the writes of one call leave what [loadConfig] leaves;
      two calls at once leave each field built from all of one document
      and the end of the other; when both read the same documents the
      record sets are right and the groups are right up to repetition and
      order, so a client that one view contains is answered as after one
      call, while any group of the document may come first, so that a
      client several groups contain may be answered from the view of any
      of them.
    - [Concurrent]: [cstep] computes [CStep]; the runs of [Lifecycle] are
      the runs in which every call does all its writes before anything
      else happens ([Reachable_refines]); a call whose writes no write of
      the other caller comes between leaves what [loadConfig] leaves,
      whatever else happens meanwhile; every interleaving of the writes of
      the start-up hook and of a tick is a run of the plugin [setup]
      returns; the settings and the record sets are well formed in every
      state, between the writes too.

    ** Conventions

    A Go [string] is a [string] of bytes.  A [uint32], [uint16] or [int64]
    is a [Z] with its range stated where it matters ([uint32], [uint16],
    [int64] of [Libs]); the source does no arithmetic on them, so nothing
    wraps.  A slice is a [list]; [append] is [++ [x]].  A Go
    [map[string]T] is a [gmap string T].  A function that returns
    [(T, error)] returns a [result T]; a function that may also panic
    returns an [outcome T].  A [for range] loop is the left fold of its
    body; a loop whose body may [return] is [foldM] of its body.

    The loops of [loadConfig] range over finite slices and those of
    [parse] in [Corefile] over the lines of the controller: they are
    structural folds and total.  The loops over the dispenser
    ([RemainingArgs_loop] in [Dispenser], [NextBlock_loop] and [Next_loop]
    in [Directive]) end when a method returns [false]; they run on fuel,
    [S (length tokens)] turns each, and return [None] when it runs out,
    the test of the end of the loop coming first.  The bound is enough:
    every turn that goes on moves the cursor forward by one token at
    least and the cursor stays within the tokens, so the loops end within
    the bound ([parse_tokens_terminates] of [Directive]), and a larger
    bound gives the same result ([parse_fuel_stable]).  The goroutine of
    [reload] loops for ever; it is a transition system, run on finite
    sequences of events.

    ** Not modelled

    The bodies of the libraries (YAML and JSON decoding, the HTTP
    transport, the file system, the ticker, the logger) appear only through
    the interfaces of [Libs] and the rules of [Lifecycle].  The lexer that
    makes the tokens of the Corefile is not modelled: [Directive] starts
    from the tokens, [Layout] from where the lexer puts them for a
    directive written in lines.  The registration of [init] (l.45) and of
    the handler (l.65-68) is wiring, of which only the name of the
    directive is kept; [v.Upstream]
    and [v.Next] are handles the set-up code stores and never reads.
    IPv6 prefixes are outside the instance [Netip].  A load is one step
    in [Lifecycle] and a sequence of whole writes in [Publish], in
    [Interleave] and in [Concurrent]; the two fetches of a call see one
    world; accesses of two goroutines to one field that overlap inside a
    write (the read and the write of an [append], two writes to one map)
    are not modelled, the memory model of Go giving them no meaning. *)

From Stdlib Require Import ZArith String Ascii List Lia.
From stdpp Require Import base tactics option list strings gmap.

Declare Scope views_scope.
Delimit Scope views_scope with views.
#[global] Open Scope views_scope.

(** ** Errors, results and outcomes *)

(** A Go [error] is carried as its message, the value of [err.Error()]. *)
Definition error : Type := string.

(** The pair [(T, error)] a Go function returns: the value when the error is
    [nil], the error otherwise. *)
Inductive result (A : Type) : Type :=
| Ok (a : A)
| Err (e : error).
Arguments Ok {A} a.
Arguments Err {A} e.

(** What a call does: return its result, or panic with a message. *)
Inductive outcome (A : Type) : Type :=
| Returns (r : result A)
| Panics (msg : string).
Arguments Returns {A} r.
Arguments Panics {A} msg.

Definition result_bind {A B} (r : result A) (k : A → result B) : result B :=
  match r with
  | Ok a => k a
  | Err e => Err e
  end.

Definition outcome_bind {A B} (o : outcome A) (k : A → outcome B) : outcome B :=
  match o with
  | Returns (Ok a) => k a
  | Returns (Err e) => Returns (Err e)
  | Panics m => Panics m
  end.

(** [if err != nil { return ..., err }] after a call. *)
Notation "'let?' x ':=' e 'in' k" := (result_bind e (λ x, k))
  (at level 10, x pattern, e at level 100, k at level 200,
   format "'[v' 'let?'  x  ':='  e  'in' '/' k ']'") : views_scope.
Notation "'let!' x ':=' e 'in' k" := (outcome_bind e (λ x, k))
  (at level 10, x pattern, e at level 100, k at level 200,
   format "'[v' 'let!'  x  ':='  e  'in' '/' k ']'") : views_scope.

Definition is_Ok {A} (r : result A) : bool :=
  match r with Ok _ => true | Err _ => false end.

Definition result_to_option {A} (r : result A) : option A :=
  match r with Ok a => Some a | Err _ => None end.

(** The error of a [result], [None] for [nil]. *)
Definition result_err {A} (r : result A) : option error :=
  match r with Ok _ => None | Err e => Some e end.

Definition lift_result {A} (r : result A) : outcome A := Returns r.

(** The two ways a call does not return a value. *)
Inductive failure : Type :=
| FailErr (e : error)
| FailPanic (msg : string).

Definition fail_outcome {A} (f : failure) : outcome A :=
  match f with
  | FailErr e => Returns (Err e)
  | FailPanic m => Panics m
  end.

(** The failure of an outcome, [None] when it returns a value. *)
Definition outcome_failure {A} (o : outcome A) : option failure :=
  match o with
  | Returns (Ok _) => None
  | Returns (Err e) => Some (FailErr e)
  | Panics m => Some (FailPanic m)
  end.

#[global] Instance result_eq_dec `{EqDecision A} : EqDecision (result A).
Proof. solve_decision. Defined.
#[global] Instance outcome_eq_dec `{EqDecision A} : EqDecision (outcome A).
Proof. solve_decision. Defined.

(** ** Loops with early return *)

(** [for _, x := range l { s, err = f(s, x); if err != nil { return err } }],
    where the body may also panic. *)
Fixpoint foldM {S B} (f : S → B → outcome S) (s : S) (l : list B) : outcome S :=
  match l with
  | [] => Returns (Ok s)
  | b :: l => let! s' := f s b in foldM f s' l
  end.

(** ** Tactics *)

(** Case analysis on the scrutinee of the first [match] of the goal that a
    [result] or an [outcome] blocks. *)
Ltac case_result :=
  match goal with
  | |- context [result_bind ?r _] => destruct r eqn:?; simpl
  | |- context [outcome_bind ?o _] =>
      let r := fresh "r" in destruct o as [[?|?]|?] eqn:?; simpl
  end.

Ltac invert H := inversion H; subst; clear H.

(** Simplification with the databases of the development. *)
Ltac views_simpl :=
  repeat (simpl in *; autorewrite with views in *; simplify_eq).

Create HintDb views discriminated.
Create Rewrite HintDb views.

(** ** Laws of the binds *)

Section binds.
Context {A B C : Type}.

Lemma result_bind_Ok (a : A) (k : A → result B) : result_bind (Ok a) k = k a.
Proof. done. Qed.

Lemma result_bind_Err (e : error) (k : A → result B) :
  result_bind (Err e) k = Err e.
Proof. done. Qed.

Lemma result_bind_ret (r : result A) : result_bind r Ok = r.
Proof. by destruct r. Qed.

Lemma result_bind_assoc (r : result A) (k : A → result B) (h : B → result C) :
  result_bind (result_bind r k) h = result_bind r (λ a, result_bind (k a) h).
Proof. by destruct r. Qed.

Lemma result_bind_Ok_inv (r : result A) (k : A → result B) (b : B) :
  result_bind r k = Ok b ↔ ∃ a, r = Ok a ∧ k a = Ok b.
Proof. destruct r; naive_solver. Qed.

Lemma outcome_bind_ret (o : outcome A) : outcome_bind o (λ a, Returns (Ok a)) = o.
Proof. by destruct o as [[]|]. Qed.

Lemma outcome_bind_assoc (o : outcome A) (k : A → outcome B) (h : B → outcome C) :
  outcome_bind (outcome_bind o k) h = outcome_bind o (λ a, outcome_bind (k a) h).
Proof. by destruct o as [[]|]. Qed.

Lemma outcome_bind_Ok_inv (o : outcome A) (k : A → outcome B) (b : B) :
  outcome_bind o k = Returns (Ok b) ↔
  ∃ a, o = Returns (Ok a) ∧ k a = Returns (Ok b).
Proof. destruct o as [[]|]; naive_solver. Qed.

Lemma outcome_bind_Panics_inv (o : outcome A) (k : A → outcome B) (m : string) :
  outcome_bind o k = Panics m ↔
  o = Panics m ∨ ∃ a, o = Returns (Ok a) ∧ k a = Panics m.
Proof. destruct o as [[]|]; naive_solver. Qed.

Lemma outcome_bind_Err_inv (o : outcome A) (k : A → outcome B) (e : error) :
  outcome_bind o k = Returns (Err e) ↔
  o = Returns (Err e) ∨ ∃ a, o = Returns (Ok a) ∧ k a = Returns (Err e).
Proof. destruct o as [[]|]; naive_solver. Qed.

End binds.

#[export] Hint Rewrite @result_bind_Ok @result_bind_Err @result_bind_ret
  @outcome_bind_ret : views.

(** ** Laws of [foldM] *)

Section foldM.
Context {S B : Type} (f : S → B → outcome S).

Lemma foldM_app (s : S) (l k : list B) :
  foldM f s (l ++ k) = let! s' := foldM f s l in foldM f s' k.
Proof.
  revert s; induction l as [|b l IH]; intros s; simpl; [done|].
  destruct (f s b) as [[s'|e]|m]; simpl; auto.
Qed.

(** The loop-invariant rule: an invariant of the body that holds on entry
    holds when the loop runs to its end. *)
Lemma foldM_invariant (P : S → Prop) (s s' : S) (l : list B) :
  (∀ s b s', b ∈ l → P s → f s b = Returns (Ok s') → P s') →
  P s → foldM f s l = Returns (Ok s') → P s'.
Proof.
  revert s; induction l as [|b l IH]; intros s Hf Hs; simpl.
  - by intros [= <-].
  - intros (s1 & Hb & Hl)%outcome_bind_Ok_inv.
    apply (IH s1); [|by eapply Hf; [left|..]|done].
    intros ??? ?; apply Hf; by right.
Qed.

(** A loop whose body never panics never panics. *)
Lemma foldM_no_panic (s : S) (l : list B) (m : string) :
  (∀ s b, b ∈ l → f s b ≠ Panics m) → foldM f s l ≠ Panics m.
Proof.
  revert s; induction l as [|b l IH]; intros s Hf; simpl; [done|].
  intros [Hb|(s1 & _ & Hl)]%outcome_bind_Panics_inv.
  - by eapply Hf; [left|].
  - eapply IH; [|done]. intros ???; apply Hf; by right.
Qed.

(** A loop that ends normally ran its body on every element. *)
Lemma foldM_Ok_each (s s' : S) (l : list B) :
  foldM f s l = Returns (Ok s') →
  Forall (λ b, ∃ s1 s2, f s1 b = Returns (Ok s2)) l.
Proof.
  revert s; induction l as [|b l IH]; intros s; simpl; [by constructor|].
  intros (s1 & Hb & Hl)%outcome_bind_Ok_inv. constructor; eauto.
Qed.

(** The first failing iteration decides the loop. *)
Lemma foldM_first_failure (s s1 : S) (l k : list B) (b : B) (o : outcome S) :
  foldM f s l = Returns (Ok s1) →
  f s1 b = o → (∀ s2, o ≠ Returns (Ok s2)) →
  foldM f s (l ++ b :: k) = o.
Proof.
  intros Hl Hb Ho. rewrite foldM_app, Hl. simpl. rewrite Hb.
  destruct o as [[s2|e]|m]; simpl; [by destruct (Ho s2)|done..].
Qed.

(** A body whose failure depends on the element only: the loop fails as
    the first failing element does, and is the plain fold of the body's
    effect when no element fails. *)
Lemma foldM_decompose (fails : B → option failure) (upd : S → B → S)
    (s : S) (l : list B) :
  (∀ s b, f s b = match fails b with
                   | Some x => fail_outcome x
                   | None => Returns (Ok (upd s b))
                   end) →
  foldM f s l = match head (omap fails l) with
                | Some x => fail_outcome x
                | None => Returns (Ok (foldl upd s l))
                end.
Proof.
  intros Hf. revert s; induction l as [|b l IH]; intros s; [done|].
  simpl. rewrite Hf.
  change (omap fails (b :: l)) with
    (match fails b with Some y => y :: omap fails l | None => omap fails l end).
  destruct (fails b) as [[e|m]|]; simpl; [done..|apply IH].
Qed.

End foldM.

(** Nested loops with early return are one loop over the concatenation. *)
Lemma foldM_concat {S B} (f : S → B → outcome S) (s : S) (ls : list (list B)) :
  foldM (foldM f) s ls = foldM f s (concat ls).
Proof.
  revert s; induction ls as [|l ls IH]; intros s; simpl; [done|].
  rewrite foldM_app. destruct (foldM f s l) as [[s'|e]|m]; simpl; auto.
Qed.

(** ** Accumulating loops *)

(** The loops of [loadConfig] build a slice with [append] or a map with an
    indexed assignment.  These lemmas give the value such a loop builds. *)
Section loops.
Context {A B : Type}.

(** [for _, x := range l { acc = append(acc, f(x)) }] *)
Lemma foldl_append_fmap (f : A → B) (acc : list B) (l : list A) :
  foldl (λ acc x, acc ++ [f x]) acc l = acc ++ (f <$> l).
Proof.
  revert acc; induction l as [|x l IH]; intros acc; simpl.
  - by rewrite app_nil_r.
  - by rewrite IH, <-app_assoc.
Qed.

(** The same with [continue] on the elements [f] refuses. *)
Lemma foldl_append_omap (f : A → option B) (acc : list B) (l : list A) :
  foldl (λ acc x, match f x with Some y => acc ++ [y] | None => acc end) acc l
  = acc ++ omap f l.
Proof.
  revert acc; induction l as [|x l IH]; intros acc; simpl.
  - by rewrite app_nil_r.
  - rewrite IH. destruct (f x); [by rewrite <-app_assoc|done].
Qed.

Lemma foldl_ext (f g : B → A → B) (acc : B) (l : list A) :
  (∀ acc x, x ∈ l → f acc x = g acc x) → foldl f acc l = foldl g acc l.
Proof.
  revert acc; induction l as [|x l IH]; intros acc Hfg; simpl; [done|].
  rewrite Hfg by left. apply IH. intros ???; apply Hfg; by right.
Qed.

(** A property every iteration preserves holds after the loop. *)
Lemma foldl_invariant (P : B → Prop) (f : B → A → B) (acc : B) (l : list A) :
  (∀ acc x, x ∈ l → P acc → P (f acc x)) → P acc → P (foldl f acc l).
Proof.
  revert acc; induction l as [|x l IH]; intros acc Hf Hacc; simpl; [done|].
  apply IH; [|by apply Hf; [left|]]. intros ????; apply Hf; [by right|done].
Qed.

End loops.

(** [for _, x := range l { m[key(x)] = val(x) }]: the map after the loop
    holds, at each key, the value of the last element with that key, and what
    it held before at the keys no element has. *)
Section map_loops.
Context {A V : Type}.
Context (key : A → string) (val : A → V).

Definition assign (m : gmap string V) (x : A) : gmap string V :=
  <[key x := val x]> m.

Lemma foldl_assign_snoc (m : gmap string V) (l : list A) (x : A) :
  foldl assign m (l ++ [x]) = <[key x := val x]> (foldl assign m l).
Proof. by rewrite foldl_snoc. Qed.

Lemma foldl_assign_lookup (m : gmap string V) (l : list A) (k : string) :
  foldl assign m l !! k =
  match last (filter (λ x, key x = k) l) with
  | Some x => Some (val x)
  | None => m !! k
  end.
Proof.
  induction l as [|x l IH] using rev_ind; [done|].
  rewrite foldl_assign_snoc, filter_app, filter_cons, filter_nil.
  destruct (decide (key x = k)) as [<-|Hne].
  - by rewrite lookup_insert_eq, last_snoc.
  - by rewrite lookup_insert_ne, app_nil_r.
Qed.

Lemma foldl_assign_dom (m : gmap string V) (l : list A) :
  dom (foldl assign m l) = dom m ∪ list_to_set (key <$> l).
Proof.
  induction l as [|x l IH] using rev_ind.
  - simpl. set_solver.
  - rewrite foldl_assign_snoc, dom_insert_L, IH, fmap_app, list_to_set_app_L.
    simpl. set_solver.
Qed.

Lemma foldl_assign_None (m : gmap string V) (l : list A) (k : string) :
  foldl assign m l !! k = None ↔ m !! k = None ∧ k ∉ key <$> l.
Proof.
  rewrite <-!not_elem_of_dom, foldl_assign_dom. set_solver.
Qed.

End map_loops.

(** ** Lists *)

Section filters.
Context {A : Type} (P : A → Prop) `{!∀ x, Decision (P x)}.
Implicit Types (l : list A) (x : A).

Lemma filter_nil_Forall l : filter P l = [] ↔ Forall (λ x, ¬ P x) l.
Proof.
  induction l as [|x l IH]; [by split; constructor|].
  rewrite filter_cons, Forall_cons. case_decide; [|tauto].
  split; [done|]. by intros [? _].
Qed.

Lemma filter_id_Forall l : Forall P l → filter P l = l.
Proof.
  induction 1 as [|x l Hx _ IH]; [done|]. by rewrite filter_cons_True, IH.
Qed.

Lemma last_filter_None l : last (filter P l) = None ↔ Forall (λ x, ¬ P x) l.
Proof. by rewrite last_None, filter_nil_Forall. Qed.

(** The last element that satisfies [P] is the one after which none does. *)
Lemma last_filter_app_r l1 l2 :
  Forall (λ x, ¬ P x) l2 → last (filter P (l1 ++ l2)) = last (filter P l1).
Proof.
  intros Hl2%filter_nil_Forall. by rewrite filter_app, Hl2, app_nil_r.
Qed.

Lemma last_filter_middle l1 x l2 :
  P x → Forall (λ x, ¬ P x) l2 → last (filter P (l1 ++ x :: l2)) = Some x.
Proof.
  intros Hx Hl2. rewrite (assoc_L _ l1 [x] l2 : l1 ++ x :: l2 = (l1 ++ [x]) ++ l2).
  rewrite last_filter_app_r, filter_app, filter_cons_True, filter_nil by done.
  apply last_snoc.
Qed.

End filters.

Lemma omap_length_le {A B} (f : A → option B) (l : list A) :
  length (omap f l) ≤ length l.
Proof.
  induction l as [|x l IH]; [done|].
  change (omap f (x :: l)) with (match f x with Some y => y :: omap f l | None => omap f l end).
  destruct (f x); simpl; lia.
Qed.

Lemma omap_length_filter {A B} (f : A → option B) (l : list A) :
  length (omap f l) + length (filter (λ x, f x = None) l) = length l.
Proof.
  induction l as [|x l IH]; [done|].
  change (omap f (x :: l)) with (match f x with Some y => y :: omap f l | None => omap f l end).
  rewrite filter_cons. case_decide as Hx; rewrite Hx || destruct (f x); simpl; done || lia.
Qed.

(** ** Sets of the elements of a list *)

Section list_sets.
Context `{Countable K}.
Implicit Types (l : list K) (x : K).

Lemma list_to_set_cons_in x l :
  x ∈ l → list_to_set (C:=gset K) (x :: l) = list_to_set l.
Proof. set_solver. Qed.

Lemma size_list_to_set_cons x l :
  x ∉ l → size (list_to_set (C:=gset K) (x :: l)) = S (size (list_to_set (C:=gset K) l)).
Proof.
  intros Hx. simpl. rewrite size_union, size_singleton; [done|set_solver].
Qed.

(** A list has at least as many elements as the set of them. *)
Lemma size_list_to_set_le l : size (list_to_set (C:=gset K) l) ≤ length l.
Proof.
  induction l as [|x l IH]; [done|].
  destruct (decide (x ∈ l)).
  - rewrite list_to_set_cons_in by done. simpl. lia.
  - rewrite size_list_to_set_cons by done. simpl. lia.
Qed.

(** It has as many exactly when no element is repeated. *)
Lemma size_list_to_set_NoDup l :
  size (list_to_set (C:=gset K) l) = length l ↔ NoDup l.
Proof.
  split; [|apply size_list_to_set].
  induction l as [|x l IH]; [constructor|]. intros Hsz.
  pose proof (size_list_to_set_le l). destruct (decide (x ∈ l)).
  - rewrite list_to_set_cons_in in Hsz by done. simpl in Hsz. lia.
  - rewrite size_list_to_set_cons in Hsz by done. simpl in Hsz.
    constructor; [done|]. apply IH. lia.
Qed.

End list_sets.

(** ** The successive values of a loop variable

    [scanl f b l] lists the values the variable of the loop
    [for _, x := range l { b = f(b, x) }] takes: before the loop and after
    each turn. *)

Fixpoint scanl {A B} (f : B → A → B) (b : B) (l : list A) : list B :=
  b :: match l with
       | [] => []
       | x :: l => scanl f (f b x) l
       end.

Section scanl.
Context {A B : Type} (f : B → A → B).
Implicit Types (b : B) (l : list A).

Lemma scanl_length b l : length (scanl f b l) = S (length l).
Proof. revert b; induction l as [|x l IH]; intros b; simpl; [done|by rewrite IH]. Qed.

Lemma scanl_head b l : head (scanl f b l) = Some b.
Proof. by destruct l. Qed.

(** The value after [i] turns is the fold of the first [i] elements. *)
Lemma scanl_lookup b l i :
  i ≤ length l → scanl f b l !! i = Some (foldl f b (take i l)).
Proof.
  revert b i; induction l as [|x l IH]; intros b [|i] Hi; simpl in *;
    [done|lia|done|]. apply IH. lia.
Qed.

(** The last value is the result of the loop. *)
Lemma scanl_last b l : last (scanl f b l) = Some (foldl f b l).
Proof.
  rewrite last_lookup, scanl_length. simpl.
  rewrite scanl_lookup by done. by rewrite firstn_all.
Qed.

Lemma elem_of_scanl b l y :
  y ∈ scanl f b l ↔ ∃ i, i ≤ length l ∧ y = foldl f b (take i l).
Proof.
  rewrite list_elem_of_lookup. split.
  - intros [i Hi]. pose proof (lookup_lt_Some _ _ _ Hi) as Hlt.
    rewrite scanl_length in Hlt. rewrite scanl_lookup in Hi by lia.
    exists i. split; [lia|congruence].
  - intros (i & Hi & ->). exists i. by apply scanl_lookup.
Qed.

End scanl.
