(* ===== verification/GoStrings.v ===== *)
(** * The functions of Go's [strings] package that [setup.go] calls

    [HasPrefix] and [HasSuffix] are written as Go writes them: a length test
    followed by the comparison of a slice of [s] with the affix.  Each is
    then characterised by the existence of the rest of the string, which is
    the form the other files use.

    [ToUpper] works on bytes: it maps the bytes ['a'..'z'] to ['A'..'Z'] and
    leaves every other byte alone.  This is Go's [strings.ToUpper] on ASCII
    strings.  On a string with a byte above 127 Go's result still holds a
    byte above 127 (a multi-byte rune maps to a multi-byte rune except for
    U+0131 and U+017F, which map to ['I'] and ['S']), so for the only use
    the source makes of it, the comparison of the result with ["A"],
    ["AAAA"], ["CNAME"] and ["TXT"], the two agree on every input. *)

From Stdlib Require Import ZArith String Ascii List Lia.
From stdpp Require Import base tactics option list strings.
From S2P Require Import Prelude.

(** ** Slices of a string *)

Section slices.
Implicit Types s t p : string.

Lemma string_app_nil_l s : "" +:+ s = s.
Proof. done. Qed.

Lemma string_app_cons c s t : String c s +:+ t = String c (s +:+ t).
Proof. done. Qed.

Lemma string_length_app s t :
  String.length (s +:+ t) = String.length s + String.length t.
Proof.
  induction s as [|c s IH]; [done|]. rewrite string_app_cons. simpl. by rewrite IH.
Qed.

Lemma string_app_nil_r s : s +:+ "" = s.
Proof.
  induction s as [|c s IH]; [done|]. by rewrite string_app_cons, IH.
Qed.

Lemma string_app_assoc s t p : (s +:+ t) +:+ p = s +:+ (t +:+ p).
Proof.
  induction s as [|c s IH]; [done|]. by rewrite !string_app_cons, IH.
Qed.

Lemma string_app_inv_r s t p : s +:+ p = t +:+ p → s = t.
Proof.
  revert t; induction s as [|c s IH]; intros [|d t] Heq;
    rewrite ?string_app_nil_l, ?string_app_cons in Heq; [done|..].
  - apply (f_equal String.length) in Heq. simpl in Heq.
    rewrite string_length_app in Heq. lia.
  - apply (f_equal String.length) in Heq. simpl in Heq.
    rewrite string_length_app in Heq. lia.
  - injection Heq as -> Heq. f_equal. by apply IH.
Qed.

Lemma substring_0_0 s : substring 0 0 s = "".
Proof. by destruct s. Qed.

Lemma substring_0_length s : substring 0 (String.length s) s = s.
Proof. induction s as [|c s IH]; simpl; [done|]. by rewrite IH. Qed.

(** [(p + t)[0:len(p)] == p] *)
Lemma substring_0_app p t : substring 0 (String.length p) (p +:+ t) = p.
Proof.
  induction p as [|c p IH]; [apply substring_0_0|].
  rewrite string_app_cons. simpl. by rewrite IH.
Qed.

(** [(t + p)[len(t):] == p] *)
Lemma substring_app_r t p :
  substring (String.length t) (String.length p) (t +:+ p) = p.
Proof.
  induction t as [|c t IH]; [apply substring_0_length|].
  by rewrite string_app_cons.
Qed.

(** [s == s[0:n] + s[n:]] *)
Lemma substring_split s n :
  n ≤ String.length s →
  substring 0 n s +:+ substring n (String.length s - n) s = s.
Proof.
  revert n; induction s as [|c s IH]; intros [|n] Hn; simpl in *; try done; try lia.
  - by rewrite string_app_nil_l, substring_0_length.
  - rewrite string_app_cons, IH by lia. done.
Qed.

Lemma substring_length s n m :
  n + m ≤ String.length s → String.length (substring n m s) = m.
Proof.
  revert n m; induction s as [|c s IH]; intros [|n] [|m] Hn; simpl in *;
    try done; try lia.
  - rewrite IH; [done|lia].
  - apply IH; lia.
  - apply IH; lia.
Qed.

End slices.

(** ** [strings.HasPrefix] and [strings.HasSuffix] *)

(** [len(s) >= len(prefix) && s[0:len(prefix)] == prefix] *)
Definition HasPrefix (s prefix : string) : bool :=
  (String.length prefix <=? String.length s) &&
  String.eqb (substring 0 (String.length prefix) s) prefix.

(** [len(s) >= len(suffix) && s[len(s)-len(suffix):] == suffix] *)
Definition HasSuffix (s suffix : string) : bool :=
  (String.length suffix <=? String.length s) &&
  String.eqb
    (substring (String.length s - String.length suffix) (String.length suffix) s)
    suffix.

Section affixes.
Implicit Types s t p : string.

Lemma HasPrefix_spec s p : HasPrefix s p = true ↔ ∃ t, s = p +:+ t.
Proof.
  unfold HasPrefix. rewrite andb_true_iff, Nat.leb_le, String.eqb_eq. split.
  - intros [Hlen Hsub].
    exists (substring (String.length p) (String.length s - String.length p) s).
    rewrite <-Hsub at 1. by rewrite substring_split.
  - intros [t ->]. rewrite string_length_app, substring_0_app. split; [lia|done].
Qed.

Lemma HasSuffix_spec s p : HasSuffix s p = true ↔ ∃ t, s = t +:+ p.
Proof.
  unfold HasSuffix. rewrite andb_true_iff, Nat.leb_le, String.eqb_eq. split.
  - intros [Hlen Hsub]. set (n := String.length s - String.length p) in *.
    exists (substring 0 n s). rewrite <-(substring_split s n) at 1 by lia.
    f_equal. by replace (String.length s - n) with (String.length p) by lia.
  - intros [t ->]. rewrite string_length_app.
    replace (String.length t + String.length p - String.length p)
      with (String.length t) by lia.
    rewrite substring_app_r. split; [lia|done].
Qed.

Lemma HasPrefix_app p t : HasPrefix (p +:+ t) p = true.
Proof. apply HasPrefix_spec; eauto. Qed.

Lemma HasSuffix_app t p : HasSuffix (t +:+ p) p = true.
Proof. apply HasSuffix_spec; eauto. Qed.

Lemma HasPrefix_false s p : HasPrefix s p = false ↔ ∀ t, s ≠ p +:+ t.
Proof.
  rewrite <-not_true_iff_false, HasPrefix_spec. split.
  - intros Hno t Heq. apply Hno; eauto.
  - intros Hno [t Heq]. by eapply Hno.
Qed.

Lemma HasSuffix_false s p : HasSuffix s p = false ↔ ∀ t, s ≠ t +:+ p.
Proof.
  rewrite <-not_true_iff_false, HasSuffix_spec. split.
  - intros Hno t Heq. apply Hno; eauto.
  - intros Hno [t Heq]. by eapply Hno.
Qed.

Lemma HasPrefix_length s p :
  HasPrefix s p = true → String.length p ≤ String.length s.
Proof. intros [t ->]%HasPrefix_spec. rewrite string_length_app. lia. Qed.

Lemma HasSuffix_length s p :
  HasSuffix s p = true → String.length p ≤ String.length s.
Proof. intros [t ->]%HasSuffix_spec. rewrite string_length_app. lia. Qed.

(** The empty string has no non-empty affix. *)
Lemma HasPrefix_empty p : p ≠ "" → HasPrefix "" p = false.
Proof. by destruct p. Qed.

Lemma HasSuffix_empty p : p ≠ "" → HasSuffix "" p = false.
Proof. by destruct p. Qed.

End affixes.

#[export] Hint Rewrite string_app_nil_l string_app_cons string_app_nil_r
  HasPrefix_app HasSuffix_app : views.

(** ** Case mapping on bytes *)

Definition map_string (f : ascii → ascii) : string → string :=
  fix go s :=
    match s with
    | EmptyString => EmptyString
    | String c s => String (f c) (go s)
    end.

(** ['a' <= c && c <= 'z'] *)
Definition is_lower (c : ascii) : bool :=
  let n := N_of_ascii c in ((97 <=? n) && (n <=? 122))%N.

(** ['A' <= c && c <= 'Z'] *)
Definition is_upper (c : ascii) : bool :=
  let n := N_of_ascii c in ((65 <=? n) && (n <=? 90))%N.

(** [c -= 'a' - 'A'] on a lower-case letter. *)
Definition upper_byte (c : ascii) : ascii :=
  if is_lower c then ascii_of_N (N_of_ascii c - 32) else c.

(** [c += 'a' - 'A'] on an upper-case letter. *)
Definition lower_byte (c : ascii) : ascii :=
  if is_upper c then ascii_of_N (N_of_ascii c + 32) else c.

Definition ToUpper (s : string) : string := map_string upper_byte s.
Definition ToLower (s : string) : string := map_string lower_byte s.

(** Case analysis over the 256 bytes. *)
Ltac by_bytes c := destruct c as [[][][][][][][][]]; vm_compute; done.

Section case_mapping.
Implicit Types (s t : string) (c : ascii) (f : ascii → ascii).

Lemma map_string_length f s : String.length (map_string f s) = String.length s.
Proof. induction s as [|c s IH]; simpl; [done|]. by rewrite IH. Qed.

Lemma map_string_app f s t :
  map_string f (s +:+ t) = map_string f s +:+ map_string f t.
Proof.
  induction s as [|c s IH]; [done|]. rewrite string_app_cons. simpl.
  by rewrite IH, string_app_cons.
Qed.

Lemma map_string_idemp f s :
  (∀ c, f (f c) = f c) → map_string f (map_string f s) = map_string f s.
Proof. intros Hf. induction s as [|c s IH]; simpl; [done|]. by rewrite Hf, IH. Qed.

Lemma map_string_compose f g s :
  map_string f (map_string g s) = map_string (f ∘ g) s.
Proof. induction s as [|c s IH]; simpl; [done|]. by rewrite IH. Qed.

Lemma map_string_ext f g s :
  (∀ c, f c = g c) → map_string f s = map_string g s.
Proof. intros Hfg. induction s as [|c s IH]; simpl; [done|]. by rewrite Hfg, IH. Qed.

Lemma upper_byte_idemp c : upper_byte (upper_byte c) = upper_byte c.
Proof. by_bytes c. Qed.

Lemma lower_byte_idemp c : lower_byte (lower_byte c) = lower_byte c.
Proof. by_bytes c. Qed.

Lemma upper_lower_byte c : upper_byte (lower_byte c) = upper_byte c.
Proof. by_bytes c. Qed.

Lemma lower_upper_byte c : lower_byte (upper_byte c) = lower_byte c.
Proof. by_bytes c. Qed.

Lemma upper_byte_not_lower c : is_lower (upper_byte c) = false.
Proof. by_bytes c. Qed.

Lemma lower_byte_not_upper c : is_upper (lower_byte c) = false.
Proof. by_bytes c. Qed.

Lemma ToUpper_length s : String.length (ToUpper s) = String.length s.
Proof. apply map_string_length. Qed.

Lemma ToLower_length s : String.length (ToLower s) = String.length s.
Proof. apply map_string_length. Qed.

Lemma ToUpper_idemp s : ToUpper (ToUpper s) = ToUpper s.
Proof. apply map_string_idemp, upper_byte_idemp. Qed.

Lemma ToLower_idemp s : ToLower (ToLower s) = ToLower s.
Proof. apply map_string_idemp, lower_byte_idemp. Qed.

Lemma ToUpper_app s t : ToUpper (s +:+ t) = ToUpper s +:+ ToUpper t.
Proof. apply map_string_app. Qed.

Lemma ToLower_app s t : ToLower (s +:+ t) = ToLower s +:+ ToLower t.
Proof. apply map_string_app. Qed.

(** Two strings that differ in case only have the same upper-case form:
    [ToUpper] decides Go's [strings.EqualFold] on ASCII. *)
Lemma ToUpper_ToLower s : ToUpper (ToLower s) = ToUpper s.
Proof.
  unfold ToUpper, ToLower. rewrite map_string_compose.
  apply map_string_ext, upper_lower_byte.
Qed.

Lemma ToLower_ToUpper s : ToLower (ToUpper s) = ToLower s.
Proof.
  unfold ToUpper, ToLower. rewrite map_string_compose.
  apply map_string_ext, lower_upper_byte.
Qed.

Lemma ToUpper_eq_ToLower_eq s t : ToUpper s = ToUpper t ↔ ToLower s = ToLower t.
Proof.
  split; intros Heq.
  - by rewrite <-(ToLower_ToUpper s), Heq, ToLower_ToUpper.
  - by rewrite <-(ToUpper_ToLower s), Heq, ToUpper_ToLower.
Qed.

End case_mapping.

#[export] Hint Rewrite ToUpper_idemp ToLower_idemp ToUpper_ToLower
  ToLower_ToUpper ToUpper_length ToLower_length : views.

(** ** Decimal digits *)

(** ['0' <= c && c <= '9'] *)
Definition is_digit (c : ascii) : bool :=
  let n := N_of_ascii c in ((48 <=? n) && (n <=? 57))%N.

(** [int(c - '0')] *)
Definition digit_val (c : ascii) : Z := Z.of_N (N_of_ascii c) - 48.

(** The value of a string of decimal digits, most significant first, after
    the digits [acc] already read; [None] on any other byte. *)
Fixpoint decimal_from (acc : Z) (s : string) : option Z :=
  match s with
  | EmptyString => Some acc
  | String c s =>
      if is_digit c then decimal_from (acc * 10 + digit_val c) s else None
  end.

(** The value of a non-empty string of decimal digits. *)
Definition decimal (s : string) : option Z :=
  match s with
  | EmptyString => None
  | _ => decimal_from 0 s
  end.

Lemma digit_val_range c : is_digit c = true → (0 ≤ digit_val c ≤ 9)%Z.
Proof.
  unfold is_digit, digit_val. rewrite andb_true_iff, !N.leb_le. lia.
Qed.

Lemma decimal_from_nonneg acc s z :
  (0 ≤ acc)%Z → decimal_from acc s = Some z → (acc ≤ z)%Z.
Proof.
  revert acc; induction s as [|c s IH]; intros acc Hacc; simpl.
  - intros [= <-]. lia.
  - destruct (is_digit c) eqn:Hc; [|done]. intros Hz.
    apply digit_val_range in Hc. apply IH in Hz; lia.
Qed.

Lemma decimal_nonneg s z : decimal s = Some z → (0 ≤ z)%Z.
Proof. destruct s; [done|]. by apply decimal_from_nonneg. Qed.
