(* ===== verification/Libs.v ===== *)
(** * The libraries [setup.go] calls, as interfaces

    The source calls functions it does not define: [net.ParseCIDR],
    [plugin.Host.Normalize], [time.ParseDuration], [yaml.Unmarshal],
    [json.Unmarshal], [url.Parse], [http.NewRequest], and it names
    constants declared elsewhere ([SchemaYAML], [SchemaHTTP], the record
    types of [miekg/dns]).  Each is a field of a type class here, with the
    laws the source relies on, so that the theorems on [parse] and
    [loadConfig] are proved for every library that keeps these laws.
    [Netip] and [DnsName] give instances that compute.

    The file system and the network are not functions of the program: two
    reads of the same file may differ.  They are the fields of a [World],
    the state of the outside at the time of one call. *)

From Stdlib Require Import ZArith String Ascii List Lia.
From stdpp Require Import base tactics option list strings.
From S2P Require Import Prelude GoStrings.

(** A [[]byte]. *)
Definition bytes : Type := string.

(** ** Machine integers *)

Definition uint16 (z : Z) : Prop := (0 ≤ z < 2 ^ 16)%Z.
Definition uint32 (z : Z) : Prop := (0 ≤ z < 2 ^ 32)%Z.
Definition int64 (z : Z) : Prop := (- 2 ^ 63 ≤ z < 2 ^ 63)%Z.

#[global] Instance uint16_dec z : Decision (uint16 z).
Proof. unfold uint16. apply _. Defined.
#[global] Instance uint32_dec z : Decision (uint32 z).
Proof. unfold uint32. apply _. Defined.
#[global] Instance int64_dec z : Decision (int64 z).
Proof. unfold int64. apply _. Defined.

(** ** The schema constants

    [SchemaYAML] and [SchemaHTTP] are string constants of the package,
    declared outside [setup.go].  [loadConfig] switches on them in two
    [case] clauses of one [switch], which Go compiles only if the two
    constants differ. *)
Class SchemaConsts : Type := {
  SchemaYAML : string;
  SchemaHTTP : string;
  Schema_distinct : SchemaYAML ≠ SchemaHTTP;
}.

(** ** The record types of [miekg/dns]

    [dns.TypeA], [dns.TypeAAAA], [dns.TypeCNAME] and [dns.TypeTXT] are
    [uint16] constants; the zero value of a [uint16] is none of them. *)
Class DNSConsts : Type := {
  TypeA : Z;
  TypeAAAA : Z;
  TypeCNAME : Z;
  TypeTXT : Z;
  DNSTypes_uint16 : Forall uint16 [TypeA; TypeAAAA; TypeCNAME; TypeTXT];
  DNSTypes_NoDup : NoDup [0%Z; TypeA; TypeAAAA; TypeCNAME; TypeTXT];
}.

(** The values of [miekg/dns] (the DNS parameters registry). *)
#[export] Program Instance miekg_dns : DNSConsts := {|
  TypeA := 1; TypeAAAA := 28; TypeCNAME := 5; TypeTXT := 16;
|}.
Next Obligation. compute_done. Qed.
Next Obligation. compute_done. Qed.

(** ** Package [net]

    The types are a class of their own, so that the data that holds
    networks depends on the types and not on the functions. *)
Class NetTypes : Type := {
  (** [net.IP] *)
  IP : Type;
  (** [net.IPNet] *)
  IPNet : Type;
}.

Class NetLib `{!NetTypes} : Type := {
  IPNet_eq_dec :: EqDecision IPNet;
  (** [net.ParseCIDR]: the address and the network of a prefix in CIDR
      notation, or an error. *)
  ParseCIDR : string → result (IP * IPNet);
  (** The method [Contains] of [IPNet]. *)
  Contains : IPNet → IP → bool;
}.

(** ** [plugin.Host.Normalize] of CoreDNS *)
Class HostLib : Type := {
  Normalize : string → string;
}.

(** ** [time.ParseDuration]

    A [time.Duration] is an [int64] count of nanoseconds. *)
Class TimeLib : Type := {
  ParseDuration : string → result Z;
  ParseDuration_int64 s d : ParseDuration s = Ok d → int64 d;
}.

Definition Second : Z := 1000000000.

(** A stand-in for [time.ParseDuration], to run the examples: an optional
    sign, a decimal number of seconds and the unit ["s"].  It is not a model
    of Go's function, which accepts more (fractions, other units, several
    components); it agrees with it on the strings it accepts. *)
Definition seconds_duration (s : string) : result Z :=
  let invalid := Err ("time: invalid duration " +:+ s) in
  let '(neg, digits) :=
    match s with
    | String "-" rest => (true, rest)
    | String "+" rest => (false, rest)
    | _ => (false, s)
    end in
  if HasSuffix digits "s" then
    match decimal (substring 0 (String.length digits - 1) digits) with
    | Some n =>
        let d := if neg then (- (n * Second))%Z else (n * Second)%Z in
        if decide (int64 d) then Ok d else invalid
    | None => invalid
    end
  else invalid.

#[export] Program Instance sample_time : TimeLib := {|
  ParseDuration := seconds_duration;
|}.
Next Obligation.
  intros s d. unfold seconds_duration.
  repeat case_match; naive_solver.
Qed.

(** ** Decoders

    [yaml.Unmarshal(data, out)] and [json.Unmarshal(data, out)] write into
    [*out] and return an error; on an error [*out] may have been written in
    part. *)
Class Decoder (A : Type) : Type := {
  yaml_Unmarshal : bytes → A → A * option error;
  json_Unmarshal : bytes → A → A * option error;
}.

(** ** Packages [net/url] and [net/http] *)
Class HTTPTypes : Type := {
  URL : Type;
  Request : Type;
  Response : Type;
}.

Class HTTPLib `{!HTTPTypes} : Type := {
  (** [url.Parse] *)
  url_Parse : string → result URL;
  (** The method [String] of [URL]. *)
  URL_String : URL → string;
  (** [http.NewRequest(method, url, nil)] *)
  http_NewRequest : string → string → result Request;
}.

Definition MethodGet : string := "GET".

(** ** The outside world at the time of a call *)
Record World `{!HTTPTypes} : Type := {
  (** [ioutil.ReadFile] *)
  ReadFile : string → result bytes;
  (** [(&http.Client{Timeout: t}).Do(req)], by the timeout [t] in
      nanoseconds. *)
  client_Do : Z → Request → result Response;
  (** [ioutil.ReadAll(resp.Body)] *)
  ReadAll : Response → result bytes;
}.

(** ** Package [plugin] of CoreDNS: errors

    [plugin.Error(name, err)] makes the error a plugin's [setup] returns. *)
Class PluginLib : Type := {
  plugin_Error : string → error → error;
}.

(** ** Consequences of the laws *)

Section consts.
Context `{!SchemaConsts, !DNSConsts}.

Lemma SchemaHTTP_neq_YAML : SchemaHTTP ≠ SchemaYAML.
Proof. intros Heq. by apply Schema_distinct. Qed.

Lemma DNSTypes_nonzero t :
  t ∈ [TypeA; TypeAAAA; TypeCNAME; TypeTXT] → t ≠ 0%Z.
Proof.
  intros Hin ->. pose proof DNSTypes_NoDup as Hnd.
  by apply NoDup_cons_1_1 in Hnd.
Qed.

Lemma DNSTypes_inj i j t u :
  [TypeA; TypeAAAA; TypeCNAME; TypeTXT] !! i = Some t →
  [TypeA; TypeAAAA; TypeCNAME; TypeTXT] !! j = Some u →
  t = u → i = j.
Proof.
  intros Hi Hj ->. pose proof DNSTypes_NoDup as Hnd.
  apply NoDup_cons_1_2 in Hnd. by eapply NoDup_lookup.
Qed.

End consts.

#[export] Hint Resolve Schema_distinct SchemaHTTP_neq_YAML : views.
