(* ===== verification/Types.v ===== *)
(** * The data of [setup.go]

    The raw documents ([RawClientACL], [RawRecord] and the entries of its
    [Records]) are declared in [setup.go] l.26-43.  [ClientACL], [Zone],
    [Zones] and [Views] are declared outside it; their fields and the types
    of their fields are those of the composite literals and assignments of
    [parse] and [loadConfig], to which each record refers.  A projection
    is named [<Type>_<Field>] after the Go type and field.

    The log is the sequence of entries [log.Error] and [log.Warningf]
    write, oldest first. *)

From Stdlib Require Import ZArith String Ascii List Lia.
From stdpp Require Import base tactics option list strings gmap.
From S2P Require Import Prelude Libs.

(** ** The raw documents *)

(** [RawClientACL]: an entry of the client document. *)
Record RawClientACL : Type := mkRawClientACL {
  RawClientACL_Name : string;
  RawClientACL_CIDRPrefixes : list string;
}.

(** The anonymous struct of [RawRecord.Records]: one record as written. *)
Record RawRecordEntry : Type := mkRawRecordEntry {
  RawRecordEntry_Name : string;
  RawRecordEntry_TTL : Z;
  RawRecordEntry_Type : string;
  RawRecordEntry_Value : string;
}.

(** [RawRecord]: an entry of the record document, the records of one view. *)
Record RawRecord : Type := mkRawRecord {
  RawRecord_Name : string;
  RawRecord_Records : list RawRecordEntry;
}.

#[global] Instance RawClientACL_eq_dec : EqDecision RawClientACL.
Proof. solve_decision. Defined.
#[global] Instance RawRecordEntry_eq_dec : EqDecision RawRecordEntry.
Proof. solve_decision. Defined.
#[global] Instance RawRecord_eq_dec : EqDecision RawRecord.
Proof. solve_decision. Defined.

(** What a decoder guarantees of a [uint32] field. *)
Definition RawRecordEntry_wf (e : RawRecordEntry) : Prop :=
  uint32 (RawRecordEntry_TTL e).

Definition RawRecord_wf (r : RawRecord) : Prop :=
  Forall RawRecordEntry_wf (RawRecord_Records r).

(** ** The log *)

Inductive LogEntry : Type :=
| LogError (e : error)
| LogWarning (msg : string).

#[global] Instance LogEntry_eq_dec : EqDecision LogEntry.
Proof. solve_decision. Defined.

Abbreviation Log := (list LogEntry) (only parsing).

Definition is_LogError (e : LogEntry) : bool :=
  match e with LogError _ => true | LogWarning _ => false end.

Definition is_LogWarning (e : LogEntry) : bool :=
  match e with LogError _ => false | LogWarning _ => true end.

(** ** The configuration in memory *)

(** [Zone]: one record of a view ([loadConfig], the literal of l.224-229). *)
Record Zone : Type := mkZone {
  Zone_Name : string;
  Zone_TTL : Z;
  Zone_Type : Z;
  Zone_Value : string;
}.

#[global] Instance Zone_eq_dec : EqDecision Zone.
Proof. solve_decision. Defined.

(** [Zones]: the records of a view by name, and the names in the order of the
    document ([loadConfig], the literal of l.204-207). *)
Record Zones : Type := mkZones {
  Zones_Names : list string;
  Zones_Z : gmap string Zone;
}.

#[global] Instance Zones_eq_dec : EqDecision Zones.
Proof. solve_decision. Defined.

Section with_net.
Context `{!NetTypes, !NetLib}.

(** [ClientACL]: a view's name and the networks of its clients
    ([loadConfig], the literal of l.196-199). *)
Record ClientACL : Type := mkClientACL {
  ClientACL_Name : string;
  ClientACL_CIDRNets : list IPNet;
}.

#[global] Instance ClientACL_eq_dec : EqDecision ClientACL.
Proof. solve_decision. Defined.

(** [Views]: the plugin.  [parse] sets the first five fields (l.86-89 and
    l.128-131), [loadConfig] the last two (l.182, l.196, l.202, l.235). *)
Record Views : Type := mkViews {
  Views_ReloadInterval : Z;
  Views_Client : string;
  Views_Record : string;
  Views_ClientSchema : string;
  Views_RecordSchema : string;
  Views_ClientACLs : list ClientACL;
  Views_ClientZones : gmap string Zones;
}.

#[global] Instance Views_eq_dec : EqDecision Views.
Proof. solve_decision. Defined.

(** The two fields the query path reads. *)
Definition snapshot (v : Views) : list ClientACL * gmap string Zones :=
  (Views_ClientACLs v, Views_ClientZones v).

(** [v] with its two loaded fields replaced. *)
Definition with_config (v : Views) (acls : list ClientACL)
    (zones : gmap string Zones) : Views :=
  {| Views_ReloadInterval := Views_ReloadInterval v;
     Views_Client := Views_Client v;
     Views_Record := Views_Record v;
     Views_ClientSchema := Views_ClientSchema v;
     Views_RecordSchema := Views_RecordSchema v;
     Views_ClientACLs := acls;
     Views_ClientZones := zones |}.

(** The five fields [parse] sets: the settings of the plugin. *)
Definition same_settings (v w : Views) : Prop :=
  Views_ReloadInterval v = Views_ReloadInterval w ∧
  Views_Client v = Views_Client w ∧
  Views_Record v = Views_Record w ∧
  Views_ClientSchema v = Views_ClientSchema w ∧
  Views_RecordSchema v = Views_RecordSchema w.

#[global] Instance same_settings_equiv : Equivalence same_settings.
Proof.
  unfold same_settings. split.
  - by intros v.
  - intros v w (?&?&?&?&?). by repeat split.
  - intros u v w (?&?&?&?&?) (?&?&?&?&?). repeat split; congruence.
Qed.

Lemma with_config_settings v acls zones : same_settings (with_config v acls zones) v.
Proof. by repeat split. Qed.

Lemma with_config_snapshot v acls zones :
  snapshot (with_config v acls zones) = (acls, zones).
Proof. done. Qed.

Lemma Views_eq v w :
  same_settings v w → snapshot v = snapshot w → v = w.
Proof.
  destruct v, w. unfold same_settings, snapshot. simpl.
  intros (?&?&?&?&?) [= ??]. by subst.
Qed.

End with_net.

#[export] Hint Resolve with_config_settings : views.
#[export] Hint Rewrite @with_config_snapshot : views.
