(* ===== verification/Schema.v ===== *)
(** * [schemaCheck]: the kind of a source locator ([setup.go] l.290-297)

    [schemaCheck] is the only place where the plugin decides how a source is
    read.  The theorems characterise each of its three results by the shape
    of the locator, show that the prefix test takes precedence over the
    suffix test, and give what [parse] needs of it: an accepted locator is
    not empty and its schema is one of the two constants. *)

From Stdlib Require Import ZArith String Ascii List Lia.
From stdpp Require Import base tactics option list strings.
From S2P Require Import Prelude GoStrings Libs.

(** ** The shapes of a locator *)

(** The locator starts with ["http://"] or with ["https://"]. *)
Definition is_http (s : string) : Prop :=
  (∃ t, s = "http://" +:+ t) ∨ (∃ t, s = "https://" +:+ t).

(** The locator ends with [".yaml"] or with [".yml"]. *)
Definition is_yaml (s : string) : Prop :=
  (∃ t, s = t +:+ ".yaml") ∨ (∃ t, s = t +:+ ".yml").

Section schema.
Context `{!SchemaConsts}.

(** [fmt.Errorf("unknown schema: %s", str)] *)
Definition unknown_schema (str : string) : error := "unknown schema: " +:+ str.

Definition schemaCheck (str : string) : result string :=
  if HasPrefix str "http://" || HasPrefix str "https://" then Ok SchemaHTTP
  else if HasSuffix str ".yaml" || HasSuffix str ".yml" then Ok SchemaYAML
  else Err (unknown_schema str).

(** ** The tests decide the shapes *)

Lemma http_test s :
  HasPrefix s "http://" || HasPrefix s "https://" = true ↔ is_http s.
Proof. unfold is_http. by rewrite orb_true_iff, !HasPrefix_spec. Qed.

Lemma yaml_test s :
  HasSuffix s ".yaml" || HasSuffix s ".yml" = true ↔ is_yaml s.
Proof. unfold is_yaml. by rewrite orb_true_iff, !HasSuffix_spec. Qed.

#[global] Instance is_http_dec s : Decision (is_http s).
Proof.
  refine (cast_if (decide (HasPrefix s "http://" || HasPrefix s "https://" = true)));
    by rewrite <-http_test.
Defined.

#[global] Instance is_yaml_dec s : Decision (is_yaml s).
Proof.
  refine (cast_if (decide (HasSuffix s ".yaml" || HasSuffix s ".yml" = true)));
    by rewrite <-yaml_test.
Defined.

(** [schemaCheck] by cases on the shape of the locator. *)
Lemma schemaCheck_cases s :
  (is_http s ∧ schemaCheck s = Ok SchemaHTTP) ∨
  (¬ is_http s ∧ is_yaml s ∧ schemaCheck s = Ok SchemaYAML) ∨
  (¬ is_http s ∧ ¬ is_yaml s ∧ schemaCheck s = Err (unknown_schema s)).
Proof.
  unfold schemaCheck. rewrite <-http_test, <-yaml_test.
  destruct (HasPrefix s "http://" || HasPrefix s "https://");
    [by left|right].
  destruct (HasSuffix s ".yaml" || HasSuffix s ".yml"); [left|right]; by intuition.
Qed.

(** Case analysis on [schemaCheck s] in the goal and the context. *)
Ltac schema_cases s :=
  let Hh := fresh "Hhttp" in
  let Hy := fresh "Hyaml" in
  let Hs := fresh "Hschema" in
  destruct (schemaCheck_cases s) as [[Hh Hs]|[(Hh & Hy & Hs)|(Hh & Hy & Hs)]];
  rewrite ?Hs in *.

Lemma schemaCheck_http s : is_http s → schemaCheck s = Ok SchemaHTTP.
Proof. intros. by schema_cases s. Qed.

Lemma schemaCheck_yaml s :
  ¬ is_http s → is_yaml s → schemaCheck s = Ok SchemaYAML.
Proof. intros. by schema_cases s. Qed.

Lemma schemaCheck_unknown s :
  ¬ is_http s → ¬ is_yaml s → schemaCheck s = Err (unknown_schema s).
Proof. intros. by schema_cases s. Qed.

Lemma schemaCheck_Ok_inv s k :
  schemaCheck s = Ok k → k = SchemaHTTP ∨ k = SchemaYAML.
Proof. schema_cases s; naive_solver. Qed.

(** A locator of either shape has at least four bytes. *)
Lemma is_http_length s : is_http s → 7 ≤ String.length s.
Proof. intros [[t ->]|[t ->]]; rewrite string_length_app; simpl; lia. Qed.

Lemma is_yaml_length s : is_yaml s → 4 ≤ String.length s.
Proof. intros [[t ->]|[t ->]]; rewrite string_length_app; simpl; lia. Qed.

Lemma schemaCheck_Ok_length s k : schemaCheck s = Ok k → 4 ≤ String.length s.
Proof.
  schema_cases s; intros; simplify_eq;
    [apply is_http_length in Hhttp; lia|by apply is_yaml_length].
Qed.

Lemma schemaCheck_Ok_nonempty s k : schemaCheck s = Ok k → s ≠ "".
Proof. intros Hs%schemaCheck_Ok_length ->. simpl in Hs. lia. Qed.

(** ** The properties *)

(** C9. [schemaCheck] selects the HTTP schema exactly for the locators
    that start with ["http://"] or ["https://"], whatever their suffix. *)
Theorem schemaCheck_HTTP_iff s : schemaCheck s = Ok SchemaHTTP ↔ is_http s.
Proof.
  schema_cases s; split; try done; intros [= Heq]; by destruct Schema_distinct.
Qed.

(** [schemaCheck] selects the YAML schema exactly for the locators that
    end with [".yaml"] or [".yml"] and do not start with an HTTP scheme: the
    prefix test comes first. *)
Theorem schemaCheck_YAML_iff s :
  schemaCheck s = Ok SchemaYAML ↔ ¬ is_http s ∧ is_yaml s.
Proof.
  schema_cases s; split; try done; try tauto.
  intros [= Heq]; by destruct Schema_distinct.
Qed.

(** [schemaCheck] fails exactly on the locators of neither shape, and
    its error is ["unknown schema: "] followed by the locator. *)
Theorem schemaCheck_Err_iff s e :
  schemaCheck s = Err e ↔ ¬ is_http s ∧ ¬ is_yaml s ∧ e = unknown_schema s.
Proof. schema_cases s; split; try done; try tauto; naive_solver. Qed.

End schema.

(** ** An instance to run the definitions

    Any two distinct strings do for the constants; the examples use these. *)
#[export] Program Instance default_schemas : SchemaConsts := {|
  SchemaYAML := "yaml"; SchemaHTTP := "http";
|}.
Next Obligation. done. Qed.

Example schemaCheck_ex_http : schemaCheck "http://config/clients" = Ok "http".
Proof. reflexivity. Qed.

Example schemaCheck_ex_https_yaml : schemaCheck "https://config/clients.yaml" = Ok "http".
Proof. reflexivity. Qed.

Example schemaCheck_ex_yml : schemaCheck "/etc/coredns/records.yml" = Ok "yaml".
Proof. reflexivity. Qed.

Example schemaCheck_ex_json :
  schemaCheck "clients.json" = Err "unknown schema: clients.json".
Proof. reflexivity. Qed.

Example schemaCheck_ex_upper_scheme :
  schemaCheck "HTTP://config/clients" = Err "unknown schema: HTTP://config/clients".
Proof. reflexivity. Qed.

#[export] Hint Resolve schemaCheck_Ok_nonempty schemaCheck_Ok_inv : views.
