(* ===== verification/Netip.v ===== *)
(** * Package [net] on IPv4: an instance of [NetLib]

    [loadConfig] calls [net.ParseCIDR] and keeps the networks it returns; the
    query path asks [Contains] of them.  This file models the two on IPv4
    text, after Go's standard library (Go 1.18 and later, where an octet
    with a leading zero is refused): an address is the slice of its bytes,
    a mask likewise, and [Contains] compares the masked bytes.

    An IPv6 prefix is outside this instance: [ParseCIDR] refuses it here
    and Go accepts it.  The theorems of [Loader] do not depend on the
    instance. *)

From Stdlib Require Import ZArith String Ascii List Lia.
From stdpp Require Import base tactics option list strings.
From S2P Require Import Prelude GoStrings Libs.

#[local] Open Scope Z_scope.

(** A [byte]. *)
Definition byte (z : Z) : Prop := 0 ≤ z < 256.

#[global] Instance byte_dec z : Decision (byte z).
Proof. unfold byte. apply _. Defined.

(** ** Addresses and masks *)

(** [net.IPNet]: the network number and the mask, as byte slices. *)
Record IPNet4 : Type := mkIPNet {
  IPNet_IP : list Z;
  IPNet_Mask : list Z;
}.

#[global] Instance IPNet4_eq_dec : EqDecision IPNet4.
Proof. solve_decision. Defined.

(** [v4InV6Prefix]: the first twelve bytes of an IPv4 address in its
    sixteen-byte form. *)
Definition v4InV6Prefix : list Z := [0; 0; 0; 0; 0; 0; 0; 0; 0; 0; 255; 255].

(** [IPv4(a, b, c, d)]: the sixteen-byte form of an IPv4 address. *)
Definition IPv4 (a b c d : Z) : list Z := v4InV6Prefix ++ [a; b; c; d].

(** [ip.To4()]: the four-byte form of an IPv4 address, [None] for [nil]. *)
Definition To4 (ip : list Z) : option (list Z) :=
  if decide (length ip = 4%nat) then Some ip
  else if decide (length ip = 16%nat ∧ take 12 ip = v4InV6Prefix)
  then Some (drop 12 ip)
  else None.

(** [net.CIDRMask(ones, 8*l)], for [0 <= ones <= 8*l]: the loop over the
    [l] bytes of the mask. *)
Fixpoint CIDRMask_bytes (l : nat) (n : Z) : list Z :=
  match l with
  | O => []
  | S l =>
      if 8 <=? n then 255 :: CIDRMask_bytes l (n - 8)
      else Z.land (Z.lnot (Z.shiftr 255 n)) 255 :: CIDRMask_bytes l 0
  end.

Definition CIDRMask (ones bits : Z) : option (list Z) :=
  if negb ((bits =? 32) || (bits =? 128)) then None
  else if (ones <? 0) || (bits <? ones) then None
  else Some (CIDRMask_bytes (Z.to_nat (bits / 8)) ones).

(** [ip.Mask(mask)] on slices of one length: [out[i] = ip[i] & mask[i]]. *)
Definition mask_bytes (ip mask : list Z) : list Z := zip_with Z.land ip mask.

(** ** Parsing *)

(** [dtoi] of package [net]: the decimal number at the start of [s], the
    number of bytes read, and whether a number below [big] was read. *)
Definition big : Z := 16777215.

Fixpoint dtoi_from (n : Z) (i : nat) (s : string) : Z * nat * bool :=
  match s with
  | String c rest =>
      if is_digit c then
        let n' := n * 10 + digit_val c in
        if big <=? n' then (big, i, false) else dtoi_from n' (S i) rest
      else if Nat.eqb i 0 then (0, 0%nat, false) else (n, i, true)
  | EmptyString => if Nat.eqb i 0 then (0, 0%nat, false) else (n, i, true)
  end.

Definition dtoi (s : string) : Z * nat * bool := dtoi_from 0 0 s.

(** [parseIPv4] of package [net/netip]: the loop over the bytes of [s].
    [first] says that no byte was read yet, [prev_dot] that the last byte
    read was a dot; [fields] are the octets read, [val] and [digLen] the
    value and the number of digits of the octet being read. *)
Fixpoint parseIPv4_from (first prev_dot : bool) (fields : list Z) (val : Z)
    (digLen : nat) (s : string) : option (list Z) :=
  match s with
  | EmptyString =>
      if (length fields <? 3)%nat then None else Some (fields ++ [val])
  | String c rest =>
      if is_digit c then
        if Nat.eqb digLen 1 && (val =? 0) then None
        else
          let val' := val * 10 + digit_val c in
          if 255 <? val' then None
          else parseIPv4_from false false fields val' (S digLen) rest
      else if Ascii.eqb c "." then
        if first || String.eqb rest "" || prev_dot then None
        else if Nat.eqb (length fields) 3 then None
        else parseIPv4_from false true (fields ++ [val]) 0 0 rest
      else None
  end.

Definition parseIPv4 (s : string) : option (list Z) :=
  parseIPv4_from true false [] 0 0 s.

(** [strings.IndexByte(s, c)] *)
Fixpoint IndexByte (s : string) (c : ascii) : option nat :=
  match s with
  | EmptyString => None
  | String d rest => if Ascii.eqb d c then Some 0%nat else S <$> IndexByte rest c
  end.

(** The first byte of [s] among ['.'], [':'] and ['%'], by which
    [netip.ParseAddr] chooses the form of the address. *)
Fixpoint addr_form (s : string) : option ascii :=
  match s with
  | EmptyString => None
  | String c rest =>
      if Ascii.eqb c "." || Ascii.eqb c ":" || Ascii.eqb c "%" then Some c
      else addr_form rest
  end.

(** [netip.ParseAddr] on IPv4 text. *)
Definition ParseAddr4 (s : string) : option (list Z) :=
  match addr_form s with
  | Some "."%char => parseIPv4 s
  | _ => None
  end.

(** The error of [net.ParseCIDR]. *)
Definition invalid_CIDR (s : string) : error := "invalid CIDR address: " +:+ s.

(** [net.ParseCIDR] on IPv4 text: the address in its sixteen-byte form and
    the network, its number masked. *)
Definition ParseCIDR4 (s : string) : result (list Z * IPNet4) :=
  match IndexByte s "/" with
  | None => Err (invalid_CIDR s)
  | Some i =>
      let addr := substring 0 i s in
      let mask := substring (S i) (String.length s - S i) s in
      match ParseAddr4 addr with
      | None => Err (invalid_CIDR s)
      | Some ip =>
          let '(n, j, ok) := dtoi mask in
          if negb ok || negb (Nat.eqb j (String.length mask)) || (n <? 0) || (32 <? n)
          then Err (invalid_CIDR s)
          else
            match CIDRMask n 32 with
            | None => Err (invalid_CIDR s)
            | Some m =>
                Ok (v4InV6Prefix ++ ip,
                    {| IPNet_IP := mask_bytes ip m; IPNet_Mask := m |})
            end
      end
  end.

(** ** Membership *)

(** [networkNumberAndMask]: the number and the mask of a network in the
    shortest form, [None] when they do not fit. *)
Definition networkNumberAndMask (n : IPNet4) : option (list Z * list Z) :=
  let ip := default (IPNet_IP n) (To4 (IPNet_IP n)) in
  if decide (length ip = 4%nat ∨ length ip = 16%nat) then
    if decide (length (IPNet_Mask n) = length ip) then Some (ip, IPNet_Mask n)
    else if decide (length (IPNet_Mask n) = 16%nat ∧ length ip = 4%nat
                    ∧ take 12 (IPNet_Mask n) = replicate 12 255)
    then Some (ip, drop 12 (IPNet_Mask n))
    else None
  else None.

(** The method [Contains] of [IPNet]: the bytes of the address and of the
    network number agree under the mask. *)
Definition Contains4 (n : IPNet4) (ip : list Z) : bool :=
  match networkNumberAndMask n with
  | None => false
  | Some (nn, m) =>
      let ip := default ip (To4 ip) in
      bool_decide (length ip = length nn) &&
      bool_decide (zip_with Z.land nn m = zip_with Z.land ip m)
  end.

#[export] Instance ipv4_types : NetTypes := {|
  IP := list Z;
  IPNet := IPNet4;
|}.

#[export] Instance ipv4_net : NetLib := {|
  ParseCIDR := ParseCIDR4;
  Contains := Contains4;
|}.

(** ** Facts *)

Section masks.
Implicit Types (l : nat) (n : Z).

Lemma CIDRMask_bytes_length l n : length (CIDRMask_bytes l n) = l.
Proof.
  revert n; induction l as [|l IH]; intros n; simpl; [done|].
  case_match; simpl; by rewrite IH.
Qed.

Lemma land_255_byte z : byte (Z.land z 255).
Proof.
  unfold byte. change 255 with (Z.ones 8). rewrite Z.land_ones by lia.
  apply Z.mod_pos_bound. lia.
Qed.

Lemma CIDRMask_bytes_byte l n : Forall byte (CIDRMask_bytes l n).
Proof.
  revert n; induction l as [|l IH]; intros n; simpl; [done|].
  case_match; constructor; auto using land_255_byte. unfold byte; lia.
Qed.

Lemma land_byte a b : byte a → byte b → byte (Z.land a b).
Proof.
  intros _ Hb. replace b with (Z.land b 255).
  - rewrite Z.land_assoc. apply land_255_byte.
  - change 255 with (Z.ones 8). rewrite Z.land_ones by lia.
    apply Z.mod_small. apply Hb.
Qed.

Lemma mask_bytes_byte ip m : Forall byte ip → Forall byte m → Forall byte (mask_bytes ip m).
Proof.
  intros Hip. revert m; induction Hip as [|a ip Ha _ IH];
    intros [|b m] Hm; simpl; try done.
  apply Forall_cons in Hm as [Hb Hm].
  constructor; [by apply land_byte|by apply IH].
Qed.

Lemma mask_bytes_length ip m :
  length ip = length m → length (mask_bytes ip m) = length m.
Proof. intros Hlen. unfold mask_bytes. rewrite length_zip_with. lia. Qed.

(** Masking twice is masking once. *)
Lemma mask_bytes_idemp ip m : mask_bytes (mask_bytes ip m) m = mask_bytes ip m.
Proof.
  unfold mask_bytes. revert m; induction ip as [|a ip IH]; intros [|b m]; simpl;
    try done.
  by rewrite IH, <-Z.land_assoc, Z.land_diag.
Qed.

End masks.

Lemma CIDRMask_32 n :
  0 ≤ n ≤ 32 → CIDRMask n 32 = Some (CIDRMask_bytes 4 n).
Proof.
  intros Hn. unfold CIDRMask. simpl.
  destruct (Z.ltb_spec n 0), (Z.ltb_spec 32 n); simpl; done || lia.
Qed.

Example CIDRMask_ex_8 : CIDRMask 8 32 = Some [255; 0; 0; 0].
Proof. reflexivity. Qed.

Example CIDRMask_ex_20 : CIDRMask 20 32 = Some [255; 255; 240; 0].
Proof. reflexivity. Qed.

Example CIDRMask_ex_0 : CIDRMask 0 32 = Some [0; 0; 0; 0].
Proof. reflexivity. Qed.

Example CIDRMask_ex_33 : CIDRMask 33 32 = None.
Proof. reflexivity. Qed.

Example ParseCIDR_ex_10 :
  ParseCIDR "10.1.2.3/8" =
  Ok (IPv4 10 1 2 3, {| IPNet_IP := [10; 0; 0; 0]; IPNet_Mask := [255; 0; 0; 0] |}).
Proof. reflexivity. Qed.

Example ParseCIDR_ex_all :
  ParseCIDR "0.0.0.0/0" =
  Ok (IPv4 0 0 0 0, {| IPNet_IP := [0; 0; 0; 0]; IPNet_Mask := [0; 0; 0; 0] |}).
Proof. reflexivity. Qed.

Example ParseCIDR_ex_leading_zero :
  ParseCIDR "10.01.2.3/8" = Err "invalid CIDR address: 10.01.2.3/8".
Proof. reflexivity. Qed.

Example ParseCIDR_ex_no_slash :
  ParseCIDR "10.1.2.3" = Err "invalid CIDR address: 10.1.2.3".
Proof. reflexivity. Qed.

Example ParseCIDR_ex_long_prefix :
  ParseCIDR "10.1.2.3/33" = Err "invalid CIDR address: 10.1.2.3/33".
Proof. reflexivity. Qed.

Example ParseCIDR_ex_octet : is_Ok (ParseCIDR "10.256.2.3/8") = false.
Proof. reflexivity. Qed.

Example Contains_ex_in :
  Contains {| IPNet_IP := [10; 0; 0; 0]; IPNet_Mask := [255; 0; 0; 0] |}
    (IPv4 10 5 5 5) = true.
Proof. reflexivity. Qed.

Example Contains_ex_out :
  Contains {| IPNet_IP := [10; 0; 0; 0]; IPNet_Mask := [255; 0; 0; 0] |}
    (IPv4 198 51 100 1) = false.
Proof. reflexivity. Qed.

(** ** The network of a parsed prefix *)

Section parsed.
Implicit Types (s : string) (ip : list Z) (n : IPNet4).

Lemma parseIPv4_from_fields first prev_dot fields val digLen s ip :
  Forall byte fields → byte val → (length fields ≤ 3)%nat →
  parseIPv4_from first prev_dot fields val digLen s = Some ip →
  Forall byte ip ∧ length ip = 4%nat.
Proof.
  revert first prev_dot fields val digLen.
  induction s as [|c rest IH]; intros first prev_dot fields val digLen Hf Hv Hlen; simpl.
  - destruct (Nat.ltb_spec (length fields) 3); [done|]. intros [= <-].
    split; [by apply Forall_app; split; [|constructor]|].
    rewrite length_app. simpl. lia.
  - destruct (is_digit c) eqn:Hc.
    + destruct (_ && _); [done|].
      destruct (Z.ltb_spec 255 (val * 10 + digit_val c)); [done|].
      apply IH; [done| |done].
      apply digit_val_range in Hc. unfold byte in *. lia.
    + destruct (Ascii.eqb c "."); [|done].
      destruct (_ || _); [done|].
      destruct (Nat.eqb_spec (length fields) 3); [done|].
      apply IH; [by apply Forall_app; split; [|constructor]|unfold byte; lia|].
      rewrite length_app. simpl. lia.
Qed.

Lemma parseIPv4_bytes s ip :
  parseIPv4 s = Some ip → Forall byte ip ∧ length ip = 4%nat.
Proof.
  apply parseIPv4_from_fields; [done|unfold byte; lia|simpl; lia].
Qed.

(** What [ParseCIDR] returns: an address of sixteen bytes, a mask of four
    bytes made of [n] leading ones, and the address under that mask as the
    network number. *)
Lemma ParseCIDR4_Ok s ip n :
  ParseCIDR4 s = Ok (ip, n) →
  ∃ ip4 ones,
    ip = v4InV6Prefix ++ ip4 ∧ Forall byte ip4 ∧ length ip4 = 4%nat ∧
    0 ≤ ones ≤ 32 ∧
    IPNet_Mask n = CIDRMask_bytes 4 ones ∧
    IPNet_IP n = mask_bytes ip4 (IPNet_Mask n).
Proof.
  unfold ParseCIDR4, ParseAddr4. intros Hs.
  repeat case_match; simplify_eq/=.
  match goal with H : parseIPv4 _ = Some _ |- _ =>
    apply parseIPv4_bytes in H as [Hb Hl] end.
  match goal with H : _ || _ = false |- _ =>
    rewrite !orb_false_iff, !Z.ltb_ge in H; destruct H as [[_ ?] ?] end.
  match goal with H : CIDRMask _ _ = Some _ |- _ =>
    rewrite CIDRMask_32 in H by lia; injection H as <- end.
  eauto 10.
Qed.

Lemma To4_IPv4 ip4 :
  length ip4 = 4%nat → To4 (v4InV6Prefix ++ ip4) = Some ip4.
Proof.
  intros Hlen. unfold To4.
  rewrite decide_False by (rewrite length_app, Hlen; simpl; lia).
  rewrite decide_True; [done|].
  rewrite length_app, Hlen. split; [done|].
  by rewrite take_app_length' by done.
Qed.

Lemma To4_4 ip4 : length ip4 = 4%nat → To4 ip4 = Some ip4.
Proof. intros Hlen. unfold To4. by rewrite decide_True. Qed.

(** The network of a prefix contains the address of the prefix. *)
Lemma ParseCIDR4_Contains s ip n :
  ParseCIDR4 s = Ok (ip, n) → Contains4 n ip = true.
Proof.
  intros (ip4 & ones & -> & Hb & Hl & Hones & Hm & Hip)%ParseCIDR4_Ok.
  assert (length (IPNet_Mask n) = 4%nat) as Hml
    by (by rewrite Hm, CIDRMask_bytes_length).
  assert (length (IPNet_IP n) = 4%nat) as Hnl
    by (rewrite Hip, mask_bytes_length; congruence).
  unfold Contains4, networkNumberAndMask.
  rewrite (To4_4 (IPNet_IP n)), To4_IPv4 by done. simpl.
  rewrite decide_True by auto. rewrite decide_True by congruence.
  rewrite andb_true_iff, !bool_decide_eq_true. split; [congruence|].
  rewrite Hip. apply mask_bytes_idemp.
Qed.

End parsed.
