(* ===== verification/DnsName.v ===== *)
(** * Normalised names: an instance of [HostLib]

    [loadConfig] stores every record under [plugin.Host(name).Normalize()],
    a function of CoreDNS.  The specification describes its result as "a
    canonical fully-qualified lower-case form", insensitive to case and to
    the trailing separator; this file models it so, from the specification:
    the name is completed with a trailing dot when it has none ([Fqdn]) and
    lower-cased.  (CoreDNS's function also strips a transport prefix and a
    port, and [dns.Fqdn] counts the backslashes before a trailing dot;
    neither is modelled.)

    The theorems of [Loader] hold for every [HostLib]; the facts here are
    those the query path needs of normalisation: it is idempotent, and two
    spellings of a name that differ in case or in the trailing dot have the
    same normal form. *)

From Stdlib Require Import ZArith String Ascii List Lia.
From stdpp Require Import base tactics option list strings.
From S2P Require Import Prelude GoStrings Libs.

(** [dns.IsFqdn]: the name ends with a dot. *)
Definition IsFqdn (s : string) : bool := HasSuffix s ".".

(** [dns.Fqdn]: the name, with a dot appended when it has none. *)
Definition Fqdn (s : string) : string := if IsFqdn s then s else s +:+ ".".

(** The normal form of a name. *)
Definition Normalize_name (s : string) : string := ToLower (Fqdn s).

#[export] Instance dns_host : HostLib := {| Normalize := Normalize_name |}.

Section names.
Implicit Types s t : string.

Lemma IsFqdn_app_dot s : IsFqdn (s +:+ ".") = true.
Proof. apply HasSuffix_app. Qed.

Lemma IsFqdn_Fqdn s : IsFqdn (Fqdn s) = true.
Proof. unfold Fqdn. destruct (IsFqdn s) eqn:Hs; [done|apply IsFqdn_app_dot]. Qed.

Lemma Fqdn_idemp s : Fqdn (Fqdn s) = Fqdn s.
Proof. unfold Fqdn at 1. by rewrite IsFqdn_Fqdn. Qed.

(** Whether a name ends with a dot is decided by its last byte. *)
Lemma IsFqdn_single c : IsFqdn (String c "") = Ascii.eqb c ".".
Proof.
  unfold IsFqdn, HasSuffix. simpl. by destruct (Ascii.eqb c ".").
Qed.

Lemma IsFqdn_cons c d s : IsFqdn (String c (String d s)) = IsFqdn (String d s).
Proof.
  apply eq_true_iff_eq. unfold IsFqdn. rewrite !HasSuffix_spec. split.
  - intros [[|e t] Ht]; [done|].
    rewrite string_app_cons in Ht. injection Ht as -> Ht. eauto.
  - intros [t Ht]. exists (String c t). by rewrite string_app_cons, <-Ht.
Qed.

(** The trailing dot of a name does not depend on the case of the name. *)
Lemma IsFqdn_map f s :
  (∀ c, f c = "."%char ↔ c = "."%char) → IsFqdn (map_string f s) = IsFqdn s.
Proof.
  intros Hf. induction s as [|c s IH]; [done|]. destruct s as [|d s].
  - simpl. rewrite !IsFqdn_single.
    destruct (Ascii.eqb_spec (f c) "."), (Ascii.eqb_spec c "."); naive_solver.
  - change (map_string f (String c (String d s)))
      with (String (f c) (String (f d) (map_string f s))).
    by rewrite !IsFqdn_cons.
Qed.

Lemma lower_byte_dot c : lower_byte c = "."%char ↔ c = "."%char.
Proof. destruct c as [[][][][][][][][]]; vm_compute; split; congruence. Qed.

Lemma upper_byte_dot c : upper_byte c = "."%char ↔ c = "."%char.
Proof. destruct c as [[][][][][][][][]]; vm_compute; split; congruence. Qed.

Lemma IsFqdn_ToLower s : IsFqdn (ToLower s) = IsFqdn s.
Proof. apply IsFqdn_map, lower_byte_dot. Qed.

Lemma IsFqdn_ToUpper s : IsFqdn (ToUpper s) = IsFqdn s.
Proof. apply IsFqdn_map, upper_byte_dot. Qed.

Lemma Fqdn_ToLower s : Fqdn (ToLower s) = ToLower (Fqdn s).
Proof.
  unfold Fqdn. rewrite IsFqdn_ToLower. destruct (IsFqdn s); [done|].
  by rewrite ToLower_app.
Qed.

Lemma Fqdn_ToUpper s : Fqdn (ToUpper s) = ToUpper (Fqdn s).
Proof.
  unfold Fqdn. rewrite IsFqdn_ToUpper. destruct (IsFqdn s); [done|].
  by rewrite ToUpper_app.
Qed.

(** Normalisation is idempotent. *)
Lemma Normalize_name_idemp s : Normalize_name (Normalize_name s) = Normalize_name s.
Proof.
  unfold Normalize_name. by rewrite Fqdn_ToLower, Fqdn_idemp, ToLower_idemp.
Qed.

(** It forgets the case. *)
Lemma Normalize_name_ToUpper s : Normalize_name (ToUpper s) = Normalize_name s.
Proof. unfold Normalize_name. by rewrite Fqdn_ToUpper, ToLower_ToUpper. Qed.

Lemma Normalize_name_ToLower s : Normalize_name (ToLower s) = Normalize_name s.
Proof. unfold Normalize_name. by rewrite Fqdn_ToLower, ToLower_idemp. Qed.

(** It forgets whether the name was written with its trailing dot. *)
Lemma Normalize_name_dot s :
  IsFqdn s = false → Normalize_name (s +:+ ".") = Normalize_name s.
Proof.
  intros Hs. unfold Normalize_name, Fqdn. by rewrite IsFqdn_app_dot, Hs.
Qed.

(** Two names with the same lower-case form have the same normal form. *)
Lemma Normalize_name_fold s t :
  ToLower s = ToLower t → Normalize_name s = Normalize_name t.
Proof.
  intros Heq. by rewrite <-(Normalize_name_ToLower s), Heq, Normalize_name_ToLower.
Qed.

(** The spellings of a name: in any case, with or without the trailing dot. *)
Lemma Normalize_name_spelling n s :
  IsFqdn n = false →
  ToLower s = ToLower n ∨ ToLower s = ToLower (n +:+ ".") →
  Normalize_name s = Normalize_name n.
Proof.
  intros Hn [Hs|Hs]; apply Normalize_name_fold in Hs; rewrite Hs; [done|].
  by apply Normalize_name_dot.
Qed.

Lemma Normalize_name_query n :
  IsFqdn n = false → Normalize_name (ToUpper n +:+ ".") = Normalize_name n.
Proof.
  intros Hn. rewrite Normalize_name_dot by (by rewrite IsFqdn_ToUpper).
  apply Normalize_name_ToUpper.
Qed.

Lemma Normalize_name_IsFqdn s : IsFqdn (Normalize_name s) = true.
Proof. unfold Normalize_name. by rewrite IsFqdn_ToLower, IsFqdn_Fqdn. Qed.

End names.

Example Normalize_ex_plain : Normalize "www.Example.COM" = "www.example.com.".
Proof. reflexivity. Qed.

Example Normalize_ex_dot : Normalize "WWW.EXAMPLE.COM." = "www.example.com.".
Proof. reflexivity. Qed.

Example Normalize_ex_address : Normalize "10.1.2.3" = "10.1.2.3.".
Proof. reflexivity. Qed.

#[export] Hint Rewrite Normalize_name_idemp Normalize_name_ToUpper
  Normalize_name_ToLower : views.
