(* ===== verification/Samples.v ===== *)
(** * Instances and documents to run the definitions

    The examples and the witnesses of the development need libraries that
    compute and an outside to read.  This file gives them: an HTTP library
    whose URLs, requests and responses are strings, decoders that know a few
    documents by their text, the documents (the scenario of the
    specification among them), and worlds in which the sources are
    readable, missing, or damaged.  Nothing here models the source: the
    theorems are proved for every library and every document, those on
    the scenario apart, which are about its documents. *)

From Stdlib Require Import ZArith String Ascii List Lia.
From stdpp Require Import base tactics option list strings gmap.
From S2P Require Import Prelude GoStrings Libs Types Schema Netip DnsName.

(** ** Libraries *)

(** URLs and requests are their text; a response is its body. *)
#[export] Instance sample_http_types : HTTPTypes := {|
  URL := string;
  Request := string;
  Response := string;
|}.

#[export] Instance sample_http : HTTPLib := {|
  url_Parse s := if HasPrefix s "http" then Ok s else Err "unsupported scheme";
  URL_String u := u;
  http_NewRequest _ u := Ok u;
|}.

(** The error of a plugin, as CoreDNS words it. *)
#[export] Instance sample_plugin : PluginLib := {|
  plugin_Error name err := "plugin/" +:+ name +:+ ": " +:+ err;
|}.

(** A decoder that knows the documents of a table: the value of the document
    and the error of the decoder, if any; any other text is an error that
    leaves [*out] alone. *)
Definition decode_table {A} (table : list (bytes * (A * option error)))
    (data : bytes) (out : A) : A * option error :=
  default (out, Some "cannot unmarshal")
    ((λ d, d.2.2) <$> list_find (λ d, d.1 = data) table).

(** ** Documents *)

(** The client groups of the scenario of the specification. *)
Definition clients_doc : list RawClientACL :=
  [ {| RawClientACL_Name := "internal"; RawClientACL_CIDRPrefixes := ["10.0.0.0/8"] |};
    {| RawClientACL_Name := "external"; RawClientACL_CIDRPrefixes := ["0.0.0.0/0"] |} ].

(** The same groups with two prefixes [ParseCIDR] refuses. *)
Definition clients_doc_bad : list RawClientACL :=
  [ {| RawClientACL_Name := "internal";
       RawClientACL_CIDRPrefixes := ["10.0.0.0/33"; "10.0.0.0/8"] |};
    {| RawClientACL_Name := "lab"; RawClientACL_CIDRPrefixes := ["lab-network"] |};
    {| RawClientACL_Name := "external"; RawClientACL_CIDRPrefixes := ["0.0.0.0/0"] |} ].

Definition host_record (value : string) : RawRecordEntry :=
  {| RawRecordEntry_Name := "host.example.com"; RawRecordEntry_TTL := 300;
     RawRecordEntry_Type := "A"; RawRecordEntry_Value := value |}.

(** The record sets of the scenario of the specification. *)
Definition records_doc : list RawRecord :=
  [ {| RawRecord_Name := "internal"; RawRecord_Records := [host_record "10.1.2.3"] |};
    {| RawRecord_Name := "external"; RawRecord_Records := [host_record "203.0.113.9"] |} ].

(** A record set that names a host twice, in two spellings, and has a
    record of a type [loadConfig] does not know. *)
Definition records_doc_twice : list RawRecord :=
  [ {| RawRecord_Name := "internal";
       RawRecord_Records :=
         [ host_record "10.1.2.3";
           {| RawRecordEntry_Name := "HOST.example.com."; RawRecordEntry_TTL := 60;
              RawRecordEntry_Type := "aaaa"; RawRecordEntry_Value := "fd00::1" |};
           {| RawRecordEntry_Name := "mail.example.com"; RawRecordEntry_TTL := 60;
              RawRecordEntry_Type := "MX"; RawRecordEntry_Value := "mx.example.com" |} ] |} ].

#[export] Instance sample_client_decoder : Decoder (list RawClientACL) := {|
  yaml_Unmarshal := decode_table
    [ ("clients", (clients_doc, None));
      ("clients-bad", (clients_doc_bad, None));
      ("clients-cut", (take 1 clients_doc, Some "yaml: line 5: did not find expected key")) ];
  json_Unmarshal := decode_table [ ("clients", (clients_doc, None)) ];
|}.

#[export] Instance sample_record_decoder : Decoder (list RawRecord) := {|
  yaml_Unmarshal := decode_table
    [ ("records", (records_doc, None)); ("records-twice", (records_doc_twice, None)) ];
  json_Unmarshal := decode_table [ ("records", (records_doc, None)) ];
|}.

(** ** Worlds *)

(** A world from the files and the pages it holds: a missing file or page is
    an error of the read or of the request. *)
Definition world_of (files pages : gmap string bytes) : World := {|
  ReadFile name :=
    from_option Ok (Err ("open " +:+ name +:+ ": no such file or directory"))
      (files !! name);
  client_Do _ req :=
    from_option Ok (Err ("Get " +:+ req +:+ ": connection refused")) (pages !! req);
  ReadAll resp := Ok resp;
|}.

(** Both sources are there: the clients in a file, the records on a page. *)
Definition world_ok : World :=
  world_of {[ "clients.yaml" := "clients" ]} {[ "http://config/records" := "records" ]}.

(** Nothing is there. *)
Definition world_down : World := world_of ∅ ∅.

(** The client file was cut while being written. *)
Definition world_cut : World :=
  world_of {[ "clients.yaml" := "clients-cut" ]} {[ "http://config/records" := "records" ]}.

(** The client file has prefixes that are not prefixes. *)
Definition world_bad : World :=
  world_of {[ "clients.yaml" := "clients-bad" ]} {[ "http://config/records" := "records" ]}.

(** The settings [parse] makes of a Corefile that names these sources. *)
Definition settings_ex : Views := {|
  Views_ReloadInterval := 30 * Second;
  Views_Client := "clients.yaml";
  Views_Record := "http://config/records";
  Views_ClientSchema := "yaml";
  Views_RecordSchema := "http";
  Views_ClientACLs := [];
  Views_ClientZones := ∅;
|}.
