(* ===== verification/Corefile.v ===== *)
(** * [parse]: the plugin's block of the Corefile ([setup.go] l.77-134)

    [parse] walks the tokens of the plugin's directive with two nested loops,
    [for c.Next() { for c.NextBlock() { switch c.Val() ... } } ].  What the
    loops see of the [caddy.Controller] is, for each turn of the outer loop,
    the lines of a block, and of each line its first token [c.Val()] and the
    rest of the line [c.RemainingArgs()].  A [Controller] is that sequence.

    The local variables of [parse] are the fields of [ParseVars]; [err] is
    among them because the source tests it once more after the loops
    (l.118).  A turn of the inner loop is [parse_line]: it may go on with
    new variables, return an error, or panic, since [c.RemainingArgs()[0]]
    indexes a slice that is empty when the directive has no argument.

    The theorems: the settings [parse] returns are well formed (each schema
    is the one [schemaCheck] gives for its locator, nothing is loaded yet);
    [parse] depends on the lines only, not on how they are grouped in
    blocks; for each directive the last occurrence wins; the cases where it
    fails, with their messages; and the test of l.118 never fires. *)

From Stdlib Require Import ZArith String Ascii List Lia.
From stdpp Require Import base tactics option list strings gmap.
From S2P Require Import Prelude GoStrings Libs Types Schema Netip.

(** ** The controller *)

(** A line of a block: [c.Val()] and [c.RemainingArgs()]. *)
Record Line : Type := mkLine {
  Val : string;
  RemainingArgs : list string;
}.

#[global] Instance Line_eq_dec : EqDecision Line.
Proof. solve_decision. Defined.

(** The lines [c.NextBlock()] yields during one turn of [c.Next()]. *)
Definition Block : Type := list Line.

(** The blocks [c.Next()] yields. *)
Definition Controller : Type := list Block.

(** [defaultReloadInterval = 30 * time.Second] (l.73-75) *)
Definition defaultReloadInterval : Z := 30 * Second.

(** The message of the run-time panic of [s[0]] on an empty slice. *)
Definition index_out_of_range : string :=
  "runtime error: index out of range [0] with length 0".

(** [fmt.Errorf("unknown argument: %s", c.Val())] (l.113) *)
Definition unknown_argument (val : string) : error := "unknown argument: " +:+ val.

(** The errors of l.123 and l.125. *)
Definition missing_client : error := "required argument is missing: 'client'".
Definition missing_record : error := "required argument is missing: 'record'".

Section parse.
Context `{!SchemaConsts, !TimeLib, !NetTypes, !NetLib}.

(** The variables of [parse] (l.78-89): the five of the [var] block and the
    one field of [v] the loops assign. *)
Record ParseVars : Type := mkParseVars {
  pv_client : string;
  pv_clientSchema : string;
  pv_record : string;
  pv_recordSchema : string;
  pv_err : option error;
  pv_ReloadInterval : Z;
}.

(** The variables on entry to the loops: zero values, and the default
    interval of the literal of l.86-89. *)
Definition parse_init : ParseVars :=
  {| pv_client := ""; pv_clientSchema := ""; pv_record := "";
     pv_recordSchema := ""; pv_err := None;
     pv_ReloadInterval := defaultReloadInterval |}.

(** [case "client"] (l.94-99) *)
Definition parse_client (st : ParseVars) (args : list string) : outcome ParseVars :=
  match args with
  | [] => Panics index_out_of_range
  | client :: _ =>
      match schemaCheck client with
      | Err e => Returns (Err e)
      | Ok clientSchema =>
          Returns (Ok {| pv_client := client; pv_clientSchema := clientSchema;
                         pv_record := pv_record st;
                         pv_recordSchema := pv_recordSchema st;
                         pv_err := None;
                         pv_ReloadInterval := pv_ReloadInterval st |})
      end
  end.

(** [case "record"] (l.100-105) *)
Definition parse_record (st : ParseVars) (args : list string) : outcome ParseVars :=
  match args with
  | [] => Panics index_out_of_range
  | record :: _ =>
      match schemaCheck record with
      | Err e => Returns (Err e)
      | Ok recordSchema =>
          Returns (Ok {| pv_client := pv_client st;
                         pv_clientSchema := pv_clientSchema st;
                         pv_record := record; pv_recordSchema := recordSchema;
                         pv_err := None;
                         pv_ReloadInterval := pv_ReloadInterval st |})
      end
  end.

(** [case "reload"] (l.106-111).  [d, err := ...] declares a new [err]: the
    one of the [var] block is not assigned. *)
Definition parse_reload (st : ParseVars) (args : list string) : outcome ParseVars :=
  match args with
  | [] => Panics index_out_of_range
  | a :: _ =>
      match ParseDuration a with
      | Err e => Returns (Err e)
      | Ok d =>
          Returns (Ok {| pv_client := pv_client st;
                         pv_clientSchema := pv_clientSchema st;
                         pv_record := pv_record st;
                         pv_recordSchema := pv_recordSchema st;
                         pv_err := pv_err st;
                         pv_ReloadInterval := d |})
      end
  end.

(** The body of the inner loop: [switch c.Val()] (l.93-114). *)
Definition parse_line (st : ParseVars) (l : Line) : outcome ParseVars :=
  if String.eqb (Val l) "client" then parse_client st (RemainingArgs l)
  else if String.eqb (Val l) "record" then parse_record st (RemainingArgs l)
  else if String.eqb (Val l) "reload" then parse_reload st (RemainingArgs l)
  else Returns (Err (unknown_argument (Val l))).

(** [for c.NextBlock() { ... }] (l.92-115) *)
Definition parse_block (st : ParseVars) (b : Block) : outcome ParseVars :=
  foldM parse_line st b.

(** [for c.Next() { ... }] (l.91-116) *)
Definition parse_blocks (st : ParseVars) (c : Controller) : outcome ParseVars :=
  foldM parse_block st c.

(** What follows the loops (l.118-133). *)
Definition parse_finish (st : ParseVars) : outcome Views :=
  match pv_err st with
  | Some e => Returns (Err e)
  | None =>
      if String.eqb (pv_client st) "" then Returns (Err missing_client)
      else if String.eqb (pv_record st) "" then Returns (Err missing_record)
      else Returns (Ok {| Views_ReloadInterval := pv_ReloadInterval st;
                          Views_Client := pv_client st;
                          Views_Record := pv_record st;
                          Views_ClientSchema := pv_clientSchema st;
                          Views_RecordSchema := pv_recordSchema st;
                          Views_ClientACLs := [];
                          Views_ClientZones := ∅ |})
  end.

Definition parse (c : Controller) : outcome Views :=
  let! st := parse_blocks parse_init c in parse_finish st.

(** ** Well-formed settings *)

(** What [loadConfig] relies on: each schema is the one of its locator.  Its
    two [switch] statements have no [default], so a schema that is neither
    constant would read nothing. *)
Definition settings_wf (v : Views) : Prop :=
  schemaCheck (Views_Client v) = Ok (Views_ClientSchema v) ∧
  schemaCheck (Views_Record v) = Ok (Views_RecordSchema v) ∧
  int64 (Views_ReloadInterval v).

(** Nothing is loaded. *)
Definition unloaded (v : Views) : Prop :=
  Views_ClientACLs v = [] ∧ Views_ClientZones v = ∅.

#[global] Instance settings_wf_dec v : Decision (settings_wf v).
Proof. unfold settings_wf. apply _. Defined.

(** ** The specification of [parse]

    [parse] is described by three functions of the lines: the failure of the
    first line that fails, the first argument of the last line of each
    directive, and the settings made of those arguments. *)

(** How a line fails, [None] when it does not. *)
Definition line_failure (l : Line) : option failure :=
  if String.eqb (Val l) "client" || String.eqb (Val l) "record" then
    match RemainingArgs l with
    | [] => Some (FailPanic index_out_of_range)
    | a :: _ => FailErr <$> result_err (schemaCheck a)
    end
  else if String.eqb (Val l) "reload" then
    match RemainingArgs l with
    | [] => Some (FailPanic index_out_of_range)
    | a :: _ => FailErr <$> result_err (ParseDuration a)
    end
  else Some (FailErr (unknown_argument (Val l))).

(** The first argument of the last line of directive [d]. *)
Definition last_arg (d : string) (ls : list Line) : option string :=
  last (filter (λ l, Val l = d) ls) ≫= λ l, head (RemainingArgs l).

Definition schema_of (s : string) : string :=
  match schemaCheck s with Ok k => k | Err _ => "" end.

Definition duration_of (s : string) : Z :=
  match ParseDuration s with Ok d => d | Err _ => 0%Z end.

Definition parse_spec (c : Controller) : outcome Views :=
  let ls := concat c in
  match head (omap line_failure ls) with
  | Some f => fail_outcome f
  | None =>
      match last_arg "client" ls, last_arg "record" ls with
      | None, _ => Returns (Err missing_client)
      | Some _, None => Returns (Err missing_record)
      | Some client, Some record =>
          Returns (Ok {|
            Views_ReloadInterval :=
              from_option duration_of defaultReloadInterval (last_arg "reload" ls);
            Views_Client := client;
            Views_Record := record;
            Views_ClientSchema := schema_of client;
            Views_RecordSchema := schema_of record;
            Views_ClientACLs := [];
            Views_ClientZones := ∅ |})
      end
  end.

(** The effect of a line that does not fail. *)
Definition line_update (st : ParseVars) (l : Line) : ParseVars :=
  let a := hd "" (RemainingArgs l) in
  if String.eqb (Val l) "client" then
    {| pv_client := a; pv_clientSchema := schema_of a;
       pv_record := pv_record st; pv_recordSchema := pv_recordSchema st;
       pv_err := None; pv_ReloadInterval := pv_ReloadInterval st |}
  else if String.eqb (Val l) "record" then
    {| pv_client := pv_client st; pv_clientSchema := pv_clientSchema st;
       pv_record := a; pv_recordSchema := schema_of a;
       pv_err := None; pv_ReloadInterval := pv_ReloadInterval st |}
  else if String.eqb (Val l) "reload" then
    {| pv_client := pv_client st; pv_clientSchema := pv_clientSchema st;
       pv_record := pv_record st; pv_recordSchema := pv_recordSchema st;
       pv_err := pv_err st; pv_ReloadInterval := duration_of a |}
  else st.

(** The variables after lines that do not fail. *)
Definition vars_of (ls : list Line) : ParseVars :=
  let client := default "" (last_arg "client" ls) in
  let record := default "" (last_arg "record" ls) in
  {| pv_client := client; pv_clientSchema := schema_of client;
     pv_record := record; pv_recordSchema := schema_of record;
     pv_err := None;
     pv_ReloadInterval :=
       from_option duration_of defaultReloadInterval (last_arg "reload" ls) |}.

End parse.

(** ** The loops and the specification *)

Section parse_facts.
Context `{!SchemaConsts, !TimeLib, !NetTypes, !NetLib}.
Implicit Types (l : Line) (ls : list Line) (c : Controller) (st : ParseVars).

Lemma schema_of_Ok s k : schemaCheck s = Ok k → schema_of s = k.
Proof. unfold schema_of. by intros ->. Qed.

Lemma duration_of_Ok s d : ParseDuration s = Ok d → duration_of s = d.
Proof. unfold duration_of. by intros ->. Qed.

Lemma schema_of_empty : schema_of "" = "".
Proof. done. Qed.

(** A turn of the inner loop fails as [line_failure] says, and updates the
    variables as [line_update] says otherwise. *)
Lemma parse_line_decompose st l :
  parse_line st l = match line_failure l with
                    | Some x => fail_outcome x
                    | None => Returns (Ok (line_update st l))
                    end.
Proof.
  unfold parse_line, line_failure, line_update,
    parse_client, parse_record, parse_reload.
  destruct (String.eqb (Val l) "client"), (String.eqb (Val l) "record"),
    (String.eqb (Val l) "reload"); simpl; try done;
    destruct (RemainingArgs l) as [|a args]; simpl; try done;
    match goal with
    | |- context [match schemaCheck a with _ => _ end] =>
        destruct (schemaCheck a) eqn:Ha; simpl; [by rewrite (schema_of_Ok _ _ Ha)|done]
    | |- context [match ParseDuration a with _ => _ end] =>
        destruct (ParseDuration a) eqn:Ha; simpl; [by rewrite (duration_of_Ok _ _ Ha)|done]
    end.
Qed.

Lemma parse_blocks_decompose st c :
  parse_blocks st c = match head (omap line_failure (concat c)) with
                      | Some x => fail_outcome x
                      | None => Returns (Ok (foldl line_update st (concat c)))
                      end.
Proof.
  change (parse_blocks st c) with (foldM (foldM parse_line) st c).
  rewrite foldM_concat.
  apply foldM_decompose, parse_line_decompose.
Qed.

Lemma defaultReloadInterval_int64 : int64 defaultReloadInterval.
Proof. unfold int64, defaultReloadInterval, Second. lia. Qed.

Lemma last_arg_nil d : last_arg d [] = None.
Proof. done. Qed.

Lemma last_arg_snoc d ls l :
  last_arg d (ls ++ [l]) =
  if decide (Val l = d) then head (RemainingArgs l) else last_arg d ls.
Proof.
  unfold last_arg. rewrite filter_app, filter_cons, filter_nil.
  case_decide; [by rewrite last_snoc|by rewrite app_nil_r].
Qed.

Lemma last_arg_Some d ls a :
  last_arg d ls = Some a →
  ∃ l, l ∈ ls ∧ Val l = d ∧ head (RemainingArgs l) = Some a.
Proof.
  unfold last_arg. destruct (last _) as [l|] eqn:Hl; [|done].
  simpl. intros Ha. exists l.
  apply last_Some_elem_of, list_elem_of_filter in Hl. naive_solver.
Qed.

Lemma last_arg_None d ls :
  (∀ l, l ∈ ls → Val l ≠ d) → last_arg d ls = None.
Proof.
  intros Hd. unfold last_arg.
  destruct (last _) as [l|] eqn:Hl; [|done].
  apply last_Some_elem_of, list_elem_of_filter in Hl. naive_solver.
Qed.

Lemma last_arg_middle ls1 l ls2 :
  (∀ l', l' ∈ ls2 → Val l' ≠ Val l) →
  last_arg (Val l) (ls1 ++ l :: ls2) = head (RemainingArgs l).
Proof.
  intros Hls2. unfold last_arg.
  rewrite (last_filter_middle (λ l', Val l' = Val l)); [done..|].
  by apply Forall_forall.
Qed.

Lemma default_head (args : list string) : default "" (head args) = hd "" args.
Proof. by destruct args. Qed.

(** No line fails. *)
Definition lines_ok ls : Prop := Forall (λ l, line_failure l = None) ls.

Lemma head_omap_None ls : head (omap line_failure ls) = None ↔ lines_ok ls.
Proof.
  unfold lines_ok. induction ls as [|l ls IH]; simpl; [by split; constructor|].
  change (omap line_failure (l :: ls)) with
    (match line_failure l with Some y => y :: omap line_failure ls
     | None => omap line_failure ls end).
  rewrite Forall_cons. destruct (line_failure l); naive_solver.
Qed.

Lemma vars_of_snoc ls l :
  line_failure l = None → vars_of (ls ++ [l]) = line_update (vars_of ls) l.
Proof.
  intros Hl. unfold vars_of, line_update. rewrite !last_arg_snoc.
  destruct (String.eqb_spec (Val l) "client") as [->|?];
    [by rewrite !decide_True, default_head by done|].
  destruct (String.eqb_spec (Val l) "record") as [->|?];
    [by rewrite decide_False, decide_True, default_head by done|].
  destruct (String.eqb_spec (Val l) "reload") as [HVal|?].
  - rewrite !decide_False, decide_True by done. simpl.
    unfold line_failure in Hl. rewrite HVal in Hl. simpl in Hl.
    by destruct (RemainingArgs l).
  - by rewrite !decide_False by done.
Qed.

Lemma foldl_line_update ls :
  lines_ok ls → foldl line_update parse_init ls = vars_of ls.
Proof.
  induction ls as [|l ls IH] using rev_ind; [done|].
  unfold lines_ok in *. rewrite Forall_app, Forall_singleton. intros [Hls Hl].
  by rewrite foldl_snoc, IH, vars_of_snoc.
Qed.

(** [parse] as the first failure of a line, or else the end of [parse] on
    the variables the lines give. *)
Lemma parse_unfold c :
  parse c = match head (omap line_failure (concat c)) with
            | Some x => fail_outcome x
            | None => parse_finish (vars_of (concat c))
            end.
Proof.
  unfold parse. rewrite parse_blocks_decompose.
  destruct (head _) as [[]|] eqn:Hhead; [done..|].
  simpl. by rewrite foldl_line_update by by apply head_omap_None.
Qed.

Lemma head_omap_Some ls1 l ls2 x :
  lines_ok ls1 → line_failure l = Some x →
  head (omap line_failure (ls1 ++ l :: ls2)) = Some x.
Proof.
  intros Hok Hl. rewrite omap_app.
  apply head_omap_None in Hok. destruct (omap line_failure ls1); [|done].
  change (omap line_failure (l :: ls2)) with
    (match line_failure l with Some y => y :: omap line_failure ls2
     | None => omap line_failure ls2 end).
  by rewrite Hl.
Qed.

(** Among lines that do not fail, a directive's last argument is a locator
    [schemaCheck] accepts, or a duration [ParseDuration] accepts. *)
Lemma lines_ok_locator d ls a :
  lines_ok ls → d = "client" ∨ d = "record" → last_arg d ls = Some a →
  schemaCheck a = Ok (schema_of a).
Proof.
  intros Hok Hd (l & Hl & HVal & Ha)%last_arg_Some.
  eapply Forall_forall in Hok; [|done]. unfold line_failure in Hok.
  destruct (RemainingArgs l) as [|a' args]; simplify_eq/=.
  destruct Hd as [HVal|HVal]; rewrite HVal in Hok; simpl in Hok;
    destruct (schemaCheck a) eqn:Hs; simplify_eq/=; by rewrite (schema_of_Ok _ _ Hs).
Qed.

Lemma lines_ok_duration ls a :
  lines_ok ls → last_arg "reload" ls = Some a →
  ParseDuration a = Ok (duration_of a).
Proof.
  intros Hok (l & Hl & HVal & Ha)%last_arg_Some.
  eapply Forall_forall in Hok; [|done]. unfold line_failure in Hok.
  rewrite HVal in Hok. simpl in Hok.
  destruct (RemainingArgs l) as [|a' args]; simplify_eq/=.
  destruct (ParseDuration a) eqn:Hs; simplify_eq/=; by rewrite (duration_of_Ok _ _ Hs).
Qed.

Lemma lines_ok_no_arg d ls :
  lines_ok ls → d = "client" ∨ d = "record" → last_arg d ls = None →
  ∀ l, l ∈ ls → Val l ≠ d.
Proof.
  intros Hok Hd. unfold last_arg.
  destruct (last _) as [l|] eqn:Hlast; simpl.
  - apply last_Some_elem_of, list_elem_of_filter in Hlast as [HVal Hl].
    eapply Forall_forall in Hok; [|done]. unfold line_failure in Hok.
    destruct (RemainingArgs l); [|done].
    destruct Hd as [->| ->]; by rewrite HVal in Hok.
  - intros _ l Hl HVal. apply last_None in Hlast.
    assert (l ∈ filter (λ l, Val l = d) ls) as Hin by by apply list_elem_of_filter.
    rewrite Hlast in Hin. by apply not_elem_of_nil in Hin.
Qed.

(** The end of [parse] on the variables of lines that do not fail. *)
Lemma parse_finish_vars_of ls :
  lines_ok ls →
  parse_finish (vars_of ls) =
  match last_arg "client" ls, last_arg "record" ls with
  | None, _ => Returns (Err missing_client)
  | Some _, None => Returns (Err missing_record)
  | Some client, Some record =>
      Returns (Ok {|
        Views_ReloadInterval :=
          from_option duration_of defaultReloadInterval (last_arg "reload" ls);
        Views_Client := client;
        Views_Record := record;
        Views_ClientSchema := schema_of client;
        Views_RecordSchema := schema_of record;
        Views_ClientACLs := [];
        Views_ClientZones := ∅ |})
  end.
Proof.
  intros Hok. unfold parse_finish, vars_of. simpl.
  destruct (last_arg "client" ls) as [client|] eqn:Hc; [|done].
  apply lines_ok_locator in Hc as Hc'%schemaCheck_Ok_nonempty; [|by auto..].
  simpl. destruct (String.eqb_spec client ""); [done|].
  destruct (last_arg "record" ls) as [record|] eqn:Hr; [|done].
  apply lines_ok_locator in Hr as Hr'%schemaCheck_Ok_nonempty; [|by auto..].
  simpl. by destruct (String.eqb_spec record "").
Qed.

(** What [parse] returns is well formed and holds no configuration. *)
Lemma parse_Ok_wf c v :
  parse c = Returns (Ok v) → settings_wf v ∧ unloaded v.
Proof.
  rewrite parse_unfold.
  destruct (head _) as [[]|] eqn:Hok; [done..|]. apply head_omap_None in Hok.
  rewrite parse_finish_vars_of by done.
  destruct (last_arg "client" _) as [client|] eqn:Hc; [|done].
  destruct (last_arg "record" _) as [record|] eqn:Hr; [|done].
  intros [= <-]. split; [|done]. unfold settings_wf. simpl.
  split_and!; eauto using lines_ok_locator.
  destruct (last_arg "reload" _) as [a|] eqn:Ha; simpl;
    eauto using ParseDuration_int64, lines_ok_duration, defaultReloadInterval_int64.
Qed.

End parse_facts.

(** ** The properties of [parse] *)

Section parse_properties.
Context `{!SchemaConsts, !TimeLib, !NetTypes, !NetLib}.
Implicit Types (l : Line) (ls : list Line) (c : Controller) (v : Views).

(** C2. [parse] implements its specification: it fails as the first line
    that fails, and otherwise returns the settings made of the first
    argument of the last [client], [record] and [reload] lines, or the
    error of the missing directive. *)
Theorem parse_refines_spec c : parse c = parse_spec c.
Proof.
  rewrite parse_unfold. unfold parse_spec.
  destruct (head _) as [x|] eqn:Hhead; [done|].
  by apply parse_finish_vars_of, head_omap_None.
Qed.

(** C11. The settings [parse] returns are well formed: each schema is the
    one [schemaCheck] gives for its locator, the interval is an [int64],
    and the two loaded fields are empty. *)
Theorem parse_settings_wf c v :
  parse c = Returns (Ok v) → settings_wf v ∧ unloaded v.
Proof. apply parse_Ok_wf. Qed.

(** [parse] depends on the lines only: grouping them in other blocks,
    or in one, changes nothing. *)
Theorem parse_blocks_irrelevant c : parse c = parse [concat c].
Proof. rewrite !parse_unfold. simpl. by rewrite app_nil_r. Qed.

(** C39. The test [err != nil] after the loops (l.118) never fires: whenever
    the loops end, [err] is [nil]. *)
Theorem parse_err_test_dead c st :
  parse_blocks parse_init c = Returns (Ok st) → pv_err st = None.
Proof.
  rewrite parse_blocks_decompose.
  destruct (head _) as [[]|] eqn:Hok; [done..|]. apply head_omap_None in Hok.
  rewrite foldl_line_update by done. by intros [= <-].
Qed.

(** C32. [parse] fails as the first line that fails does, whatever follows
    it: with the error of [schemaCheck] or [time.ParseDuration], with
    ["unknown argument"], or with a panic. *)
Theorem parse_first_failure c ls1 l ls2 x :
  concat c = ls1 ++ l :: ls2 → lines_ok ls1 → line_failure l = Some x →
  parse c = fail_outcome x.
Proof.
  intros Hc Hok Hl. rewrite parse_unfold, Hc.
  by rewrite (head_omap_Some ls1 l ls2 x).
Qed.

(** C31. A [client], [record] or [reload] line with no argument makes
    [parse] panic (the index of l.95, l.101 and l.107 is out of range),
    unless a line before it fails. *)
Theorem parse_directive_without_argument_panics c ls1 l ls2 :
  concat c = ls1 ++ l :: ls2 → lines_ok ls1 →
  Val l ∈ ["client"; "record"; "reload"] → RemainingArgs l = [] →
  parse c = Panics index_out_of_range.
Proof.
  intros Hc Hok HVal Hargs. rewrite parse_unfold, Hc.
  rewrite (head_omap_Some ls1 l ls2 (FailPanic index_out_of_range)); [done..|].
  unfold line_failure. rewrite Hargs.
  set_unfold in HVal. by destruct HVal as [->|[->|[->|[]]]].
Qed.

(** Without a [reload] line the interval is the default, thirty
    seconds. *)
Theorem parse_default_interval c v :
  parse c = Returns (Ok v) → (∀ l, l ∈ concat c → Val l ≠ "reload") →
  Views_ReloadInterval v = (30 * Second)%Z.
Proof.
  rewrite parse_unfold. intros Hparse Hreload.
  destruct (head _) as [[]|] eqn:Hok; [done..|]. apply head_omap_None in Hok.
  rewrite parse_finish_vars_of, (last_arg_None "reload") in Hparse by done.
  repeat case_match; by simplify_eq.
Qed.

(** Of several [client] lines the last one decides the client source,
    and likewise for [record]: the argument of the last line of a
    directive is the locator [parse] returns. *)
Theorem parse_last_directive_wins c v ls1 l ls2 :
  parse c = Returns (Ok v) → concat c = ls1 ++ l :: ls2 →
  (∀ l', l' ∈ ls2 → Val l' ≠ Val l) →
  (Val l = "client" → head (RemainingArgs l) = Some (Views_Client v)) ∧
  (Val l = "record" → head (RemainingArgs l) = Some (Views_Record v)).
Proof.
  rewrite parse_unfold. intros Hparse Hc Hlast.
  destruct (head _) as [[]|] eqn:Hok; [done..|]. apply head_omap_None in Hok.
  rewrite parse_finish_vars_of in Hparse by done.
  assert (last_arg (Val l) (concat c) = head (RemainingArgs l)) as Hl
    by (rewrite Hc; by apply last_arg_middle).
  split; intros HVal; rewrite HVal in Hl; rewrite <-Hl;
    repeat case_match; by simplify_eq.
Qed.

(** When no line fails, [parse] refuses a block with no [client]
    line, and a block with a [client] line and no [record] line, each with
    the message of the missing directive. *)
Theorem parse_missing_directive c :
  lines_ok (concat c) →
  ((∀ l, l ∈ concat c → Val l ≠ "client") →
   parse c = Returns (Err missing_client)) ∧
  ((∃ l, l ∈ concat c ∧ Val l = "client") →
   (∀ l, l ∈ concat c → Val l ≠ "record") →
   parse c = Returns (Err missing_record)).
Proof.
  intros Hok. rewrite parse_unfold, (proj2 (head_omap_None _)) by done.
  rewrite parse_finish_vars_of by done. split.
  - intros Hnone. by rewrite (last_arg_None "client").
  - intros (l & Hl & HVal) Hnone. rewrite (last_arg_None "record") by done.
    destruct (last_arg "client" _) eqn:Hc; [done|].
    by destruct (lines_ok_no_arg "client" _ Hok (or_introl eq_refl) Hc l).
Qed.

End parse_properties.

(** ** Runs

    The examples and the witnesses run [parse] with the constants of
    [default_schemas], the durations of [sample_time] and the networks of
    [ipv4_net]. *)

Definition corefile_ex : Controller :=
  [[mkLine "client" ["/etc/coredns/clients.yaml"];
    mkLine "record" ["https://config.example/records"];
    mkLine "reload" ["10s"]]].

Definition views_ex : Views :=
  {| Views_ReloadInterval := 10 * Second;
     Views_Client := "/etc/coredns/clients.yaml";
     Views_Record := "https://config.example/records";
     Views_ClientSchema := "yaml";
     Views_RecordSchema := "http";
     Views_ClientACLs := [];
     Views_ClientZones := ∅ |}.

Example parse_ex : parse corefile_ex = Returns (Ok views_ex).
Proof. reflexivity. Qed.

Example parse_ex_twice :
  parse [[mkLine "client" ["a.yaml"]; mkLine "record" ["r.yml"]];
         [mkLine "client" ["http://b"]]]
  = Returns (Ok {| Views_ReloadInterval := 30 * Second;
                   Views_Client := "http://b"; Views_Record := "r.yml";
                   Views_ClientSchema := "http"; Views_RecordSchema := "yaml";
                   Views_ClientACLs := []; Views_ClientZones := ∅ |}).
Proof. reflexivity. Qed.

Example parse_ex_unknown :
  parse [[mkLine "client" ["a.yaml"]; mkLine "fallthrough" []]]
  = Returns (Err "unknown argument: fallthrough").
Proof. reflexivity. Qed.

Example parse_ex_schema :
  parse [[mkLine "client" ["clients.json"]]]
  = Returns (Err "unknown schema: clients.json").
Proof. reflexivity. Qed.

Example parse_ex_zero_interval :
  Views_ReloadInterval <$> result_to_option
    (match parse [[mkLine "client" ["a.yaml"]; mkLine "record" ["r.yml"];
                   mkLine "reload" ["0s"]]]
     with Returns r => r | Panics _ => Err "" end) = Some 0%Z.
Proof. reflexivity. Qed.

Lemma parse_settings_wf_witness : settings_wf views_ex ∧ unloaded views_ex.
Proof. apply (parse_settings_wf corefile_ex). reflexivity. Defined.

Lemma parse_err_test_dead_witness :
  pv_err {| pv_client := "a.yaml"; pv_clientSchema := "yaml"; pv_record := "";
            pv_recordSchema := ""; pv_err := None;
            pv_ReloadInterval := defaultReloadInterval |} = None.
Proof.
  apply (parse_err_test_dead [[mkLine "client" ["a.yaml"]]]). reflexivity.
Defined.

Lemma parse_first_failure_witness :
  parse [[mkLine "client" ["a.yaml"]; mkLine "reload" ["soon"]];
         [mkLine "record" ["r.yml"]]]
  = Returns (Err "time: invalid duration soon").
Proof.
  apply (parse_first_failure _ [mkLine "client" ["a.yaml"]]
           (mkLine "reload" ["soon"]) [mkLine "record" ["r.yml"]]
           (FailErr "time: invalid duration soon"));
    [reflexivity|by repeat constructor|reflexivity].
Defined.

Lemma parse_directive_without_argument_panics_witness :
  parse [[mkLine "record" ["r.yml"]; mkLine "client" []]]
  = Panics "runtime error: index out of range [0] with length 0".
Proof.
  apply (parse_directive_without_argument_panics _ [mkLine "record" ["r.yml"]]
           (mkLine "client" []) []);
    [reflexivity|by repeat constructor|set_solver|reflexivity].
Defined.

Lemma parse_default_interval_witness :
  Views_ReloadInterval
    {| Views_ReloadInterval := 30 * Second;
       Views_Client := "a.yaml"; Views_Record := "r.yml";
       Views_ClientSchema := "yaml"; Views_RecordSchema := "yaml";
       Views_ClientACLs := []; Views_ClientZones := ∅ |} = (30 * Second)%Z.
Proof.
  apply (parse_default_interval
           [[mkLine "client" ["a.yaml"]; mkLine "record" ["r.yml"]]]);
    [reflexivity|].
  intros l Hl. set_unfold in Hl. by destruct Hl as [->|[->|[]]].
Defined.

Lemma parse_last_directive_wins_witness :
  (Val (mkLine "client" ["http://b"]) = "client" →
   head (RemainingArgs (mkLine "client" ["http://b"])) = Some "http://b") ∧
  (Val (mkLine "client" ["http://b"]) = "record" →
   head (RemainingArgs (mkLine "client" ["http://b"])) = Some "r.yml").
Proof.
  apply (parse_last_directive_wins
           [[mkLine "client" ["a.yaml"]; mkLine "client" ["http://b"];
             mkLine "record" ["r.yml"]]]
           {| Views_ReloadInterval := 30 * Second;
              Views_Client := "http://b"; Views_Record := "r.yml";
              Views_ClientSchema := "http"; Views_RecordSchema := "yaml";
              Views_ClientACLs := []; Views_ClientZones := ∅ |}
           [mkLine "client" ["a.yaml"]] (mkLine "client" ["http://b"])
           [mkLine "record" ["r.yml"]]); [reflexivity..|].
  intros l Hl. set_unfold in Hl. by destruct Hl as [->|[]].
Defined.

Lemma parse_missing_directive_witness :
  ((∀ l, l ∈ concat [[mkLine "record" ["r.yml"]]] → Val l ≠ "client") →
   parse [[mkLine "record" ["r.yml"]]] = Returns (Err missing_client)) ∧
  ((∃ l, l ∈ concat [[mkLine "record" ["r.yml"]]] ∧ Val l = "client") →
   (∀ l, l ∈ concat [[mkLine "record" ["r.yml"]]] → Val l ≠ "record") →
   parse [[mkLine "record" ["r.yml"]]] = Returns (Err missing_record)).
Proof.
  apply (parse_missing_directive [[mkLine "record" ["r.yml"]]]).
  by repeat constructor.
Defined.
