(* ===== verification/Fetch.v ===== *)
(** * The fetchers: [parseFromYAML] and [parseFromHTTP] ([setup.go]
      l.239-288)

    [parseFromYAML] and [parseFromHTTP] read a document from the outside
    and decode it into [*out]; each returns the error of the first step
    that fails.  They are functions of a [World]; what they return is a
    [Fetch]: the value of [*out] after the call, the error, and the trace of
    the input and output done, in which the deferred [resp.Body.Close()]
    appears.  [fetch] is the [switch] on the schema by which [loadConfig]
    calls one or the other (l.161-166 and l.172-177).

    The theorems: the shapes of the trace; what a fetcher returns when its
    source cannot be read (the error, [*out] untouched) and when it can
    (what the decoder returns); and that a fetch with a schema of
    [schemaCheck] does not depend on the error it finds in [err]. *)

From Stdlib Require Import ZArith String Ascii List Lia.
From stdpp Require Import base tactics option list strings gmap.
From S2P Require Import Prelude GoStrings Libs Types Schema.

(** ** Fetching *)

Section fetch.
Context `{!HTTPTypes, !HTTPLib}.

(** What a fetcher does to the outside, in order. *)
Inductive IOEvent : Type :=
| IOReadFile (filename : string)
| IODo (timeout : Z) (req : Request)
| IOReadAll (resp : Response)
| IOClose (resp : Response).

(** What a fetcher leaves: [*out], the error returned, the trace. *)
Record Fetch (A : Type) : Type := mkFetch {
  fetch_out : A;
  fetch_err : option error;
  fetch_io : list IOEvent;
}.
Arguments mkFetch {A} _ _ _.
Arguments fetch_out {A} _.
Arguments fetch_err {A} _.
Arguments fetch_io {A} _.

(** [time.Duration(60) * time.Second] (l.269) *)
Definition http_timeout : Z := 60 * Second.

Context {A : Type} `{!Decoder A}.

(** [parseFromYAML] (l.239-251) *)
Definition parseFromYAML (w : World) (filename : string) (out : A) : Fetch A :=
  match ReadFile w filename with
  | Err e => mkFetch out (Some e) [IOReadFile filename]
  | Ok file =>
      let '(out', err) := yaml_Unmarshal file out in
      mkFetch out' err [IOReadFile filename]
  end.

(** [parseFromHTTP] (l.253-288).  [defer resp.Body.Close()] runs when the
    function returns, on each path after l.276. *)
Definition parseFromHTTP (w : World) (endpoint : string) (out : A) : Fetch A :=
  match url_Parse endpoint with
  | Err e => mkFetch out (Some e) []
  | Ok u =>
      match http_NewRequest MethodGet (URL_String u) with
      | Err e => mkFetch out (Some e) []
      | Ok req =>
          match client_Do w http_timeout req with
          | Err e => mkFetch out (Some e) [IODo http_timeout req]
          | Ok resp =>
              match ReadAll w resp with
              | Err e =>
                  mkFetch out (Some e)
                    [IODo http_timeout req; IOReadAll resp; IOClose resp]
              | Ok body =>
                  let '(out', err) := json_Unmarshal body out in
                  mkFetch out' err
                    [IODo http_timeout req; IOReadAll resp; IOClose resp]
              end
          end
      end
  end.

Context `{!SchemaConsts}.

(** [switch schema { case SchemaYAML: err = parseFromYAML(locator, &out)
    case SchemaHTTP: err = parseFromHTTP(locator, &out) }] (l.161-166 and
    l.172-177): with no [default], a schema that is neither constant reads
    nothing and leaves [err] as it was. *)
Definition fetch (w : World) (schema locator : string) (out : A)
    (err : option error) : Fetch A :=
  if String.eqb schema SchemaYAML then parseFromYAML w locator out
  else if String.eqb schema SchemaHTTP then parseFromHTTP w locator out
  else mkFetch out err [].

End fetch.

Arguments mkFetch {_ A} _ _ _.
Arguments fetch_out {_ A} _.
Arguments fetch_err {_ A} _.
Arguments fetch_io {_ A} _.

(** ** The fetchers *)

Section fetch_facts.
Context `{!HTTPTypes, !HTTPLib, !SchemaConsts} {A : Type} `{!Decoder A}.
Implicit Types (w : World) (out : A) (err : option error).

(** The shapes of the trace of a fetcher: nothing, a file read, a request
    that failed, or a request, the read of its response and its close. *)
Inductive trace_ok : list IOEvent → Prop :=
| trace_nil : trace_ok []
| trace_file filename : trace_ok [IOReadFile filename]
| trace_refused req : trace_ok [IODo http_timeout req]
| trace_closed req resp :
    trace_ok [IODo http_timeout req; IOReadAll resp; IOClose resp].

Lemma parseFromYAML_trace w filename out :
  fetch_io (parseFromYAML w filename out) = [IOReadFile filename].
Proof. unfold parseFromYAML. by repeat case_match. Qed.

Lemma parseFromHTTP_trace w endpoint out :
  trace_ok (fetch_io (parseFromHTTP w endpoint out)).
Proof. unfold parseFromHTTP. repeat case_match; simpl; constructor. Qed.

Lemma fetch_trace w schema locator out err :
  trace_ok (fetch_io (fetch w schema locator out err)).
Proof.
  unfold fetch. repeat case_match; simpl;
    rewrite ?parseFromYAML_trace; auto using parseFromHTTP_trace, trace_ok.
Qed.

(** [parseFromYAML] when the file cannot be read. *)
Lemma parseFromYAML_unreadable w filename out e :
  ReadFile w filename = Err e →
  parseFromYAML w filename out = mkFetch out (Some e) [IOReadFile filename].
Proof. unfold parseFromYAML. by intros ->. Qed.

(** [parseFromYAML] when the file is read: the decoder decides. *)
Lemma parseFromYAML_read w filename out file :
  ReadFile w filename = Ok file →
  parseFromYAML w filename out =
  mkFetch (yaml_Unmarshal file out).1 (yaml_Unmarshal file out).2
    [IOReadFile filename].
Proof. unfold parseFromYAML. intros ->. by destruct (yaml_Unmarshal file out). Qed.

(** The body of an HTTP source, or the error of the step that fails before
    the decoder. *)
Definition http_body w (endpoint : string) : result bytes :=
  let? u := url_Parse endpoint in
  let? req := http_NewRequest MethodGet (URL_String u) in
  let? resp := client_Do w http_timeout req in
  ReadAll w resp.

Lemma parseFromHTTP_unreachable w endpoint out e :
  http_body w endpoint = Err e →
  fetch_out (parseFromHTTP w endpoint out) = out ∧
  fetch_err (parseFromHTTP w endpoint out) = Some e.
Proof.
  unfold http_body, parseFromHTTP.
  destruct (url_Parse endpoint) as [u|]; simpl; [|naive_solver].
  destruct (http_NewRequest _ _) as [req|]; simpl; [|naive_solver].
  destruct (client_Do _ _ _) as [resp|]; simpl; [|naive_solver].
  destruct (ReadAll _ _); naive_solver.
Qed.

Lemma parseFromHTTP_read w endpoint out body :
  http_body w endpoint = Ok body →
  fetch_out (parseFromHTTP w endpoint out) = (json_Unmarshal body out).1 ∧
  fetch_err (parseFromHTTP w endpoint out) = (json_Unmarshal body out).2.
Proof.
  unfold http_body, parseFromHTTP.
  destruct (url_Parse endpoint) as [u|]; simpl; [|done].
  destruct (http_NewRequest _ _) as [req|]; simpl; [|done].
  destruct (client_Do _ _ _) as [resp|]; simpl; [|done].
  destruct (ReadAll _ _); simpl; [|done]. intros [= ->].
  by destruct (json_Unmarshal body out).
Qed.

(** A source that cannot be read, by its schema. *)
Definition unreachable w (schema locator : string) (e : error) : Prop :=
  (schema = SchemaYAML ∧ ReadFile w locator = Err e) ∨
  (schema = SchemaHTTP ∧ http_body w locator = Err e).

Lemma fetch_YAML w locator out err :
  fetch w SchemaYAML locator out err = parseFromYAML w locator out.
Proof. unfold fetch. by rewrite String.eqb_refl. Qed.

Lemma fetch_HTTP w locator out err :
  fetch w SchemaHTTP locator out err = parseFromHTTP w locator out.
Proof.
  unfold fetch. rewrite String.eqb_refl.
  destruct (String.eqb_spec SchemaHTTP SchemaYAML) as [Heq|]; [|done].
  by destruct Schema_distinct.
Qed.

Lemma fetch_other w schema locator out err :
  schema ≠ SchemaYAML → schema ≠ SchemaHTTP →
  fetch w schema locator out err = mkFetch out err [].
Proof.
  intros Hy Hh. unfold fetch.
  destruct (String.eqb_spec schema SchemaYAML); [done|].
  by destruct (String.eqb_spec schema SchemaHTTP).
Qed.

(** An unreachable source leaves [*out] as it was and returns the error. *)
Lemma fetch_unreachable w schema locator out err e :
  unreachable w schema locator e →
  fetch_out (fetch w schema locator out err) = out ∧
  fetch_err (fetch w schema locator out err) = Some e.
Proof.
  intros [[-> Hread]|[-> Hbody]].
  - by rewrite fetch_YAML, (parseFromYAML_unreadable _ _ _ e).
  - rewrite fetch_HTTP. by apply parseFromHTTP_unreachable.
Qed.

(** With a schema [schemaCheck] returns, the fetch does not read [err]. *)
Lemma fetch_err_irrelevant w schema locator out err err' :
  schemaCheck locator = Ok schema →
  fetch w schema locator out err = fetch w schema locator out err'.
Proof.
  intros [->| ->]%schemaCheck_Ok_inv; by rewrite ?fetch_YAML, ?fetch_HTTP.
Qed.

End fetch_facts.
