(* ===== verification/Build.v ===== *)
(** * The loops of [loadConfig] ([setup.go] l.182-236)

    Every loop of [loadConfig] is the left fold of its body, and the body
    is a definition of its own: [cidr_step] (l.186-194), [client_step]
    (l.184-200), [zone_step] (l.209-233), [record_step] (l.203-236).

    The lemmas give the value each loop builds as a function of the raw
    document: one group per raw client with the networks of its valid
    prefixes in order ([acl_of]) and one warning per prefix refused
    ([cidr_warnings]); one record set per name, the last one of a name
    winning; in a record set the last record of a normalised name winning;
    and the invariant of a record set ([Zones_wf]). *)

From Stdlib Require Import ZArith String Ascii List Lia.
From stdpp Require Import base tactics option list strings gmap.
From S2P Require Import Prelude GoStrings Libs Types.

(** The message of [log.Warningf("invalid CIDR address: %s (%s)",
    client.Name, cidr)] (l.189). *)
Definition cidr_warning (name cidr : string) : string :=
  "invalid CIDR address: " +:+ name +:+ " (" +:+ cidr +:+ ")".

Section build.
Context `{!DNSConsts, !NetTypes, !NetLib, !HostLib}.

(** The body of the loop over the prefixes of a client (l.186-194): the
    networks so far and the log. *)
Definition cidr_step (name : string) (st : list IPNet * Log) (cidr : string)
    : list IPNet * Log :=
  match ParseCIDR cidr with
  | Err _ => (st.1, st.2 ++ [LogWarning (cidr_warning name cidr)])
  | Ok (_, cidrNet) => (st.1 ++ [cidrNet], st.2)
  end.

(** The body of the loop over the raw clients (l.184-200): [v.ClientACLs]
    so far and the log. *)
Definition client_step (st : list ClientACL * Log) (client : RawClientACL)
    : list ClientACL * Log :=
  let '(cidrNets, log) :=
    foldl (cidr_step (RawClientACL_Name client)) ([], st.2)
      (RawClientACL_CIDRPrefixes client) in
  (st.1 ++ [{| ClientACL_Name := RawClientACL_Name client;
               ClientACL_CIDRNets := cidrNets |}], log).

(** [v.ClientACLs = []*ClientACL{}] and the loop (l.182-200). *)
Definition build_ClientACLs (rawClients : list RawClientACL) (log : Log)
    : list ClientACL * Log :=
  foldl client_step ([], log) rawClients.

(** [switch t] on the upper-cased type (l.211-222); [rrtype] keeps its zero
    value when no case matches. *)
Definition rrtype_of (t : string) : Z :=
  if String.eqb t "A" then TypeA
  else if String.eqb t "AAAA" then TypeAAAA
  else if String.eqb t "CNAME" then TypeCNAME
  else if String.eqb t "TXT" then TypeTXT
  else 0%Z.

(** The record made of a raw record (l.210-229). *)
Definition make_Zone (rawRecord : RawRecordEntry) : Zone :=
  let t := ToUpper (RawRecordEntry_Type rawRecord) in
  let rrtype := rrtype_of t in
  {| Zone_Name := Normalize (RawRecordEntry_Name rawRecord);
     Zone_TTL := RawRecordEntry_TTL rawRecord;
     Zone_Type := rrtype;
     Zone_Value := Normalize (RawRecordEntry_Value rawRecord) |}.

(** The body of the loop over the records of a set (l.209-233). *)
Definition zone_step (zones : Zones) (rawRecord : RawRecordEntry) : Zones :=
  let rr := make_Zone rawRecord in
  {| Zones_Names := Zones_Names zones ++ [Zone_Name rr];
     Zones_Z := <[Zone_Name rr := rr]> (Zones_Z zones) |}.

(** The record set made of a raw one (l.204-233). *)
Definition build_Zones (r : RawRecord) : Zones :=
  foldl zone_step {| Zones_Names := []; Zones_Z := ∅ |} (RawRecord_Records r).

(** The body of the loop over the raw record sets (l.203-236). *)
Definition record_step (m : gmap string Zones) (r : RawRecord) : gmap string Zones :=
  <[RawRecord_Name r := build_Zones r]> m.

(** [v.ClientZones = make(map[string]Zones)] and the loop (l.202-236). *)
Definition build_ClientZones (rawRecords : list RawRecord) : gmap string Zones :=
  foldl record_step ∅ rawRecords.

End build.

(** ** What the loops build: the client groups *)

Section acls.
Context `{!NetTypes, !NetLib}.
Implicit Types (client : RawClientACL) (log : Log) (cidr name : string).

(** The network of a prefix, when [ParseCIDR] accepts it. *)
Definition net_of (cidr : string) : option IPNet :=
  snd <$> result_to_option (ParseCIDR cidr).

(** The networks of the prefixes [ParseCIDR] accepts, in order. *)
Definition valid_nets (prefixes : list string) : list IPNet :=
  omap net_of prefixes.

(** The prefixes [ParseCIDR] refuses, in order. *)
Definition invalid_prefixes (prefixes : list string) : list string :=
  filter (λ cidr, net_of cidr = None) prefixes.

(** The group of a raw client. *)
Definition acl_of client : ClientACL :=
  {| ClientACL_Name := RawClientACL_Name client;
     ClientACL_CIDRNets := valid_nets (RawClientACL_CIDRPrefixes client) |}.

(** The warnings of a raw client: one for each prefix refused. *)
Definition cidr_warnings client : Log :=
  (λ cidr, LogWarning (cidr_warning (RawClientACL_Name client) cidr))
    <$> invalid_prefixes (RawClientACL_CIDRPrefixes client).

Lemma cidr_step_Ok name st cidr n :
  net_of cidr = Some n → cidr_step name st cidr = (st.1 ++ [n], st.2).
Proof.
  unfold net_of, cidr_step. destruct (ParseCIDR cidr) as [[ip n']|e]; [|done].
  by intros [= ->].
Qed.

Lemma cidr_step_Err name st cidr :
  net_of cidr = None →
  cidr_step name st cidr = (st.1, st.2 ++ [LogWarning (cidr_warning name cidr)]).
Proof.
  unfold net_of, cidr_step. by destruct (ParseCIDR cidr) as [[ip n']|e].
Qed.

Lemma valid_nets_snoc prefixes cidr :
  valid_nets (prefixes ++ [cidr]) = valid_nets prefixes ++ option_list (net_of cidr).
Proof.
  unfold valid_nets. rewrite omap_app.
  change (omap net_of [cidr]) with
    (match net_of cidr with Some n => [n] | None => [] end).
  by destruct (net_of cidr).
Qed.

Lemma invalid_prefixes_snoc prefixes cidr :
  invalid_prefixes (prefixes ++ [cidr]) =
  invalid_prefixes prefixes ++ (if net_of cidr is Some _ then [] else [cidr]).
Proof.
  unfold invalid_prefixes. rewrite filter_app, filter_cons, filter_nil.
  by destruct (net_of cidr).
Qed.

(** The inner loop: the networks accepted are appended in order, and one
    warning is logged for each prefix refused. *)
Lemma foldl_cidr_step name nets log prefixes :
  foldl (cidr_step name) (nets, log) prefixes =
  (nets ++ valid_nets prefixes,
   log ++ ((λ cidr, LogWarning (cidr_warning name cidr)) <$> invalid_prefixes prefixes)).
Proof.
  induction prefixes as [|cidr prefixes IH] using rev_ind.
  - by rewrite !app_nil_r.
  - rewrite foldl_snoc, IH, valid_nets_snoc, invalid_prefixes_snoc.
    destruct (net_of cidr) as [n|] eqn:Hn.
    + rewrite (cidr_step_Ok _ _ _ n) by done. simpl.
      by rewrite !app_nil_r, <-app_assoc.
    + rewrite cidr_step_Err by done. simpl.
      by rewrite app_nil_r, fmap_app, <-app_assoc.
Qed.

Lemma client_step_spec (st : list ClientACL * Log) client :
  client_step st client = (st.1 ++ [acl_of client], st.2 ++ cidr_warnings client).
Proof. unfold client_step. by rewrite foldl_cidr_step. Qed.

Lemma foldl_client_step (acls : list ClientACL) log rawClients :
  foldl client_step (acls, log) rawClients =
  (acls ++ (acl_of <$> rawClients), log ++ (rawClients ≫= cidr_warnings)).
Proof.
  induction rawClients as [|client rawClients IH] using rev_ind.
  - by rewrite !app_nil_r.
  - rewrite foldl_snoc, IH, client_step_spec. simpl.
    by rewrite fmap_app, bind_app, bind_singleton, <-!app_assoc.
Qed.

Lemma build_ClientACLs_spec rawClients log :
  build_ClientACLs rawClients log =
  (acl_of <$> rawClients, log ++ (rawClients ≫= cidr_warnings)).
Proof. unfold build_ClientACLs. by rewrite foldl_client_step. Qed.

Lemma valid_nets_app ps1 ps2 : valid_nets (ps1 ++ ps2) = valid_nets ps1 ++ valid_nets ps2.
Proof. apply omap_app. Qed.

Lemma valid_nets_invalid cidr : net_of cidr = None → valid_nets [cidr] = [].
Proof. unfold valid_nets. simpl. by intros ->. Qed.

Lemma valid_nets_skip ps1 cidr ps2 :
  net_of cidr = None → valid_nets (ps1 ++ cidr :: ps2) = valid_nets (ps1 ++ ps2).
Proof.
  intros Hcidr. change (cidr :: ps2) with ([cidr] ++ ps2).
  by rewrite !valid_nets_app, valid_nets_invalid.
Qed.

Lemma valid_nets_length prefixes :
  length (valid_nets prefixes) + length (invalid_prefixes prefixes) = length prefixes.
Proof. apply omap_length_filter. Qed.

End acls.

(** ** What the loops build: the record sets *)

Section zones.
Context `{!DNSConsts, !HostLib}.
Implicit Types (e : RawRecordEntry) (r : RawRecord) (zones : Zones) (n : string).

(** The name a raw record is stored under. *)
Definition zone_key e : string := Normalize (RawRecordEntry_Name e).

(** The record types [loadConfig] knows, and the zero value of the others. *)
Definition known_types : list Z := [TypeA; TypeAAAA; TypeCNAME; TypeTXT].

(** The invariant of a record set: the names listed are the names stored,
    and a record is stored under its own name. *)
Definition Zones_wf zones : Prop :=
  (∀ n, n ∈ Zones_Names zones ↔ is_Some (Zones_Z zones !! n)) ∧
  (∀ n z, Zones_Z zones !! n = Some z → Zone_Name z = n).

(** A record has a [uint32] lifetime and a type [loadConfig] assigns. *)
Definition Zone_wf (z : Zone) : Prop :=
  uint32 (Zone_TTL z) ∧ Zone_Type z ∈ (0%Z :: known_types).

Lemma make_Zone_Name e : Zone_Name (make_Zone e) = zone_key e.
Proof. done. Qed.

Lemma zone_step_Names zones e :
  Zones_Names (zone_step zones e) = Zones_Names zones ++ [zone_key e].
Proof. done. Qed.

Lemma zone_step_Z zones e :
  Zones_Z (zone_step zones e) = assign zone_key make_Zone (Zones_Z zones) e.
Proof. done. Qed.

(** The loop over the records, field by field. *)
Lemma foldl_zone_step zones (es : list RawRecordEntry) :
  foldl zone_step zones es =
  {| Zones_Names := Zones_Names zones ++ (zone_key <$> es);
     Zones_Z := foldl (assign zone_key make_Zone) (Zones_Z zones) es |}.
Proof.
  revert zones; induction es as [|e es IH]; intros zones; simpl.
  - rewrite app_nil_r. by destruct zones.
  - rewrite IH, zone_step_Names, zone_step_Z. by rewrite <-app_assoc.
Qed.

Lemma build_Zones_Names r :
  Zones_Names (build_Zones r) = zone_key <$> RawRecord_Records r.
Proof. unfold build_Zones. by rewrite foldl_zone_step. Qed.

Lemma build_Zones_Z r :
  Zones_Z (build_Zones r) =
  foldl (assign zone_key make_Zone) ∅ (RawRecord_Records r).
Proof. unfold build_Zones. by rewrite foldl_zone_step. Qed.

Lemma build_Zones_lookup r n :
  Zones_Z (build_Zones r) !! n =
  make_Zone <$> last (filter (λ e, zone_key e = n) (RawRecord_Records r)).
Proof.
  rewrite build_Zones_Z, foldl_assign_lookup.
  by destruct (last _).
Qed.

Lemma build_Zones_dom r :
  dom (Zones_Z (build_Zones r)) = list_to_set (Zones_Names (build_Zones r)).
Proof.
  rewrite build_Zones_Z, build_Zones_Names, foldl_assign_dom. set_solver.
Qed.

Lemma build_Zones_wf r : Zones_wf (build_Zones r).
Proof.
  split.
  - intros n. by rewrite <-elem_of_dom, build_Zones_dom, elem_of_list_to_set.
  - intros n z. rewrite build_Zones_lookup.
    destruct (last _) as [e|] eqn:Hlast; [|done]. intros [= <-].
    by apply last_Some_elem_of, list_elem_of_filter in Hlast as [? _].
Qed.

(** The record types. *)
Lemma rrtype_of_known t : rrtype_of t ∈ (0%Z :: known_types).
Proof. unfold rrtype_of, known_types. repeat case_match; set_solver. Qed.

Lemma rrtype_of_uint16 t : uint16 (rrtype_of t).
Proof.
  pose proof DNSTypes_uint16 as Hall. pose proof (rrtype_of_known t) as Hin.
  apply elem_of_cons in Hin as [->|Hin]; [done|].
  by eapply Forall_forall in Hall.
Qed.

Lemma rrtype_of_cases t :
  (t = "A" ∧ rrtype_of t = TypeA) ∨ (t = "AAAA" ∧ rrtype_of t = TypeAAAA) ∨
  (t = "CNAME" ∧ rrtype_of t = TypeCNAME) ∨ (t = "TXT" ∧ rrtype_of t = TypeTXT) ∨
  ((t ∉ ["A"; "AAAA"; "CNAME"; "TXT"]) ∧ rrtype_of t = 0%Z).
Proof.
  unfold rrtype_of.
  destruct (String.eqb_spec t "A"); [by auto|].
  destruct (String.eqb_spec t "AAAA"); [by auto|].
  destruct (String.eqb_spec t "CNAME"); [by auto 6|].
  destruct (String.eqb_spec t "TXT"); [by auto 6|].
  do 4 right. split; [set_solver|done].
Qed.

(** Each case of the [switch] gives its own type: the constants differ. *)
Lemma rrtype_of_iff t :
  (rrtype_of t = TypeA ↔ t = "A") ∧ (rrtype_of t = TypeAAAA ↔ t = "AAAA") ∧
  (rrtype_of t = TypeCNAME ↔ t = "CNAME") ∧ (rrtype_of t = TypeTXT ↔ t = "TXT").
Proof.
  pose proof DNSTypes_NoDup as Hd. repeat (apply NoDup_cons in Hd as [? Hd]).
  destruct (rrtype_of_cases t) as [[-> ->]|[[-> ->]|[[-> ->]|[[-> ->]|[Ht ->]]]]];
    split_and!; split; try done; intros; set_solver.
Qed.

Lemma rrtype_of_zero t : rrtype_of t = 0%Z ↔ t ∉ ["A"; "AAAA"; "CNAME"; "TXT"].
Proof.
  pose proof (DNSTypes_nonzero TypeA). pose proof (DNSTypes_nonzero TypeAAAA).
  pose proof (DNSTypes_nonzero TypeCNAME). pose proof (DNSTypes_nonzero TypeTXT).
  destruct (rrtype_of_cases t) as [[-> ->]|[[-> ->]|[[-> ->]|[[-> ->]|[? ->]]]]];
    set_solver.
Qed.

Lemma make_Zone_wf e : RawRecordEntry_wf e → Zone_wf (make_Zone e).
Proof. intros He. split; [done|apply rrtype_of_known]. Qed.

(** The record sets by name. *)
Lemma build_ClientZones_lookup (rawRecords : list RawRecord) n :
  build_ClientZones rawRecords !! n =
  build_Zones <$> last (filter (λ r, RawRecord_Name r = n) rawRecords).
Proof.
  unfold build_ClientZones.
  change record_step with (assign RawRecord_Name build_Zones).
  rewrite foldl_assign_lookup. by destruct (last _).
Qed.

Lemma build_ClientZones_dom (rawRecords : list RawRecord) :
  dom (build_ClientZones rawRecords) = list_to_set (RawRecord_Name <$> rawRecords).
Proof.
  unfold build_ClientZones.
  change record_step with (assign RawRecord_Name build_Zones).
  rewrite foldl_assign_dom. set_solver.
Qed.

End zones.
