(* ===== verification/Loader.v ===== *)
(** * [loadConfig] ([setup.go] l.154-237)

    [loadConfig] fetches the two documents (with the fetchers of [Fetch]),
    logs the errors, and rebuilds the two loaded fields of the plugin (with
    the loops of [Build]).  It returns the plugin after the call, the
    entries logged and the trace.

    The outside is taken not to change during one call of [loadConfig]; it
    may change between two calls, which then get two worlds.

    The theorems: [loadConfig] refines its specification [load_spec]; the
    entries logged; the behaviour on each failure of a fetch; the
    invariant and the bounds of the record sets; the discipline of the
    trace; and the properties of the loops a client of the plugin relies
    on. *)

From Stdlib Require Import ZArith String Ascii List Lia.
From stdpp Require Import base tactics option list strings gmap.
From S2P Require Import Prelude GoStrings Libs Types Schema Netip DnsName Samples Corefile Fetch Build.

(** [if err != nil { log.Error(err) }] (l.168-170 and l.178-180) *)
Definition log_err (err : option error) : Log :=
  match err with
  | Some e => [LogError e]
  | None => []
  end.

(** ** [loadConfig] *)

Section loadConfig.
Context `{!SchemaConsts, !DNSConsts, !NetTypes, !NetLib, !HostLib, !HTTPTypes, !HTTPLib}.
Context `{!Decoder (list RawClientACL), !Decoder (list RawRecord)}.

(** What a call of [loadConfig] leaves: the plugin, the entries logged and
    the trace. *)
Record Loaded : Type := mkLoaded {
  loaded_views : Views;
  loaded_log : Log;
  loaded_io : list IOEvent;
}.

(** [loadConfig] (l.154-237).  [err] is one variable: the second [switch]
    assigns it again, and the second test logs whatever it holds. *)
Definition loadConfig (w : World) (v : Views) : Loaded :=
  let clients := fetch w (Views_ClientSchema v) (Views_Client v) [] None in
  let err := fetch_err clients in
  let log := log_err err in
  let records := fetch w (Views_RecordSchema v) (Views_Record v) [] err in
  let err := fetch_err records in
  let log := log ++ log_err err in
  let '(acls, log) := build_ClientACLs (fetch_out clients) log in
  let zones := build_ClientZones (fetch_out records) in
  {| loaded_views := with_config v acls zones;
     loaded_log := log;
     loaded_io := fetch_io clients ++ fetch_io records |}.

End loadConfig.

(** ** [loadConfig]: what a call leaves *)

Section loadConfig_facts.
Context `{!SchemaConsts, !DNSConsts, !NetTypes, !NetLib, !HostLib, !HTTPTypes, !HTTPLib}.
Context `{!Decoder (list RawClientACL), !Decoder (list RawRecord)}.
Implicit Types (w : World) (v : Views) (e : error).

(** The first fetch of [loadConfig]. *)
Definition client_fetch w v : Fetch (list RawClientACL) :=
  fetch w (Views_ClientSchema v) (Views_Client v) [] None.

(** The second: [err] holds what the first left. *)
Definition record_fetch w v : Fetch (list RawRecord) :=
  fetch w (Views_RecordSchema v) (Views_Record v) []
    (fetch_err (client_fetch w v)).

(** [loadConfig] without its loops. *)
Lemma loadConfig_unfold w v :
  loadConfig w v =
  {| loaded_views :=
       with_config v (acl_of <$> fetch_out (client_fetch w v))
         (build_ClientZones (fetch_out (record_fetch w v)));
     loaded_log :=
       log_err (fetch_err (client_fetch w v)) ++
       log_err (fetch_err (record_fetch w v)) ++
       (fetch_out (client_fetch w v) ≫= cidr_warnings);
     loaded_io := fetch_io (client_fetch w v) ++ fetch_io (record_fetch w v) |}.
Proof.
  unfold loadConfig. rewrite build_ClientACLs_spec. by rewrite <-app_assoc.
Qed.

Lemma loadConfig_views w v :
  loaded_views (loadConfig w v) =
  with_config v (acl_of <$> fetch_out (client_fetch w v))
    (build_ClientZones (fetch_out (record_fetch w v))).
Proof. by rewrite loadConfig_unfold. Qed.

Lemma loadConfig_ClientACLs w v :
  Views_ClientACLs (loaded_views (loadConfig w v)) =
  acl_of <$> fetch_out (client_fetch w v).
Proof. by rewrite loadConfig_unfold. Qed.

Lemma loadConfig_ClientZones w v :
  Views_ClientZones (loaded_views (loadConfig w v)) =
  build_ClientZones (fetch_out (record_fetch w v)).
Proof. by rewrite loadConfig_unfold. Qed.

Lemma loadConfig_log w v :
  loaded_log (loadConfig w v) =
  log_err (fetch_err (client_fetch w v)) ++
  log_err (fetch_err (record_fetch w v)) ++
  (fetch_out (client_fetch w v) ≫= cidr_warnings).
Proof. by rewrite loadConfig_unfold. Qed.

Lemma loadConfig_settings w v : same_settings (loaded_views (loadConfig w v)) v.
Proof. rewrite loadConfig_unfold. apply with_config_settings. Qed.

(** The fetches read the settings only. *)
Lemma client_fetch_settings w v v' :
  same_settings v v' → client_fetch w v = client_fetch w v'.
Proof. intros (_&Hc&_&Hcs&_). unfold client_fetch. by rewrite Hc, Hcs. Qed.

Lemma record_fetch_settings w v v' :
  same_settings v v' → record_fetch w v = record_fetch w v'.
Proof.
  intros Hs. unfold record_fetch. rewrite (client_fetch_settings w v v') by done.
  destruct Hs as (_&_&Hr&_&Hrs). by rewrite Hr, Hrs.
Qed.

Lemma with_config_same_settings v v' acls zones :
  same_settings v v' → with_config v acls zones = with_config v' acls zones.
Proof. intros Hs. apply Views_eq; [|done]. by rewrite !with_config_settings. Qed.

(** [loadConfig] reads the settings only. *)
Lemma loadConfig_same_settings w v v' :
  same_settings v v' → loadConfig w v = loadConfig w v'.
Proof.
  intros Hs. rewrite !loadConfig_unfold.
  rewrite (client_fetch_settings w v v'), (record_fetch_settings w v v') by done.
  f_equal. by apply with_config_same_settings.
Qed.

Lemma loadConfig_rebuilds_settings w w' v :
  loadConfig w (loaded_views (loadConfig w' v)) = loadConfig w v.
Proof. apply loadConfig_same_settings, loadConfig_settings. Qed.

(** The warnings and the errors of a log. *)
Lemma log_err_errors err : filter is_LogError (log_err err) = log_err err.
Proof. by destruct err. Qed.

Lemma log_err_warnings err : filter is_LogWarning (log_err err) = [].
Proof. by destruct err. Qed.

Lemma cidr_warnings_errors (clients : list RawClientACL) :
  filter is_LogError (clients ≫= cidr_warnings) = [].
Proof.
  apply filter_nil_Forall, Forall_forall. intros entry.
  rewrite list_elem_of_bind. intros (client & Hin & _).
  unfold cidr_warnings in Hin. apply list_elem_of_fmap in Hin as (? & -> & _).
  by intros ?.
Qed.

Lemma cidr_warnings_warnings (clients : list RawClientACL) :
  filter is_LogWarning (clients ≫= cidr_warnings) = clients ≫= cidr_warnings.
Proof.
  apply filter_id_Forall, Forall_forall. intros entry.
  rewrite list_elem_of_bind. intros (client & Hin & _).
  unfold cidr_warnings in Hin. by apply list_elem_of_fmap in Hin as (? & -> & _).
Qed.

End loadConfig_facts.

(** ** The specification of [loadConfig]

    What the plugin holds after a call, said without loops: the settings
    are those it had; there is one group for each raw client, in the order
    of the document, with the networks of its valid prefixes; a view has the
    record set of the last raw record set of its name, and a record set
    lists the normalised names of its records in order and stores under
    each name the last record of that name. *)

Section load_spec.
Context `{!DNSConsts, !NetTypes, !NetLib, !HostLib}.

Definition Zones_spec (r : RawRecord) (zs : Zones) : Prop :=
  Zones_Names zs = zone_key <$> RawRecord_Records r ∧
  ∀ n, Zones_Z zs !! n =
       make_Zone <$> last (filter (λ e, zone_key e = n) (RawRecord_Records r)).

Definition load_spec (clients : list RawClientACL) (records : list RawRecord)
    (v v' : Views) : Prop :=
  same_settings v' v ∧
  Views_ClientACLs v' = acl_of <$> clients ∧
  ∀ view, option_Forall2 Zones_spec
            (last (filter (λ r, RawRecord_Name r = view) records))
            (Views_ClientZones v' !! view).

Lemma build_Zones_spec r : Zones_spec r (build_Zones r).
Proof. split; [apply build_Zones_Names|apply build_Zones_lookup]. Qed.

(** The specification determines the record set. *)
Lemma Zones_spec_unique r zs : Zones_spec r zs → zs = build_Zones r.
Proof.
  intros [Hnames Hz]. destruct zs as [names z]. simpl in *.
  rewrite <-(build_Zones_Names r) in Hnames. subst names.
  replace z with (Zones_Z (build_Zones r)); [by destruct (build_Zones r)|].
  apply map_eq. intros n. by rewrite Hz, build_Zones_lookup.
Qed.

Lemma load_spec_build clients records v :
  load_spec clients records v
    (with_config v (acl_of <$> clients) (build_ClientZones records)).
Proof.
  split_and!; [apply with_config_settings|done|]. intros view. simpl.
  rewrite build_ClientZones_lookup.
  destruct (last _); constructor. apply build_Zones_spec.
Qed.

(** The specification determines the plugin. *)
Lemma load_spec_unique clients records v v' :
  load_spec clients records v v' →
  v' = with_config v (acl_of <$> clients) (build_ClientZones records).
Proof.
  intros (Hs & Hacls & Hzones). apply Views_eq.
  { by rewrite with_config_settings. }
  rewrite with_config_snapshot. unfold snapshot. f_equal; [done|].
  apply map_eq. intros view. rewrite build_ClientZones_lookup.
  destruct (Hzones view) as [r zs ->%Zones_spec_unique|]; done.
Qed.

End load_spec.

(** ** Properties of the loops *)

Section build_properties.
Context `{!DNSConsts, !NetTypes, !NetLib, !HostLib}.
Implicit Types (e : RawRecordEntry) (r : RawRecord) (log : Log).

(** The groups of [v.ClientACLs] are those of the client document, one
    for each raw client and in its order: a client without a valid prefix
    keeps its (empty) group, and a name written twice has two groups. *)
Theorem build_ClientACLs_names (rawClients : list RawClientACL) log :
  ClientACL_Name <$> (build_ClientACLs rawClients log).1 =
  RawClientACL_Name <$> rawClients.
Proof.
  rewrite build_ClientACLs_spec. simpl. rewrite <-list_fmap_compose.
  by apply list_fmap_ext.
Qed.

(** C21. A prefix [ParseCIDR] refuses changes nothing but the log: the
    groups are those of the document without that prefix. *)
Theorem build_ClientACLs_skips_invalid (cs1 cs2 : list RawClientACL)
    name ps1 cidr ps2 log :
  net_of cidr = None →
  (build_ClientACLs (cs1 ++ mkRawClientACL name (ps1 ++ cidr :: ps2) :: cs2) log).1 =
  (build_ClientACLs (cs1 ++ mkRawClientACL name (ps1 ++ ps2) :: cs2) log).1.
Proof.
  intros Hcidr. rewrite !build_ClientACLs_spec. simpl.
  rewrite !fmap_app, !fmap_cons. unfold acl_of at 2 5. simpl.
  by rewrite valid_nets_skip.
Qed.

(** C13. In a record set the last record of a normalised name is the one
    stored: an earlier record of that name is overwritten, though its name
    stays listed. *)
Theorem build_Zones_last_wins name (es1 es2 : list RawRecordEntry) e :
  Forall (λ e', zone_key e' ≠ zone_key e) es2 →
  Zones_Z (build_Zones (mkRawRecord name (es1 ++ e :: es2))) !! zone_key e =
  Some (make_Zone e).
Proof.
  intros Hes2. rewrite build_Zones_lookup. simpl.
  by rewrite last_filter_middle.
Qed.

(** C36. A record set stores at most as many records as it lists names, and
    as many exactly when no normalised name is repeated in the document. *)
Theorem build_Zones_size r :
  size (Zones_Z (build_Zones r)) ≤ length (Zones_Names (build_Zones r)) ∧
  (size (Zones_Z (build_Zones r)) = length (Zones_Names (build_Zones r)) ↔
   NoDup (zone_key <$> RawRecord_Records r)).
Proof.
  rewrite <-size_dom, build_Zones_dom, build_Zones_Names.
  split; [apply size_list_to_set_le|apply size_list_to_set_NoDup].
Qed.

(** The record sets of a view are not merged: the last raw record set
    of a name replaces the earlier ones of that name wholly. *)
Theorem build_ClientZones_last_wins (rs1 rs2 : list RawRecord) r :
  Forall (λ r', RawRecord_Name r' ≠ RawRecord_Name r) rs2 →
  build_ClientZones (rs1 ++ r :: rs2) !! RawRecord_Name r = Some (build_Zones r).
Proof.
  intros Hrs2. rewrite build_ClientZones_lookup. by rewrite last_filter_middle.
Qed.

(** A record gets the zero type exactly when its type, upper-cased, is
    none of A, AAAA, CNAME and TXT; the record is stored all the same. *)
Theorem make_Zone_Type_zero e :
  Zone_Type (make_Zone e) = 0%Z ↔
  ToUpper (RawRecordEntry_Type e) ∉ ["A"; "AAAA"; "CNAME"; "TXT"].
Proof. apply rrtype_of_zero. Qed.

(** The type of a record does not depend on the case its type is
    written in. *)
Theorem make_Zone_Type_case e e' :
  ToLower (RawRecordEntry_Type e) = ToLower (RawRecordEntry_Type e') →
  Zone_Type (make_Zone e) = Zone_Type (make_Zone e').
Proof.
  intros Heq. unfold make_Zone. simpl.
  by rewrite <-(ToUpper_ToLower (RawRecordEntry_Type e)), Heq, ToUpper_ToLower.
Qed.

(** C27. Every record stored in a view is made of a raw record of the
    document, and of no other: the last record of its normalised name in
    the last record set named as the view.  It has the name and the value
    of that record, both normalised whatever the type, its lifetime, and
    the type of the case of the [switch] that the type written, upper-cased,
    selects: each of the four types exactly for its own spelling, the zero
    type exactly for every other. *)
Theorem build_ClientZones_record (rawRecords : list RawRecord) view zs n z :
  build_ClientZones rawRecords !! view = Some zs →
  Zones_Z zs !! n = Some z →
  ∃ r e,
    last (filter (λ r, RawRecord_Name r = view) rawRecords) = Some r ∧
    last (filter (λ e, Normalize (RawRecordEntry_Name e) = n)
            (RawRecord_Records r)) = Some e ∧
    Zone_Name z = Normalize (RawRecordEntry_Name e) ∧
    Zone_TTL z = RawRecordEntry_TTL e ∧
    Zone_Value z = Normalize (RawRecordEntry_Value e) ∧
    (Zone_Type z = TypeA ↔ ToUpper (RawRecordEntry_Type e) = "A") ∧
    (Zone_Type z = TypeAAAA ↔ ToUpper (RawRecordEntry_Type e) = "AAAA") ∧
    (Zone_Type z = TypeCNAME ↔ ToUpper (RawRecordEntry_Type e) = "CNAME") ∧
    (Zone_Type z = TypeTXT ↔ ToUpper (RawRecordEntry_Type e) = "TXT") ∧
    (Zone_Type z = 0%Z ↔
     ToUpper (RawRecordEntry_Type e) ∉ ["A"; "AAAA"; "CNAME"; "TXT"]).
Proof.
  rewrite build_ClientZones_lookup.
  destruct (last (filter _ rawRecords)) as [r|] eqn:Hr; [|done]. intros [= <-].
  rewrite build_Zones_lookup.
  destruct (last (filter _ (RawRecord_Records r))) as [e|] eqn:He; [|done].
  intros [= <-]. exists r, e.
  destruct (rrtype_of_iff (ToUpper (RawRecordEntry_Type e))) as (?&?&?&?).
  split_and!; try done. apply rrtype_of_zero.
Qed.

End build_properties.

(** ** Properties of [loadConfig] *)

Section loadConfig_properties.
Context `{!SchemaConsts, !DNSConsts, !NetTypes, !NetLib, !HostLib, !HTTPTypes, !HTTPLib}.
Context `{!Decoder (list RawClientACL), !Decoder (list RawRecord)}.
Implicit Types (w : World) (v : Views) (e : error).

(** C1. [loadConfig] implements its specification: the plugin it leaves
    is the one [load_spec] describes for the two documents fetched. *)
Theorem loadConfig_refines_spec w v :
  load_spec (fetch_out (client_fetch w v)) (fetch_out (record_fetch w v))
    v (loaded_views (loadConfig w v)).
Proof. rewrite loadConfig_unfold. apply load_spec_build. Qed.

(** C34. [loadConfig] rebuilds the configuration from the sources alone:
    what an earlier load left, in whatever world, has no effect on what the
    plugin holds after the call, so that a load after a failed load repairs
    it. *)
Theorem loadConfig_rebuilds w w' v v' :
  same_settings v v' →
  loadConfig w (loaded_views (loadConfig w' v)) = loadConfig w v'.
Proof.
  intros Hs. rewrite loadConfig_rebuilds_settings. by apply loadConfig_same_settings.
Qed.

(** C6. When the client source cannot be read, [loadConfig] logs the error
    and leaves the plugin without any group, whatever groups it had. *)
Theorem loadConfig_unreachable_clients w v e :
  unreachable w (Views_ClientSchema v) (Views_Client v) e →
  Views_ClientACLs (loaded_views (loadConfig w v)) = [] ∧
  LogError e ∈ loaded_log (loadConfig w v).
Proof.
  intros Hun. rewrite loadConfig_ClientACLs, loadConfig_log. unfold client_fetch.
  destruct (fetch_unreachable (A:=list RawClientACL) w _ _ [] None e Hun)
    as [-> ->].
  split; [done|]. simpl. apply list_elem_of_here.
Qed.

(** When the record source cannot be read, [loadConfig] logs the error
    and leaves the plugin without any record, whatever records it had. *)
Theorem loadConfig_unreachable_records w v e :
  unreachable w (Views_RecordSchema v) (Views_Record v) e →
  Views_ClientZones (loaded_views (loadConfig w v)) = ∅ ∧
  LogError e ∈ loaded_log (loadConfig w v).
Proof.
  intros Hun. rewrite loadConfig_ClientZones, loadConfig_log. unfold record_fetch.
  destruct (fetch_unreachable (A:=list RawRecord) w _ _ []
    (fetch_err (client_fetch w v)) e Hun) as [-> ->].
  split; [done|]. rewrite !elem_of_app. right; left. apply list_elem_of_here.
Qed.

(** C33. When the decoder of the client file fails, the groups are built
    from whatever it decoded before failing, and its error is logged first. *)
Theorem loadConfig_partial_document w v file :
  Views_ClientSchema v = SchemaYAML →
  ReadFile w (Views_Client v) = Ok file →
  Views_ClientACLs (loaded_views (loadConfig w v)) =
    acl_of <$> (yaml_Unmarshal file ([] : list RawClientACL)).1 ∧
  ∃ rest, loaded_log (loadConfig w v) =
    log_err (yaml_Unmarshal file ([] : list RawClientACL)).2 ++ rest.
Proof.
  intros Hschema Hread. rewrite loadConfig_ClientACLs, loadConfig_log.
  unfold client_fetch. rewrite Hschema, fetch_YAML.
  rewrite (parseFromYAML_read _ _ _ file) by done. split; [done|].
  eexists; reflexivity.
Qed.

(** C20. With the settings [parse] makes, each fetch logs its own error and
    nothing else: the errors of the log are the error of the client fetch
    and the error of the record fetch, the second not depending on the
    first although both use the variable [err]. *)
Theorem loadConfig_errors w v :
  settings_wf v →
  filter is_LogError (loaded_log (loadConfig w v)) =
  log_err (fetch_err (client_fetch w v)) ++
  log_err (fetch_err
    (fetch w (Views_RecordSchema v) (Views_Record v) ([] : list RawRecord) None)).
Proof.
  intros (_ & Hr & _). rewrite loadConfig_log, !filter_app.
  rewrite !log_err_errors, cidr_warnings_errors, app_nil_r.
  unfold record_fetch. by rewrite (fetch_err_irrelevant _ _ _ _ _ None).
Qed.

(** With a record schema that is neither constant, the second test
    of [err] finds the error of the client fetch and logs it again. *)
Theorem loadConfig_stale_err w v e :
  Views_RecordSchema v ≠ SchemaYAML → Views_RecordSchema v ≠ SchemaHTTP →
  fetch_err (client_fetch w v) = Some e →
  filter is_LogError (loaded_log (loadConfig w v)) = [LogError e; LogError e].
Proof.
  intros Hy Hh He. rewrite loadConfig_log, !filter_app.
  rewrite !log_err_errors, cidr_warnings_errors, app_nil_r.
  unfold record_fetch. rewrite fetch_other by done. simpl. by rewrite He.
Qed.

(** The warnings of the log are one for each prefix [ParseCIDR]
    refuses, in the order of the document, and follow the errors. *)
Theorem loadConfig_warnings w v :
  filter is_LogWarning (loaded_log (loadConfig w v)) =
    fetch_out (client_fetch w v) ≫= cidr_warnings ∧
  ∃ errors, loaded_log (loadConfig w v) =
    errors ++ (fetch_out (client_fetch w v) ≫= cidr_warnings) ∧
    filter is_LogWarning errors = [].
Proof.
  rewrite loadConfig_log. split.
  - by rewrite !filter_app, !log_err_warnings, cidr_warnings_warnings.
  - eexists (_ ++ _). rewrite <-app_assoc. split; [done|].
    by rewrite filter_app, !log_err_warnings.
Qed.

(** Every record set [loadConfig] leaves is well formed: it lists the
    names it stores and no other, and stores each record under the record's
    own name. *)
Theorem loadConfig_Zones_wf w v :
  map_Forall (λ _ zs, Zones_wf zs) (Views_ClientZones (loaded_views (loadConfig w v))).
Proof.
  rewrite loadConfig_ClientZones. intros view zs.
  rewrite build_ClientZones_lookup. destruct (last _); [|done].
  intros [= <-]. apply build_Zones_wf.
Qed.

(** C37. A load makes at most two reads of the outside; each is a file
    read, or a request sent with the timeout of sixty seconds whose
    response, once there, is read and then closed. *)
Theorem loadConfig_trace w v :
  ∃ t1 t2, loaded_io (loadConfig w v) = t1 ++ t2 ∧ trace_ok t1 ∧ trace_ok t2.
Proof.
  rewrite loadConfig_unfold. simpl. eauto using fetch_trace.
Qed.

End loadConfig_properties.

(** ** The definitions on the documents of [Samples] *)

(** The plugin after a load in the world in which both sources are there. *)
Definition loaded_ex : Views := loaded_views (loadConfig world_ok settings_ex).

Example loadConfig_ex_groups :
  Views_ClientACLs loaded_ex =
  [ {| ClientACL_Name := "internal";
       ClientACL_CIDRNets := [ {| IPNet_IP := [10; 0; 0; 0]; IPNet_Mask := [255; 0; 0; 0] |} ] |};
    {| ClientACL_Name := "external";
       ClientACL_CIDRNets := [ {| IPNet_IP := [0; 0; 0; 0]; IPNet_Mask := [0; 0; 0; 0] |} ] |} ]%Z.
Proof. vm_compute. reflexivity. Qed.

Example loadConfig_ex_record :
  (Views_ClientZones loaded_ex !! "internal") ≫= (λ zs, Zones_Z zs !! "host.example.com.") =
  Some {| Zone_Name := "host.example.com."; Zone_TTL := 300; Zone_Type := 1;
          Zone_Value := "10.1.2.3." |}.
Proof. vm_compute. reflexivity. Qed.

Example loadConfig_ex_trace :
  loaded_io (loadConfig world_ok settings_ex) =
  [ IOReadFile "clients.yaml"; IODo 60000000000 "http://config/records";
    IOReadAll "records"; IOClose "records" ].
Proof. vm_compute. reflexivity. Qed.

Example loadConfig_ex_warnings :
  loaded_log (loadConfig world_bad settings_ex) =
  [ LogWarning "invalid CIDR address: internal (10.0.0.0/33)";
    LogWarning "invalid CIDR address: lab (lab-network)" ].
Proof. vm_compute. reflexivity. Qed.

(** A client whose only prefix is refused keeps its group, without network. *)
Example loadConfig_ex_empty_group :
  Views_ClientACLs (loaded_views (loadConfig world_bad settings_ex)) !! 1 =
  Some {| ClientACL_Name := "lab"; ClientACL_CIDRNets := [] |}.
Proof. vm_compute. reflexivity. Qed.

(** Two spellings of a name are one record, the later; both are listed. *)
Example build_Zones_ex_twice :
  (λ zs, (Zones_Names zs, size (Zones_Z zs))) <$>
    (build_ClientZones records_doc_twice !! "internal") =
  Some (["host.example.com."; "host.example.com."; "mail.example.com."], 2).
Proof. vm_compute. reflexivity. Qed.

Lemma build_ClientACLs_skips_invalid_witness :
  (build_ClientACLs
     ([] ++ mkRawClientACL "internal" ([] ++ "10.0.0.0/33" :: ["10.0.0.0/8"])
         :: drop 1 clients_doc) []).1 =
  (build_ClientACLs
     ([] ++ mkRawClientACL "internal" ([] ++ ["10.0.0.0/8"]) :: drop 1 clients_doc) []).1.
Proof. by apply build_ClientACLs_skips_invalid. Defined.

Lemma build_Zones_last_wins_witness :
  Zones_Z (build_Zones (mkRawRecord "internal"
    ([host_record "10.1.2.3"] ++ host_record "10.9.9.9" :: []))) !! "host.example.com." =
  Some (make_Zone (host_record "10.9.9.9")).
Proof.
  exact (build_Zones_last_wins "internal" [host_record "10.1.2.3"] []
    (host_record "10.9.9.9") (Forall_nil_2 _)).
Defined.

Lemma build_ClientZones_last_wins_witness :
  build_ClientZones (records_doc ++ mkRawRecord "internal" [] :: []) !! "internal" =
  Some (build_Zones (mkRawRecord "internal" [])).
Proof.
  exact (build_ClientZones_last_wins records_doc [] (mkRawRecord "internal" [])
    (Forall_nil_2 _)).
Defined.

Lemma make_Zone_Type_case_witness :
  Zone_Type (make_Zone (mkRawRecordEntry "h" 60 "aaaa" "fd00::1")) =
  Zone_Type (make_Zone (mkRawRecordEntry "h" 60 "AAAA" "fd00::1")).
Proof. by apply make_Zone_Type_case. Defined.

Lemma build_ClientZones_record_witness :
  ∃ r e,
    last (filter (λ r, RawRecord_Name r = "internal") records_doc_twice) = Some r ∧
    last (filter (λ e, Normalize (RawRecordEntry_Name e) = "host.example.com.")
            (RawRecord_Records r)) = Some e ∧
    Zone_Name (make_Zone (mkRawRecordEntry "HOST.example.com." 60 "aaaa" "fd00::1")) =
      Normalize (RawRecordEntry_Name e) ∧
    Zone_TTL (make_Zone (mkRawRecordEntry "HOST.example.com." 60 "aaaa" "fd00::1")) =
      RawRecordEntry_TTL e ∧
    Zone_Value (make_Zone (mkRawRecordEntry "HOST.example.com." 60 "aaaa" "fd00::1")) =
      Normalize (RawRecordEntry_Value e) ∧
    (Zone_Type (make_Zone (mkRawRecordEntry "HOST.example.com." 60 "aaaa" "fd00::1")) = TypeA ↔
     ToUpper (RawRecordEntry_Type e) = "A") ∧
    (Zone_Type (make_Zone (mkRawRecordEntry "HOST.example.com." 60 "aaaa" "fd00::1")) = TypeAAAA ↔
     ToUpper (RawRecordEntry_Type e) = "AAAA") ∧
    (Zone_Type (make_Zone (mkRawRecordEntry "HOST.example.com." 60 "aaaa" "fd00::1")) = TypeCNAME ↔
     ToUpper (RawRecordEntry_Type e) = "CNAME") ∧
    (Zone_Type (make_Zone (mkRawRecordEntry "HOST.example.com." 60 "aaaa" "fd00::1")) = TypeTXT ↔
     ToUpper (RawRecordEntry_Type e) = "TXT") ∧
    (Zone_Type (make_Zone (mkRawRecordEntry "HOST.example.com." 60 "aaaa" "fd00::1")) = 0%Z ↔
     ToUpper (RawRecordEntry_Type e) ∉ ["A"; "AAAA"; "CNAME"; "TXT"]).
Proof.
  apply (build_ClientZones_record records_doc_twice "internal"
           (build_Zones (hd (mkRawRecord "" []) records_doc_twice))
           "host.example.com.").
  - vm_compute. reflexivity.
  - vm_compute. reflexivity.
Defined.

Lemma loadConfig_rebuilds_witness :
  loadConfig world_ok
    (loaded_views (loadConfig world_down (loaded_views (loadConfig world_bad settings_ex)))) =
  loadConfig world_ok settings_ex.
Proof. apply loadConfig_rebuilds, loadConfig_settings. Defined.

Example loadConfig_ex_repair :
  loaded_views (loadConfig world_ok (loaded_views (loadConfig world_down settings_ex))) =
  loaded_ex.
Proof. vm_compute. reflexivity. Qed.

Lemma loadConfig_unreachable_clients_witness :
  Views_ClientACLs (loaded_views (loadConfig world_down loaded_ex)) = [] ∧
  LogError "open clients.yaml: no such file or directory"
    ∈ loaded_log (loadConfig world_down loaded_ex).
Proof. apply loadConfig_unreachable_clients. by left. Defined.

Lemma loadConfig_unreachable_records_witness :
  Views_ClientZones (loaded_views (loadConfig world_down loaded_ex)) = ∅ ∧
  LogError "Get http://config/records: connection refused"
    ∈ loaded_log (loadConfig world_down loaded_ex).
Proof. apply loadConfig_unreachable_records. by right. Defined.

Lemma loadConfig_partial_document_witness :
  Views_ClientACLs (loaded_views (loadConfig world_cut settings_ex)) =
    acl_of <$> take 1 clients_doc ∧
  ∃ rest, loaded_log (loadConfig world_cut settings_ex) =
    [LogError "yaml: line 5: did not find expected key"] ++ rest.
Proof.
  exact (loadConfig_partial_document world_cut settings_ex "clients-cut"
    eq_refl eq_refl).
Defined.

Lemma loadConfig_errors_witness :
  filter is_LogError (loaded_log (loadConfig world_down settings_ex)) =
  [ LogError "open clients.yaml: no such file or directory";
    LogError "Get http://config/records: connection refused" ].
Proof. refine (loadConfig_errors world_down settings_ex _). compute_done. Defined.

(** Settings [parse] does not make: the record schema is neither constant. *)
Definition settings_json : Views :=
  {| Views_ReloadInterval := 30 * Second; Views_Client := "clients.yaml";
     Views_Record := "records.json"; Views_ClientSchema := "yaml";
     Views_RecordSchema := "json"; Views_ClientACLs := [];
     Views_ClientZones := ∅ |}.

Lemma loadConfig_stale_err_witness :
  filter is_LogError (loaded_log (loadConfig world_down settings_json)) =
  [ LogError "open clients.yaml: no such file or directory";
    LogError "open clients.yaml: no such file or directory" ].
Proof.
  refine (loadConfig_stale_err world_down settings_json _ _ _ eq_refl); done.
Defined.
