(* ===== verification/Lifecycle.v ===== *)
(** * [setup] and [reload]: the life of the plugin ([setup.go] l.47-71 and
      l.136-152)

    [setup] parses the directive, starts the goroutine of [reload] and
    registers two hooks with the server: at startup [v.loadConfig()], at
    shutdown [close(reloadChan)].  The goroutine makes a ticker of the
    reload interval and then loops on a [select]: it returns when
    [reloadChan] is closed and calls [v.loadConfig()] when the ticker has
    ticked.

    A [Plugin] is what these pieces share: the plugin [*v], the channel,
    the point the goroutine has reached, the ticker, whether the process
    still runs, and the log and the trace of the loads.  What happens to it
    is a labelled step relation, [Step]; each rule is one statement of the
    source run by the server ([OnStartup], [OnShutdown]), by the goroutine
    ([NewTicker], [SelectTick], [SelectStop]) or by the run-time ([Tick]).
    The behaviour of the run-time the rules rely on is that of the Go
    documentation: [time.NewTicker] panics when the interval is not
    positive; the channel of a ticker holds one tick, and a tick that finds
    it full is dropped; closing a closed channel panics; a receive from a
    closed channel is ready; a [select] with several ready cases takes any
    of them; a panic that is not recovered ends the process.

    [step] is the relation as a function, to run sequences of events, and
    [Reachable] its closure.  A load is one step here: the writes of
    [loadConfig] are not interleaved with other steps, so the theorems are
    about the runs whose loads do not overlap; [Concurrent] has the same
    system with the writes as steps of their own.

    The theorems: [step] and [Step] agree; the settings never change; the
    configuration in force is that of the last load alone, hence every
    record set is well formed in every reachable state; the loads of the
    goroutine are paced by the ticks; a goroutine that has returned stays
    so and loads nothing; and the behaviours the source does not guard
    against: an interval that is not positive, accepted by [parse], ends
    the process; a second shutdown ends the process; a tick may still be
    served after the shutdown; the ticker goes on ticking after the
    goroutine has returned. *)

From Stdlib Require Import ZArith String Ascii List Lia.
From stdpp Require Import base tactics option list strings gmap.
From S2P Require Import Prelude GoStrings Libs Types Schema Netip DnsName Samples Corefile Fetch Build Loader.

(** ** The state *)

(** Where the goroutine of [reload] is. *)
Inductive Goroutine : Type :=
| GoSpawned   (** started by [go func()], before l.140 *)
| GoSelect    (** at the [select] of l.142 *)
| GoReturned. (** after the [return] of l.144 *)

(** [reloadChan]: nothing is ever sent on it. *)
Inductive Chan : Type :=
| ChanOpen
| ChanClosed.

Inductive Process : Type :=
| Running
| Crashed (msg : string).

#[global] Instance Goroutine_eq_dec : EqDecision Goroutine.
Proof. solve_decision. Defined.
#[global] Instance Chan_eq_dec : EqDecision Chan.
Proof. solve_decision. Defined.
#[global] Instance Process_eq_dec : EqDecision Process.
Proof. solve_decision. Defined.

(** The messages of the run-time panics. *)
Definition close_of_closed_channel : string := "close of closed channel".
Definition non_positive_interval : string := "non-positive interval for NewTicker".

Section lifecycle.
Context `{!SchemaConsts, !DNSConsts, !NetTypes, !NetLib, !HostLib, !HTTPTypes, !HTTPLib, !TimeLib, !PluginLib}.
Context `{!Decoder (list RawClientACL), !Decoder (list RawRecord)}.

Record Plugin : Type := mkPlugin {
  (** [*v] *)
  plugin_v : Views;
  plugin_reloadChan : Chan;
  plugin_goroutine : Goroutine;
  (** [ticker]: [None] before [time.NewTicker], then whether a tick waits
      in [ticker.C]. *)
  plugin_ticker : option bool;
  plugin_process : Process;
  plugin_log : Log;
  plugin_io : list IOEvent;
}.

(** What happens, and in which world when the step reads the outside. *)
Inductive Event : Type :=
| OnStartup (w : World)
| OnShutdown
| NewTicker
| Tick
| SelectTick (w : World)
| SelectStop.

Definition is_Tick (ev : Event) : bool :=
  match ev with Tick => true | _ => false end.

Definition is_SelectTick (ev : Event) : bool :=
  match ev with SelectTick _ => true | _ => false end.

Definition is_OnStartup (ev : Event) : bool :=
  match ev with OnStartup _ => true | _ => false end.

(** The world of a step that loads. *)
Definition load_world (ev : Event) : option World :=
  match ev with
  | OnStartup w | SelectTick w => Some w
  | _ => None
  end.

(** ** The statements *)

(** [v.loadConfig()] (l.56 and l.146) *)
Definition load (w : World) (p : Plugin) : Plugin :=
  let l := loadConfig w (plugin_v p) in
  {| plugin_v := loaded_views l;
     plugin_reloadChan := plugin_reloadChan p;
     plugin_goroutine := plugin_goroutine p;
     plugin_ticker := plugin_ticker p;
     plugin_process := plugin_process p;
     plugin_log := plugin_log p ++ loaded_log l;
     plugin_io := plugin_io p ++ loaded_io l |}.

Definition with_reloadChan (c : Chan) (p : Plugin) : Plugin :=
  {| plugin_v := plugin_v p; plugin_reloadChan := c;
     plugin_goroutine := plugin_goroutine p; plugin_ticker := plugin_ticker p;
     plugin_process := plugin_process p; plugin_log := plugin_log p;
     plugin_io := plugin_io p |}.

Definition with_goroutine (g : Goroutine) (p : Plugin) : Plugin :=
  {| plugin_v := plugin_v p; plugin_reloadChan := plugin_reloadChan p;
     plugin_goroutine := g; plugin_ticker := plugin_ticker p;
     plugin_process := plugin_process p; plugin_log := plugin_log p;
     plugin_io := plugin_io p |}.

Definition with_ticker (t : option bool) (p : Plugin) : Plugin :=
  {| plugin_v := plugin_v p; plugin_reloadChan := plugin_reloadChan p;
     plugin_goroutine := plugin_goroutine p; plugin_ticker := t;
     plugin_process := plugin_process p; plugin_log := plugin_log p;
     plugin_io := plugin_io p |}.

(** A panic nobody recovers. *)
Definition crash (msg : string) (p : Plugin) : Plugin :=
  {| plugin_v := plugin_v p; plugin_reloadChan := plugin_reloadChan p;
     plugin_goroutine := plugin_goroutine p; plugin_ticker := plugin_ticker p;
     plugin_process := Crashed msg; plugin_log := plugin_log p;
     plugin_io := plugin_io p |}.

(** [reload] (l.136-152): the channel is made and the goroutine started;
    the caller goes on with the channel. *)
Definition reload (v : Views) : Plugin :=
  {| plugin_v := v; plugin_reloadChan := ChanOpen;
     plugin_goroutine := GoSpawned; plugin_ticker := None;
     plugin_process := Running; plugin_log := []; plugin_io := [] |}.

(** [setup] (l.47-71).  The hooks it registers are the steps [OnStartup]
    and [OnShutdown] of the plugin it returns. *)
Definition setup (c : Controller) : outcome Plugin :=
  match parse c with
  | Panics msg => Panics msg
  | Returns (Err err) => Returns (Err (plugin_Error "views" err))
  | Returns (Ok v) => Returns (Ok (reload v))
  end.

(** [close(reloadChan)] (l.61) *)
Definition close_reloadChan (p : Plugin) : Plugin :=
  match plugin_reloadChan p with
  | ChanOpen => with_reloadChan ChanClosed p
  | ChanClosed => crash close_of_closed_channel p
  end.

(** [ticker := time.NewTicker(v.ReloadInterval)] (l.140) *)
Definition new_ticker (p : Plugin) : Plugin :=
  if decide (0 < Views_ReloadInterval (plugin_v p))%Z
  then with_ticker (Some false) (with_goroutine GoSelect p)
  else crash non_positive_interval p.

(** ** The steps *)

Inductive Step : Plugin → Event → Plugin → Prop :=
| Step_OnStartup w p :
    plugin_process p = Running →
    Step p (OnStartup w) (load w p)
| Step_OnShutdown p :
    plugin_process p = Running →
    Step p OnShutdown (close_reloadChan p)
| Step_NewTicker p :
    plugin_process p = Running →
    plugin_goroutine p = GoSpawned →
    Step p NewTicker (new_ticker p)
| Step_Tick p pending :
    plugin_process p = Running →
    plugin_ticker p = Some pending →
    Step p Tick (with_ticker (Some true) p)
| Step_SelectTick w p :
    plugin_process p = Running →
    plugin_goroutine p = GoSelect →
    plugin_ticker p = Some true →
    Step p (SelectTick w) (load w (with_ticker (Some false) p))
| Step_SelectStop p :
    plugin_process p = Running →
    plugin_goroutine p = GoSelect →
    plugin_reloadChan p = ChanClosed →
    Step p SelectStop (with_goroutine GoReturned p).

(** The relation as a function: [None] when the step cannot be taken. *)
Definition step (p : Plugin) (ev : Event) : option Plugin :=
  if decide (plugin_process p = Running) then
    match ev with
    | OnStartup w => Some (load w p)
    | OnShutdown => Some (close_reloadChan p)
    | NewTicker =>
        if decide (plugin_goroutine p = GoSpawned) then Some (new_ticker p)
        else None
    | Tick =>
        if plugin_ticker p is Some _ then Some (with_ticker (Some true) p)
        else None
    | SelectTick w =>
        if decide (plugin_goroutine p = GoSelect ∧ plugin_ticker p = Some true)
        then Some (load w (with_ticker (Some false) p))
        else None
    | SelectStop =>
        if decide (plugin_goroutine p = GoSelect ∧
                   plugin_reloadChan p = ChanClosed)
        then Some (with_goroutine GoReturned p)
        else None
    end
  else None.

(** A sequence of steps. *)
Fixpoint run (p : Plugin) (evs : list Event) : option Plugin :=
  match evs with
  | [] => Some p
  | ev :: evs => p' ← step p ev; run p' evs
  end.

(** The states a plugin reaches, with the events that lead there. *)
Inductive Reachable (p0 : Plugin) : list Event → Plugin → Prop :=
| Reachable_init : Reachable p0 [] p0
| Reachable_step evs p ev p' :
    Reachable p0 evs p → Step p ev p' → Reachable p0 (evs ++ [ev]) p'.

(** The ticks, and the loads of the goroutine, of a sequence of events. *)
Definition ticks (evs : list Event) : nat := length (filter is_Tick evs).
Definition reloads (evs : list Event) : nat := length (filter is_SelectTick evs).

(** The world of the last load. *)
Definition last_world (evs : list Event) : option World :=
  last (omap load_world evs).

(** A tick waits in the channel of the ticker. *)
Definition pending (p : Plugin) : nat :=
  if plugin_ticker p is Some true then 1 else 0.

End lifecycle.

(** ** The relation, the function and the closure *)

Section lifecycle_facts.
Context `{!SchemaConsts, !DNSConsts, !NetTypes, !NetLib, !HostLib, !HTTPTypes, !HTTPLib, !TimeLib, !PluginLib}.
Context `{!Decoder (list RawClientACL), !Decoder (list RawRecord)}.
Implicit Types (p : Plugin) (ev : Event) (evs : list Event) (w : World) (v : Views).

Lemma Step_step p ev p' : Step p ev p' → step p ev = Some p'.
Proof.
  unfold step. destruct 1 as [| | |p pending ? Hticker| |];
    rewrite ?Hticker; repeat case_decide; simplify_eq; try done; tauto.
Qed.

Lemma step_Step p ev p' : step p ev = Some p' → Step p ev p'.
Proof.
  unfold step. case_decide as Hrun; [|done].
  destruct ev; repeat case_decide; try case_match; intros; simplify_eq;
    repeat match goal with H : _ ∧ _ |- _ => destruct H end; eauto using Step.
Qed.

Lemma Step_running p ev p' : Step p ev p' → plugin_process p = Running.
Proof. by destruct 1. Qed.

Lemma run_app p evs1 evs2 :
  run p (evs1 ++ evs2) = p' ← run p evs1; run p' evs2.
Proof.
  revert p; induction evs1 as [|ev evs1 IH]; intros p; simpl; [done|].
  destruct (step p ev); simpl; [apply IH|done].
Qed.

Lemma run_snoc p evs ev : run p (evs ++ [ev]) = p' ← run p evs; step p' ev.
Proof.
  rewrite run_app. destruct (run p evs) as [p'|]; simpl; [|done].
  by destruct (step p' ev).
Qed.

Lemma Reachable_run p0 evs p : Reachable p0 evs p ↔ run p0 evs = Some p.
Proof.
  split.
  - induction 1 as [|evs p ev p' _ IH Hstep]; [done|].
    rewrite run_snoc, IH. simpl. by apply Step_step.
  - revert p; induction evs as [|ev evs IH] using rev_ind; intros p.
    + intros [= <-]. constructor.
    + rewrite run_snoc. destruct (run p0 evs) as [p1|] eqn:Hrun; [|done].
      simpl. intros Hstep%step_Step. econstructor; eauto.
Qed.

(** A property of the events and the state that holds at the start and
    that every step keeps holds of all that is reached. *)
Lemma Reachable_invariant (I : list Event → Plugin → Prop) p0 evs p :
  I [] p0 →
  (∀ evs p ev p', Reachable p0 evs p → I evs p → Step p ev p' → I (evs ++ [ev]) p') →
  Reachable p0 evs p → I evs p.
Proof. intros Hinit Hstep. induction 1; eauto. Qed.

Lemma Reachable_trans p0 evs1 p1 evs2 p2 :
  Reachable p0 evs1 p1 → Reachable p1 evs2 p2 → Reachable p0 (evs1 ++ evs2) p2.
Proof.
  rewrite !Reachable_run, run_app. by intros ->.
Qed.

Lemma Reachable_cons p0 ev p1 evs p :
  Step p0 ev p1 → Reachable p1 evs p → Reachable p0 (ev :: evs) p.
Proof.
  rewrite !Reachable_run. simpl. by intros ->%Step_step.
Qed.

Lemma new_ticker_pos p :
  (0 < Views_ReloadInterval (plugin_v p))%Z →
  new_ticker p = with_ticker (Some false) (with_goroutine GoSelect p).
Proof. unfold new_ticker. by intros; case_decide. Qed.

Lemma new_ticker_non_pos p :
  (Views_ReloadInterval (plugin_v p) ≤ 0)%Z →
  new_ticker p = crash non_positive_interval p.
Proof. unfold new_ticker. intros; case_decide; [lia|done]. Qed.

(** The counts of a sequence extended by an event. *)
Lemma ticks_snoc evs ev :
  ticks (evs ++ [ev]) = ticks evs + (if is_Tick ev then 1 else 0).
Proof.
  unfold ticks. rewrite filter_app, length_app. by destruct ev.
Qed.

Lemma reloads_snoc evs ev :
  reloads (evs ++ [ev]) = reloads evs + (if is_SelectTick ev then 1 else 0).
Proof.
  unfold reloads. rewrite filter_app, length_app. by destruct ev.
Qed.

Lemma last_world_snoc evs ev :
  last_world (evs ++ [ev]) =
  match load_world ev with Some w => Some w | None => last_world evs end.
Proof.
  unfold last_world. rewrite omap_app.
  change (omap load_world [ev]) with
    (match load_world ev with Some w => [w] | None => [] end).
  destruct (load_world ev); [apply last_snoc|by rewrite app_nil_r].
Qed.

(** What a step does to the plugin [*v]: a load, or nothing. *)
Lemma Step_plugin_v p ev p' :
  Step p ev p' →
  plugin_v p' =
  match load_world ev with
  | Some w => loaded_views (loadConfig w (plugin_v p))
  | None => plugin_v p
  end.
Proof.
  destruct 1; simpl; try done.
  - unfold close_reloadChan. by destruct (plugin_reloadChan p).
  - unfold new_ticker. by case_decide.
Qed.

Lemma Step_same_settings p ev p' :
  Step p ev p' → same_settings (plugin_v p') (plugin_v p).
Proof.
  intros ->%Step_plugin_v. destruct (load_world ev); [|done].
  apply loadConfig_settings.
Qed.

(** What a step does to the goroutine and to the ticker. *)
Lemma Step_goroutine p ev p' :
  Step p ev p' →
  plugin_goroutine p' =
  match ev with
  | NewTicker =>
      if decide (0 < Views_ReloadInterval (plugin_v p))%Z then GoSelect
      else GoSpawned
  | SelectStop => GoReturned
  | _ => plugin_goroutine p
  end.
Proof.
  destruct 1; simpl; try done.
  - unfold close_reloadChan. by destruct (plugin_reloadChan p).
  - unfold new_ticker. by case_decide.
Qed.

(** What a step does to the channel. *)
Lemma Step_reloadChan p ev p' :
  Step p ev p' →
  plugin_reloadChan p' =
  match ev with OnShutdown => ChanClosed | _ => plugin_reloadChan p end.
Proof.
  destruct 1; simpl; try done.
  - unfold close_reloadChan. by destruct (plugin_reloadChan p) eqn:Hc.
  - unfold new_ticker. by case_decide.
Qed.

(** The plugin [*v] in a reachable state: what the last load made of the
    plugin at the start. *)
Lemma Reachable_plugin_v p0 evs p :
  Reachable p0 evs p →
  plugin_v p =
  match last_world evs with
  | Some w => loaded_views (loadConfig w (plugin_v p0))
  | None => plugin_v p0
  end.
Proof.
  induction 1 as [|evs p ev p' _ IH Hstep]; [done|].
  rewrite last_world_snoc, (Step_plugin_v _ _ _ Hstep).
  destruct (load_world ev) as [w|]; [|done]. rewrite IH.
  destruct (last_world evs); [|done]. by rewrite loadConfig_rebuilds_settings.
Qed.

Lemma Reachable_same_settings p0 evs p :
  Reachable p0 evs p → same_settings (plugin_v p) (plugin_v p0).
Proof.
  intros ->%Reachable_plugin_v. destruct (last_world evs); [|done].
  apply loadConfig_settings.
Qed.

(** Well-formed settings depend on the settings only. *)
Lemma settings_wf_same_settings v v' :
  same_settings v v' → settings_wf v' → settings_wf v.
Proof.
  unfold settings_wf. intros (Hi & Hc & Hr & Hcs & Hrs).
  by rewrite Hi, Hc, Hr, Hcs, Hrs.
Qed.

(** The channel is closed exactly after a shutdown. *)
Lemma Reachable_reloadChan v evs p :
  Reachable (reload v) evs p →
  plugin_reloadChan p = ChanClosed ↔ OnShutdown ∈ evs.
Proof.
  induction 1 as [|evs p ev p' _ IH Hstep].
  - split; [done|]. by intros ?%elem_of_nil.
  - rewrite (Step_reloadChan _ _ _ Hstep), elem_of_app, list_elem_of_singleton.
    destruct ev; naive_solver.
Qed.

(** The ticker exists once the goroutine has passed l.140. *)
Lemma Reachable_ticker v evs p :
  Reachable (reload v) evs p →
  plugin_goroutine p ≠ GoSpawned → is_Some (plugin_ticker p).
Proof.
  induction 1 as [|evs p ev p' _ IH Hstep]; [done|].
  destruct Hstep; simpl; try done.
  - unfold close_reloadChan. by destruct (plugin_reloadChan p).
  - unfold new_ticker. case_decide; simpl; [by eauto|congruence].
  - intros _. apply IH. congruence.
Qed.

End lifecycle_facts.

(** ** Properties of the life of the plugin *)

Section lifecycle_properties.
Context `{!SchemaConsts, !DNSConsts, !NetTypes, !NetLib, !HostLib, !HTTPTypes, !HTTPLib, !TimeLib, !PluginLib}.
Context `{!Decoder (list RawClientACL), !Decoder (list RawRecord)}.
Implicit Types (p : Plugin) (ev : Event) (evs : list Event) (w : World) (v : Views).

(** The function [step] computes the relation [Step]: a step can be
    taken exactly when [step] returns its result. *)
Theorem step_iff_Step p ev p' : step p ev = Some p' ↔ Step p ev p'.
Proof. split; [apply step_Step|apply Step_step]. Qed.

(** When the loads do not overlap, the configuration in force is that of
    the last load alone: in every state reached by these steps [*v] is
    what [loadConfig] makes of the plugin [parse] returned in the world of
    the last load, whoever ran it, and is that plugin itself as long as
    nothing was loaded.  [Concurrent] has the calls write by write. *)
Theorem Reachable_last_load v evs p :
  Reachable (reload v) evs p →
  plugin_v p =
  match last_world evs with
  | Some w => loaded_views (loadConfig w v)
  | None => v
  end.
Proof. apply Reachable_plugin_v. Qed.


(** C26. The goroutine loads at most once for each tick: the loads it has
    run, with the tick that waits in the channel of the ticker if any, are
    at most the ticks. *)
Theorem reloads_le_ticks v evs p :
  Reachable (reload v) evs p → reloads evs + pending p ≤ ticks evs.
Proof.
  induction 1 as [|evs p ev p' _ IH Hstep]; [done|].
  rewrite reloads_snoc, ticks_snoc. revert IH. unfold pending.
  destruct Hstep as [| | |? ? ? Hticker|? ? ? ? Hticker|]; simpl;
    rewrite ?Hticker; try lia.
  - unfold close_reloadChan. destruct (plugin_reloadChan p); simpl; lia.
  - unfold new_ticker. case_decide; simpl; repeat case_match; lia.
Qed.

(** A goroutine that has returned stays so: nothing that follows is a
    load of it. *)
Theorem returned_stays p evs p' :
  plugin_goroutine p = GoReturned →
  Reachable p evs p' →
  plugin_goroutine p' = GoReturned ∧ reloads evs = 0.
Proof.
  intros Hret. induction 1 as [|evs p1 ev p' _ [IHg IHr] Hstep]; [done|].
  rewrite reloads_snoc, IHr, (Step_goroutine _ _ _ Hstep).
  destruct Hstep; simpl; try done; congruence.
Qed.

(** C28. [parse] accepts a reload interval that is not positive, and the
    goroutine [setup] starts then ends the process: [time.NewTicker]
    panics. *)
Theorem NewTicker_non_positive c v :
  parse c = Returns (Ok v) →
  (Views_ReloadInterval v ≤ 0)%Z →
  setup c = Returns (Ok (reload v)) ∧
  step (reload v) NewTicker = Some (crash non_positive_interval (reload v)).
Proof.
  intros Hparse Hle. unfold setup. rewrite Hparse. split; [done|].
  rewrite <-(new_ticker_non_pos (reload v)) by done. by apply Step_step, Step_NewTicker.
Qed.

(** C30. A second shutdown ends the process: the hook closes a channel that
    is closed. *)
Theorem second_shutdown_crashes v evs p :
  Reachable (reload v) evs p →
  OnShutdown ∈ evs →
  plugin_process p = Running →
  Step p OnShutdown (crash close_of_closed_channel p).
Proof.
  intros Hreach Hin%(Reachable_reloadChan _ _ _ Hreach) Hrun.
  replace (crash _ p) with (close_reloadChan p); [by constructor|].
  unfold close_reloadChan. by rewrite Hin.
Qed.

(** C29. A tick can be served after the shutdown: when the channel is closed
    and a tick waits, the [select] may take the tick, and the plugin loads
    once more. *)
Theorem tick_served_after_shutdown v w :
  (0 < Views_ReloadInterval v)%Z →
  ∃ p, Reachable (reload v) [NewTicker; Tick; OnShutdown; SelectTick w] p ∧
       plugin_reloadChan p = ChanClosed ∧
       plugin_process p = Running ∧
       plugin_v p = loaded_views (loadConfig w v).
Proof.
  intros Hpos. pose proof (new_ticker_pos (reload v) Hpos) as Hnew.
  eexists. split.
  - eapply Reachable_cons; [by apply Step_NewTicker|]. rewrite Hnew.
    eapply Reachable_cons; [by eapply Step_Tick|].
    eapply Reachable_cons; [by apply Step_OnShutdown|].
    eapply Reachable_cons; [by apply Step_SelectTick|]. constructor.
  - done.
Qed.

(** C38. The ticker is never stopped: it goes on ticking after the goroutine
    has returned. *)
Theorem ticker_never_stopped v evs p :
  Reachable (reload v) evs p →
  plugin_goroutine p = GoReturned →
  plugin_process p = Running →
  Step p Tick (with_ticker (Some true) p).
Proof.
  intros Hreach Hret Hrun.
  destruct (Reachable_ticker _ _ _ Hreach) as [pending Hticker]; [congruence|].
  by econstructor.
Qed.

End lifecycle_properties.

(** ** The plugin of [Samples] at work *)

(** The server starts, the ticker ticks, and the tick is served when the
    sources have gone. *)
Definition events_ex : list Event :=
  [OnStartup world_ok; NewTicker; Tick; Tick; SelectTick world_down].

Definition plugin_ex : Plugin :=
  load world_down (with_ticker (Some false) (with_ticker (Some true)
    (with_ticker (Some true) (new_ticker (load world_ok (reload settings_ex)))))).

(** The server shuts down and the goroutine returns. *)
Definition events_stop : list Event := [NewTicker; OnShutdown; SelectStop].

Definition plugin_stopped : Plugin :=
  with_goroutine GoReturned (close_reloadChan (new_ticker (reload settings_ex))).

(** A Corefile with an interval of no time. *)
Definition corefile_zero : Controller :=
  [[mkLine "client" ["clients.yaml"]; mkLine "record" ["http://config/records"];
    mkLine "reload" ["0s"]]].

Definition settings_ex_zero : Views :=
  {| Views_ReloadInterval := 0; Views_Client := "clients.yaml";
     Views_Record := "http://config/records"; Views_ClientSchema := "yaml";
     Views_RecordSchema := "http"; Views_ClientACLs := [];
     Views_ClientZones := ∅ |}.

Lemma Reachable_ex : Reachable (reload settings_ex) events_ex plugin_ex.
Proof. apply Reachable_run. vm_compute. reflexivity. Qed.

Lemma Reachable_stopped : Reachable (reload settings_ex) events_stop plugin_stopped.
Proof. apply Reachable_run. vm_compute. reflexivity. Qed.

Example run_ex_log :
  plugin_log plugin_ex =
  [ LogError "open clients.yaml: no such file or directory";
    LogError "Get http://config/records: connection refused" ].
Proof. vm_compute. reflexivity. Qed.

(** After the failed load the plugin has no group and no record. *)
Example run_ex_blank : snapshot (plugin_v plugin_ex) = ([], ∅).
Proof. vm_compute. reflexivity. Qed.

Example setup_ex_error :
  setup [[mkLine "client" ["clients.json"]]] =
  Returns (Err "plugin/views: unknown schema: clients.json").
Proof. vm_compute. reflexivity. Qed.

Example setup_ex_panic :
  setup [[mkLine "record" []]] = Panics index_out_of_range.
Proof. vm_compute. reflexivity. Qed.


Lemma reloads_le_ticks_witness : reloads events_ex + pending plugin_ex ≤ ticks events_ex.
Proof. exact (reloads_le_ticks settings_ex events_ex plugin_ex Reachable_ex). Defined.

Lemma returned_stays_witness :
  plugin_goroutine (load world_ok (with_ticker (Some true) plugin_stopped)) = GoReturned ∧
  reloads [Tick; OnStartup world_ok] = 0.
Proof.
  apply (returned_stays plugin_stopped); [reflexivity|].
  apply Reachable_run. vm_compute. reflexivity.
Defined.

Lemma NewTicker_non_positive_witness :
  setup corefile_zero = Returns (Ok (reload settings_ex_zero)) ∧
  step (reload settings_ex_zero) NewTicker =
    Some (crash non_positive_interval (reload settings_ex_zero)).
Proof. apply NewTicker_non_positive; [vm_compute; reflexivity|done]. Defined.

Lemma second_shutdown_crashes_witness :
  Step plugin_stopped OnShutdown (crash close_of_closed_channel plugin_stopped).
Proof.
  apply (second_shutdown_crashes settings_ex events_stop);
    [apply Reachable_stopped|set_solver|reflexivity].
Defined.

Lemma tick_served_after_shutdown_witness :
  ∃ p, Reachable (reload settings_ex) [NewTicker; Tick; OnShutdown; SelectTick world_ok] p ∧
       plugin_reloadChan p = ChanClosed ∧
       plugin_process p = Running ∧
       plugin_v p = loaded_views (loadConfig world_ok settings_ex).
Proof. by apply tick_served_after_shutdown. Defined.

Lemma ticker_never_stopped_witness :
  Step plugin_stopped Tick (with_ticker (Some true) plugin_stopped).
Proof.
  apply (ticker_never_stopped settings_ex events_stop);
    [apply Reachable_stopped|reflexivity..].
Defined.
