(* ===== verification/Resolver.v ===== *)
(** * The query path: matching a client and resolving a query

    The handler that answers queries is not in [setup.go]; it reads the two
    fields [loadConfig] writes.  This file models it from the
    specification: the matcher of section 4.1 ([match_group]: the first
    group, in the order of the document, one of whose networks contains
    the client) and the resolver of section 4.4 ([resolve]: the group of
    the client, the record set of that name, the record of the normalised
    query name, and the test of the type; anything missing is a decline,
    [None]).

    Its purpose is to state what [loadConfig] means for a client: the
    theorems follow a query through the configuration [loadConfig] builds,
    down to the raw documents, and give the testable properties of section
    8 of the specification for the code of [setup.go]. *)

From Stdlib Require Import ZArith String Ascii List Lia.
From stdpp Require Import base tactics option list strings gmap.
From S2P Require Import Prelude GoStrings Libs Types Schema Netip DnsName Samples Corefile Fetch Build Loader.

(** What a query gets: the lifetime, the type and the value of a record. *)
Record Answer : Type := mkAnswer {
  Answer_TTL : Z;
  Answer_Type : Z;
  Answer_Value : string;
}.

#[global] Instance Answer_eq_dec : EqDecision Answer.
Proof. solve_decision. Defined.

Section resolver.
Context `{!DNSConsts, !NetTypes, !NetLib, !HostLib}.

(** One of the networks of the group contains the address. *)
Definition group_contains (ip : IP) (acl : ClientACL) : bool :=
  existsb (λ n, Contains n ip) (ClientACL_CIDRNets acl).

(** The first group that contains the address. *)
Definition find_group (acls : list ClientACL) (ip : IP) : option ClientACL :=
  List.find (group_contains ip) acls.

(** Section 4.1: the name of the first group that contains the address. *)
Definition match_group (acls : list ClientACL) (ip : IP) : option string :=
  ClientACL_Name <$> find_group acls ip.

(** The answer a record gives to a query of a type: none when the types
    differ or the type of the record is the zero type. *)
Definition answer_of (qtype : Z) (z : Zone) : option Answer :=
  if decide (Zone_Type z = qtype ∧ Zone_Type z ≠ 0%Z)
  then Some {| Answer_TTL := Zone_TTL z; Answer_Type := Zone_Type z;
               Answer_Value := Zone_Value z |}
  else None.

(** Section 4.4: the answer to a query, [None] for a decline. *)
Definition resolve (v : Views) (ip : IP) (qname : string) (qtype : Z)
    : option Answer :=
  view ← match_group (Views_ClientACLs v) ip;
  zones ← Views_ClientZones v !! view;
  z ← Zones_Z zones !! Normalize qname;
  answer_of qtype z.

(** ** The same, on the raw documents *)

(** A raw client one of whose valid prefixes contains the address. *)
Definition raw_contains (ip : IP) (client : RawClientACL) : bool :=
  existsb (λ n, Contains n ip) (valid_nets (RawClientACL_CIDRPrefixes client)).

(** The answer the documents give: the first raw client that contains the
    address, the last raw record set of its name, the last record of the
    normalised name in it. *)
Definition resolve_raw (clients : list RawClientACL) (records : list RawRecord)
    (ip : IP) (qname : string) (qtype : Z) : option Answer :=
  client ← List.find (raw_contains ip) clients;
  r ← last (filter (λ r, RawRecord_Name r = RawClientACL_Name client) records);
  e ← last (filter (λ e, zone_key e = Normalize qname) (RawRecord_Records r));
  answer_of qtype (make_Zone e).

End resolver.

(** ** The matcher *)

Section matcher_facts.
Context `{!DNSConsts, !NetTypes, !NetLib, !HostLib}.
Implicit Types (acl : ClientACL) (acls : list ClientACL) (ip : IP).

Lemma find_group_app acls1 acls2 ip :
  find_group (acls1 ++ acls2) ip =
  match find_group acls1 ip with
  | Some acl => Some acl
  | None => find_group acls2 ip
  end.
Proof.
  unfold find_group. induction acls1 as [|acl acls1 IH]; simpl; [done|].
  by destruct (group_contains ip acl).
Qed.

Lemma find_group_None acls ip :
  find_group acls ip = None ↔ Forall (λ acl, group_contains ip acl = false) acls.
Proof.
  unfold find_group. induction acls as [|acl acls IH]; simpl.
  - split; [constructor|done].
  - rewrite Forall_cons. destruct (group_contains ip acl); [|tauto].
    split; [done|]. by intros [? _].
Qed.

(** The group found is the first that contains the address. *)
Lemma find_group_Some acls ip acl :
  find_group acls ip = Some acl ↔
  ∃ acls1 acls2, acls = acls1 ++ acl :: acls2 ∧
    Forall (λ acl', group_contains ip acl' = false) acls1 ∧
    group_contains ip acl = true.
Proof.
  split.
  - unfold find_group. induction acls as [|acl' acls IH]; simpl; [done|].
    destruct (group_contains ip acl') eqn:Hc.
    + intros [= ->]. by exists [], acls.
    + intros (acls1 & acls2 & -> & Hall & Hin)%IH.
      exists (acl' :: acls1), acls2. by repeat constructor.
  - intros (acls1 & acls2 & -> & Hall%find_group_None & Hin).
    rewrite find_group_app, Hall. unfold find_group. simpl. by rewrite Hin.
Qed.

Lemma group_contains_nil ip name :
  group_contains ip {| ClientACL_Name := name; ClientACL_CIDRNets := [] |} = false.
Proof. done. Qed.

(** The group of a raw client contains what its valid prefixes contain. *)
Lemma group_contains_acl_of ip (client : RawClientACL) :
  group_contains ip (acl_of client) = raw_contains ip client.
Proof. done. Qed.

Lemma find_group_acl_of (clients : list RawClientACL) ip :
  find_group (acl_of <$> clients) ip = acl_of <$> List.find (raw_contains ip) clients.
Proof.
  unfold find_group. induction clients as [|client clients IH]; simpl; [done|].
  rewrite group_contains_acl_of. by destruct (raw_contains ip client).
Qed.

End matcher_facts.

(** ** A query through the configuration [loadConfig] builds *)

Section resolver_facts.
Context `{!DNSConsts, !NetTypes, !NetLib, !HostLib}.
Implicit Types (ip : IP) (e : RawRecordEntry) (qname : string) (qtype : Z).

(** [resolve] on a configuration built of two documents. *)
Lemma resolve_with_config v (clients : list RawClientACL) (records : list RawRecord)
    ip qname qtype :
  resolve (with_config v (acl_of <$> clients) (build_ClientZones records))
    ip qname qtype =
  resolve_raw clients records ip qname qtype.
Proof.
  unfold resolve, resolve_raw, match_group. simpl. rewrite find_group_acl_of.
  destruct (List.find _ clients) as [client|]; simpl; [|done].
  rewrite build_ClientZones_lookup. destruct (last _) as [r|]; simpl; [|done].
  rewrite build_Zones_lookup. by destruct (last _).
Qed.

Lemma answer_of_Some qtype z a :
  answer_of qtype z = Some a →
  Answer_Type a = qtype ∧ qtype ≠ 0%Z ∧ Zone_Type z = qtype ∧
  Answer_TTL a = Zone_TTL z ∧ Answer_Value a = Zone_Value z.
Proof.
  unfold answer_of. case_decide as Ht; [|done]. destruct Ht as [<- ?].
  by intros [= <-].
Qed.

Lemma resolve_raw_no_client clients records ip qname qtype :
  Forall (λ c, raw_contains ip c = false) clients →
  resolve_raw clients records ip qname qtype = None.
Proof.
  intros Hall. unfold resolve_raw.
  destruct (List.find _ clients) as [client|] eqn:Hfind; [|done].
  apply find_some in Hfind as [Hin%list_elem_of_In Hc].
  eapply Forall_forall in Hall; [|done]. congruence.
Qed.

End resolver_facts.

Section resolver_properties.
Context `{!SchemaConsts, !DNSConsts, !NetTypes, !NetLib, !HostLib, !HTTPTypes, !HTTPLib}.
Context `{!Decoder (list RawClientACL), !Decoder (list RawRecord)}.
Implicit Types (w : World) (v : Views) (ip : IP) (qname : string) (qtype : Z).

(** C4. What a client gets after a load is what the documents say: the
    answer of the resolver on the configuration [loadConfig] leaves is the
    record of the last raw record of the normalised query name, in the last
    record set named as the first raw client whose valid prefixes contain
    the client. *)
Theorem resolve_loadConfig w v ip qname qtype :
  resolve (loaded_views (loadConfig w v)) ip qname qtype =
  resolve_raw (fetch_out (client_fetch w v)) (fetch_out (record_fetch w v))
    ip qname qtype.
Proof. rewrite loadConfig_views. apply resolve_with_config. Qed.

(** C24. The order of the client document decides between groups: the
    client is matched to the first raw client one of whose valid prefixes
    contains it, whatever groups follow. *)
Theorem match_group_first (cs1 cs2 : list RawClientACL) c log ip :
  Forall (λ c', raw_contains ip c' = false) cs1 →
  raw_contains ip c = true →
  match_group (build_ClientACLs (cs1 ++ c :: cs2) log).1 ip =
  Some (RawClientACL_Name c).
Proof.
  intros Hcs1 Hc. rewrite build_ClientACLs_spec. unfold match_group. simpl.
  rewrite find_group_acl_of.
  replace (List.find _ _) with (Some c); [done|]. symmetry.
  induction Hcs1 as [|c' cs1 Hc' _ IH]; simpl; [by rewrite Hc|by rewrite Hc'].
Qed.

(** A client in no group is declined whatever it asks. *)
Theorem resolve_no_group w v ip qname qtype :
  Forall (λ c, raw_contains ip c = false) (fetch_out (client_fetch w v)) →
  resolve (loaded_views (loadConfig w v)) ip qname qtype = None.
Proof.
  intros Hall. rewrite loadConfig_views, resolve_with_config.
  by apply resolve_raw_no_client.
Qed.

(** C35. After a load whose client source could not be read, every query
    of every client is declined, whatever the plugin answered before. *)
Theorem resolve_after_failed_load w v e ip qname qtype :
  unreachable w (Views_ClientSchema v) (Views_Client v) e →
  resolve (loaded_views (loadConfig w v)) ip qname qtype = None.
Proof.
  intros Hun. rewrite loadConfig_views, resolve_with_config. unfold client_fetch.
  by destruct (fetch_unreachable (A:=list RawClientACL) w _ _ [] None e Hun)
    as [-> _].
Qed.

(** A record of a type that is none of A, AAAA, CNAME and TXT answers
    no query, of any type. *)
Theorem unknown_type_never_answers (e : RawRecordEntry) qtype :
  ToUpper (RawRecordEntry_Type e) ∉ ["A"; "AAAA"; "CNAME"; "TXT"] →
  answer_of qtype (make_Zone e) = None.
Proof.
  intros Ht%rrtype_of_zero. unfold answer_of. case_decide as Hz; [|done].
  by destruct Hz as [_ []].
Qed.

End resolver_properties.

(** ** With the names of [DnsName] and the networks of [Netip] *)

Section names_properties.
Context `{!DNSConsts}.

(** C25. A record entered under a name, in any case and with or without the
    trailing dot, is the one a query for the upper-case name with the
    trailing dot finds, when no later record has that name. *)
Theorem record_round_trip view (es : list RawRecordEntry) e n :
  IsFqdn n = false →
  ToLower (RawRecordEntry_Name e) = ToLower n ∨
    ToLower (RawRecordEntry_Name e) = ToLower (n +:+ ".") →
  Zones_Z (build_Zones (mkRawRecord view (es ++ [e])))
    !! Normalize (ToUpper n +:+ ".") = Some (make_Zone e).
Proof.
  intros Hn Hspelling. rewrite build_Zones_lookup. simpl.
  rewrite last_filter_middle; [done| |done]. unfold zone_key. simpl.
  by rewrite Normalize_name_query, (Normalize_name_spelling n).
Qed.

End names_properties.

(** The clients of the scenario of the specification. *)
Definition client_internal : IP := IPv4 10 5 5 5.
Definition client_external : IP := IPv4 198 51 100 1.

(** The scenario of section 8 of the specification, through
    [loadConfig]: the client of the internal network gets the internal
    address of the host, the other client the public one, each with the
    lifetime of the document; a name the document does not have, and a
    type the record does not have, are declined. *)
Example scenario_of_the_specification :
  resolve loaded_ex client_internal "host.example.com" TypeA =
    Some {| Answer_TTL := 300; Answer_Type := TypeA; Answer_Value := "10.1.2.3." |} ∧
  resolve loaded_ex client_external "host.example.com" TypeA =
    Some {| Answer_TTL := 300; Answer_Type := TypeA; Answer_Value := "203.0.113.9." |} ∧
  resolve loaded_ex client_internal "nope.example.com" TypeA = None ∧
  resolve loaded_ex client_external "nope.example.com" TypeA = None ∧
  resolve loaded_ex client_internal "host.example.com" TypeAAAA = None.
Proof. vm_compute. done. Qed.

(** Of two records of a name the later is the only one: the address of the
    host is lost to the record that follows it. *)
Example resolve_ex_single_type :
  resolve_raw clients_doc records_doc_twice client_internal "host.example.com" TypeA = None ∧
  resolve_raw clients_doc records_doc_twice client_internal "host.example.com" TypeAAAA =
    Some {| Answer_TTL := 60; Answer_Type := TypeAAAA; Answer_Value := "fd00::1." |}.
Proof. vm_compute. done. Qed.

(** The value of a record is normalised as a name is, whatever its type. *)
Example make_Zone_ex_txt :
  Zone_Value (make_Zone (mkRawRecordEntry "example.com" 60 "TXT" "v=spf1 include:Example.COM -All")) =
  "v=spf1 include:example.com -all.".
Proof. vm_compute. reflexivity. Qed.

Lemma match_group_first_witness :
  match_group (build_ClientACLs ([] ++ clients_doc) []).1 client_internal = Some "internal".
Proof.
  exact (match_group_first [] (drop 1 clients_doc)
    (mkRawClientACL "internal" ["10.0.0.0/8"]) [] client_internal
    (Forall_nil_2 _) eq_refl).
Defined.

Lemma resolve_no_group_witness :
  resolve (loaded_views (loadConfig world_cut settings_ex)) client_external
    "host.example.com" TypeA = None.
Proof.
  apply resolve_no_group. compute_done.
Defined.

Lemma resolve_after_failed_load_witness :
  resolve (loaded_views (loadConfig world_down loaded_ex)) client_internal
    "host.example.com" TypeA = None.
Proof.
  apply (resolve_after_failed_load world_down loaded_ex
    "open clients.yaml: no such file or directory"). by left.
Defined.

Lemma unknown_type_never_answers_witness :
  answer_of 15 (make_Zone (mkRawRecordEntry "mail.example.com" 60 "MX" "mx.example.com")) = None.
Proof. apply unknown_type_never_answers. vm_compute. set_solver. Defined.

Lemma record_round_trip_witness :
  Zones_Z (build_Zones (mkRawRecord "internal"
    ([] ++ [mkRawRecordEntry "Www.Example.com." 300 "A" "10.0.0.1"])))
    !! Normalize ("WWW.EXAMPLE.COM" +:+ ".") =
  Some (make_Zone (mkRawRecordEntry "Www.Example.com." 300 "A" "10.0.0.1")).
Proof.
  apply (record_round_trip "internal" [] _ "www.example.com"); [reflexivity|].
  by right.
Defined.
