(* ===== verification/Publish.v ===== *)
(** * The writes of [loadConfig], as a reader finds them ([setup.go]
      l.182-236)

    [loadConfig] does not build a configuration aside and publish it: it
    writes the two fields of the plugin [*v] in place, while the handler of
    the queries reads them.  It empties [v.ClientACLs] (l.182) and appends
    the groups one by one (l.196); then it replaces [v.ClientZones] by an
    empty map (l.202) and adds the record sets one by one (l.235).

    [loadConfig_writes] lists the values of [*v] after each of these
    writes, in order.  The theorems: the plugin after the write of each
    number ([loadConfig_writes_lookup]): the groups of a prefix of the
    client document with the old records, or the new groups with the
    record sets of a prefix of the record document; the last of them is
    the plugin [loadConfig] leaves; each keeps the settings; and a reader
    that comes after the first write finds no group, even when the
    documents have not changed.

    Not modelled: the accesses to one map or slice that overlap in time,
    which the memory model of Go leaves undefined; a reader here finds the
    plugin between two writes. *)

From Stdlib Require Import ZArith String Ascii List Lia.
From stdpp Require Import base tactics option list strings gmap.
From S2P Require Import Prelude GoStrings Libs Types Schema Netip DnsName Samples Corefile Fetch Build Loader Resolver.

Section publish.
Context `{!DNSConsts, !NetTypes, !NetLib, !HostLib}.

(** The values of [v.ClientACLs]: after l.182 and after each turn of the
    loop of l.184-200. *)
Definition ClientACLs_writes (rawClients : list RawClientACL) : list (list ClientACL) :=
  scanl (λ acls client, (client_step (acls, []) client).1) [] rawClients.

(** The values of [v.ClientZones]: after l.202 and after each turn of the
    loop of l.203-236. *)
Definition ClientZones_writes (rawRecords : list RawRecord) : list (gmap string Zones) :=
  scanl record_step ∅ rawRecords.

(** The values of [*v] after each write of [loadConfig], given the documents
    fetched: the groups are rebuilt while the records are still the old
    ones, then the records are rebuilt under the new groups. *)
Definition loadConfig_writes (rawClients : list RawClientACL)
    (rawRecords : list RawRecord) (v : Views) : list Views :=
  ((λ acls, with_config v acls (Views_ClientZones v))
     <$> ClientACLs_writes rawClients) ++
  ((λ zones, with_config v (build_ClientACLs rawClients []).1 zones)
     <$> ClientZones_writes rawRecords).

End publish.

Section publish_facts.
Context `{!DNSConsts, !NetTypes, !NetLib, !HostLib}.
Implicit Types (v : Views) (clients : list RawClientACL) (records : list RawRecord).

(** The groups do not depend on the log. *)
Lemma foldl_client_step_fst clients (acls : list ClientACL) :
  foldl (λ acls client, (client_step (acls, []) client).1) acls clients =
  acls ++ (acl_of <$> clients).
Proof.
  revert acls; induction clients as [|c clients IH]; intros acls; simpl.
  - by rewrite app_nil_r.
  - rewrite IH, client_step_spec. simpl. by rewrite <-app_assoc.
Qed.

Lemma elem_of_ClientACLs_writes clients acls :
  acls ∈ ClientACLs_writes clients ↔
  ∃ i, i ≤ length clients ∧ acls = acl_of <$> take i clients.
Proof.
  unfold ClientACLs_writes. rewrite elem_of_scanl.
  by setoid_rewrite foldl_client_step_fst.
Qed.

Lemma elem_of_ClientZones_writes records zones :
  zones ∈ ClientZones_writes records ↔
  ∃ j, j ≤ length records ∧ zones = build_ClientZones (take j records).
Proof. unfold ClientZones_writes. by rewrite elem_of_scanl. Qed.

Lemma ClientACLs_writes_head clients : head (ClientACLs_writes clients) = Some [].
Proof. apply scanl_head. Qed.

Lemma ClientZones_writes_last records :
  last (ClientZones_writes records) = Some (build_ClientZones records).
Proof. apply scanl_last. Qed.

Lemma loadConfig_writes_length clients records v :
  length (loadConfig_writes clients records v) =
  2 + length clients + length records.
Proof.
  unfold loadConfig_writes, ClientACLs_writes, ClientZones_writes.
  rewrite length_app, !length_fmap, !scanl_length. lia.
Qed.

(** The states a reader may find, one by one. *)
Lemma elem_of_loadConfig_writes clients records v v' :
  v' ∈ loadConfig_writes clients records v ↔
  (∃ i, i ≤ length clients ∧
     v' = with_config v (acl_of <$> take i clients) (Views_ClientZones v)) ∨
  (∃ j, j ≤ length records ∧
     v' = with_config v (acl_of <$> clients) (build_ClientZones (take j records))).
Proof.
  unfold loadConfig_writes.
  rewrite elem_of_app, !list_elem_of_fmap, build_ClientACLs_spec. simpl.
  setoid_rewrite elem_of_ClientACLs_writes.
  setoid_rewrite elem_of_ClientZones_writes. naive_solver.
Qed.

End publish_facts.

Section publish_properties.
Context `{!SchemaConsts, !DNSConsts, !NetTypes, !NetLib, !HostLib, !HTTPTypes, !HTTPLib}.
Context `{!Decoder (list RawClientACL), !Decoder (list RawRecord)}.
Implicit Types (w : World) (v : Views) (ip : IP) (qname : string) (qtype : Z).

(** The writes of [loadConfig] end in the plugin the call leaves: the
    last value of [*v] is the one [loadConfig] returns with. *)
Theorem loadConfig_writes_last w v :
  last (loadConfig_writes (fetch_out (client_fetch w v))
          (fetch_out (record_fetch w v)) v) =
  Some (loaded_views (loadConfig w v)).
Proof.
  unfold loadConfig_writes. rewrite last_app, fmap_last, ClientZones_writes_last.
  simpl. by rewrite build_ClientACLs_spec, loadConfig_views.
Qed.

(** C8. The plugin after each write of [loadConfig], in order: after the
    reset and each of the [append]s that follow, the groups of the raw
    clients read so far, in the order of the document, with the record
    sets of before the call; then, after the new map and each of the
    assignments that follow, all the groups with the record sets built
    from the raw record sets read so far; and there is no other write.
    The groups are complete before the first record set is replaced. *)
Theorem loadConfig_writes_lookup clients records v k :
  loadConfig_writes clients records v !! k =
  if decide (k ≤ length clients) then
    Some (with_config v (acl_of <$> take k clients) (Views_ClientZones v))
  else if decide (k ≤ S (length clients + length records)) then
    Some (with_config v (acl_of <$> clients)
            (build_ClientZones (take (k - S (length clients)) records)))
  else None.
Proof.
  unfold loadConfig_writes, ClientACLs_writes, ClientZones_writes.
  repeat case_decide.
  - rewrite lookup_app_l by (rewrite length_fmap, scanl_length; lia).
    rewrite list_lookup_fmap, scanl_lookup by done. simpl.
    by rewrite (foldl_client_step_fst _ []).
  - rewrite lookup_app_r by (rewrite length_fmap, scanl_length; lia).
    rewrite length_fmap, scanl_length, list_lookup_fmap, scanl_lookup by lia.
    simpl. by rewrite build_ClientACLs_spec.
  - apply lookup_ge_None_2.
    rewrite length_app, !length_fmap, !scanl_length. lia.
Qed.

(** Between the writes of [loadConfig] a reader finds the groups of a
    prefix of the client document with the records of before the call, or
    all the new groups with the record sets of a prefix of the record
    document, and nothing else; the settings are never touched. *)
Theorem loadConfig_writes_states clients records v v' :
  v' ∈ loadConfig_writes clients records v →
  same_settings v' v ∧
  ((∃ i, i ≤ length clients ∧ Views_ClientACLs v' = acl_of <$> take i clients ∧
         Views_ClientZones v' = Views_ClientZones v) ∨
   (∃ j, j ≤ length records ∧ Views_ClientACLs v' = acl_of <$> clients ∧
         Views_ClientZones v' = build_ClientZones (take j records))).
Proof.
  intros [(i & Hi & ->)|(j & Hj & ->)]%elem_of_loadConfig_writes;
    (split; [apply with_config_settings|]); [left|right]; eauto.
Qed.

(** C15. Every load goes through a state without any group: a query that
    comes after the first write and before the second is declined, though
    the plugin answered it before the load and answers it after, the
    documents being the same. *)
Theorem loadConfig_writes_window clients records v ip qname qtype :
  ∃ v', head (loadConfig_writes clients records v) = Some v' ∧
        resolve v' ip qname qtype = None.
Proof.
  exists (with_config v [] (Views_ClientZones v)).
  split; [by destruct clients|done].
Qed.

End publish_properties.

(** ** On the documents of [Samples] *)

(** The groups are renamed in the client document and the record document
    follows: between the two loops a client of the new group [lan] gets
    nothing, the records being still those of [internal]. *)
Definition clients_renamed : list RawClientACL :=
  [ {| RawClientACL_Name := "lan"; RawClientACL_CIDRPrefixes := ["10.0.0.0/8"] |} ].

Definition records_renamed : list RawRecord :=
  [ {| RawRecord_Name := "lan"; RawRecord_Records := [host_record "10.1.2.3"] |} ].

Example loadConfig_writes_ex_answers :
  (λ v', Answer_Value <$> resolve v' client_internal "host.example.com" TypeA)
    <$> loadConfig_writes clients_renamed records_renamed loaded_ex =
  [None; None; None; Some "10.1.2.3."].
Proof. vm_compute. reflexivity. Qed.

(** With the documents unchanged the answer comes and goes. *)
Example loadConfig_writes_ex_unchanged :
  (λ v', Answer_Value <$> resolve v' client_external "host.example.com" TypeA)
    <$> loadConfig_writes clients_doc records_doc loaded_ex =
  [None; None; Some "203.0.113.9."; None; None; Some "203.0.113.9."].
Proof. vm_compute. reflexivity. Qed.

Lemma loadConfig_writes_states_witness :
  same_settings (with_config loaded_ex [] (Views_ClientZones loaded_ex)) loaded_ex ∧
  ((∃ i, i ≤ length clients_doc ∧
      Views_ClientACLs (with_config loaded_ex [] (Views_ClientZones loaded_ex)) =
        acl_of <$> take i clients_doc ∧
      Views_ClientZones (with_config loaded_ex [] (Views_ClientZones loaded_ex)) =
        Views_ClientZones loaded_ex) ∨
   (∃ j, j ≤ length records_doc ∧
      Views_ClientACLs (with_config loaded_ex [] (Views_ClientZones loaded_ex)) =
        acl_of <$> clients_doc ∧
      Views_ClientZones (with_config loaded_ex [] (Views_ClientZones loaded_ex)) =
        build_ClientZones (take j records_doc))).
Proof.
  apply (loadConfig_writes_states clients_doc records_doc loaded_ex).
  apply list_elem_of_here.
Defined.
