(* ===== verification/Dispenser.v ===== *)
(** * The dispenser of tokens behind [caddy.Controller]

    [parse] reads the Corefile through five methods of the controller:
    [Next], [NextBlock], [Val] and [RemainingArgs] (and [NextArg], which
    the last two of them call).  They belong to the [Dispenser] of
    [coredns/caddy], whose state is the tokens of the directive, a cursor
    and a nesting depth.  This file models them from the documentation and
    the behaviour of that library: each method is a function of the
    dispenser that returns the result and the dispenser after the call.

    The cursor is a Go [int] that starts at [-1]; it is a [Z].  The loop of
    [RemainingArgs] runs on fuel, [S (length tokens)] turns, which the
    theorems show to be enough: each turn that does not leave the loop
    moves the cursor forward, and the cursor never passes the last token.

    The theorems: the cursor stays between [-1] and the last token
    ([Dispenser_wf], kept by every method), so that [Val] never indexes
    outside the tokens; no method moves the cursor back past where a call
    to [Next] had put it; the arguments [RemainingArgs] returns are the
    tokens that follow on the line, up to an opening brace; and what
    each method does to the dispenser [on pre post] that has read [pre]
    and has [post] to read. *)

From Stdlib Require Import ZArith String Ascii List Lia.
From stdpp Require Import base tactics option list strings.
From S2P Require Import Prelude GoStrings.

(** ** The state *)

(** A token: the file and the line it was read at, and its text. *)
Record Token : Type := mkToken {
  Token_File : string;
  Token_Line : Z;
  Token_Text : string;
}.

#[global] Instance Token_eq_dec : EqDecision Token.
Proof. solve_decision. Defined.

Record Dispenser : Type := mkDispenser {
  Dispenser_tokens : list Token;
  Dispenser_cursor : Z;
  Dispenser_nesting : Z;
}.

#[global] Instance Dispenser_eq_dec : EqDecision Dispenser.
Proof. solve_decision. Defined.

(** [NewDispenserTokens]: the cursor is before the first token. *)
Definition NewDispenser (tokens : list Token) : Dispenser :=
  {| Dispenser_tokens := tokens; Dispenser_cursor := -1; Dispenser_nesting := 0 |}.

Definition with_cursor (cursor : Z) (d : Dispenser) : Dispenser :=
  {| Dispenser_tokens := Dispenser_tokens d; Dispenser_cursor := cursor;
     Dispenser_nesting := Dispenser_nesting d |}.

Definition with_nesting (nesting : Z) (d : Dispenser) : Dispenser :=
  {| Dispenser_tokens := Dispenser_tokens d; Dispenser_cursor := Dispenser_cursor d;
     Dispenser_nesting := nesting |}.

(** [len(d.tokens)] *)
Definition len (d : Dispenser) : Z := Z.of_nat (length (Dispenser_tokens d)).

(** [d.tokens[i]], when [i] is an index of the tokens. *)
Definition token_at (d : Dispenser) (i : Z) : option Token :=
  if decide (0 ≤ i)%Z then Dispenser_tokens d !! Z.to_nat i else None.

(** ** The methods *)

(** [Val]: the text of the token under the cursor, empty when there is
    none. *)
Definition Dispenser_Val (d : Dispenser) : string :=
  from_option Token_Text "" (token_at d (Dispenser_cursor d)).

(** [Next]: to the next token, if there is one. *)
Definition Dispenser_Next (d : Dispenser) : bool * Dispenser :=
  if decide (Dispenser_cursor d < len d - 1)%Z
  then (true, with_cursor (Dispenser_cursor d + 1) d)
  else (false, d).

(** [strings.Count(s, "\n")] *)
Fixpoint count_newlines (s : string) : Z :=
  match s with
  | EmptyString => 0
  | String c s =>
      (if Ascii.eqb c "010" then 1 else 0) + count_newlines s
  end.

(** The test of [NextArg]: the token after [t] is in the same file and on
    the line where [t] ends, [t.Line + numLineBreaks] lines down. *)
Definition same_line (t t' : Token) : bool :=
  String.eqb (Token_File t) (Token_File t') &&
  (Token_Line t + count_newlines (Token_Text t) =? Token_Line t')%Z.

(** [NextArg]: to the next token, if it is on the same line. *)
Definition Dispenser_NextArg (d : Dispenser) : bool * Dispenser :=
  if decide (Dispenser_cursor d < 0)%Z
  then (true, with_cursor (Dispenser_cursor d + 1) d)
  else if decide (len d ≤ Dispenser_cursor d)%Z then (false, d)
  else
    match token_at d (Dispenser_cursor d), token_at d (Dispenser_cursor d + 1) with
    | Some t, Some t' =>
        if same_line t t' then (true, with_cursor (Dispenser_cursor d + 1) d)
        else (false, d)
    | _, _ => (false, d)
    end.

(** The loop of [RemainingArgs]: [for d.NextArg() { if d.Val() == "{"
    { d.cursor--; break }; args = append(args, d.Val()) }]. *)
Fixpoint RemainingArgs_loop (fuel : nat) (d : Dispenser) (args : list string)
    : list string * Dispenser :=
  match fuel with
  | 0 => (args, d)
  | S fuel =>
      let '(more, d) := Dispenser_NextArg d in
      if more then
        if String.eqb (Dispenser_Val d) "{"
        then (args, with_cursor (Dispenser_cursor d - 1) d)
        else RemainingArgs_loop fuel d (args ++ [Dispenser_Val d])
      else (args, d)
  end.

(** [RemainingArgs]: the tokens that follow on the line, up to an opening
    brace. *)
Definition Dispenser_RemainingArgs (d : Dispenser) : list string * Dispenser :=
  RemainingArgs_loop (S (length (Dispenser_tokens d))) d [].

(** [NextBlock]: into the block that opens on this line, then from line to
    line of it, until its closing brace. *)
Definition Dispenser_NextBlock (d : Dispenser) : bool * Dispenser :=
  if decide (0 < Dispenser_nesting d)%Z then
    let '(_, d) := Dispenser_Next d in
    if String.eqb (Dispenser_Val d) "}"
    then (false, with_nesting (Dispenser_nesting d - 1) d)
    else (true, d)
  else
    let '(more, d) := Dispenser_NextArg d in
    if negb more then (false, d)
    else if negb (String.eqb (Dispenser_Val d) "{")
    then (false, with_cursor (Dispenser_cursor d - 1) d)
    else
      let '(_, d) := Dispenser_Next d in
      if String.eqb (Dispenser_Val d) "}" then (false, d)
      else (true, with_nesting (Dispenser_nesting d + 1) d).

(** ** The cursor *)

(** The cursor is before the first token, or on a token; on an empty
    dispenser [NextArg] may put it at [0]. *)
Definition Dispenser_wf (d : Dispenser) : Prop :=
  (-1 ≤ Dispenser_cursor d ≤ Z.max (len d - 1) 0)%Z.

(** [d'] has the tokens of [d] and its cursor is not before that of [d]. *)
Definition advances (d d' : Dispenser) : Prop :=
  Dispenser_tokens d' = Dispenser_tokens d ∧
  (Dispenser_cursor d ≤ Dispenser_cursor d')%Z.

(** ** Positions *)

(** The dispenser that has read [pre] and has [post] to read: its cursor
    is on the last token of [pre]. *)
Definition on (pre post : list Token) (nesting : Z) : Dispenser :=
  {| Dispenser_tokens := pre ++ post;
     Dispenser_cursor := Z.of_nat (length pre) - 1;
     Dispenser_nesting := nesting |}.

(** The tokens [ts] are the rest of the line of [t], arguments all of
    them, and [post] starts on another line. *)
Fixpoint rest_of_line (t : Token) (ts post : list Token) : Prop :=
  match ts with
  | [] => match post with [] => True | t' :: _ => same_line t t' = false end
  | t' :: ts =>
      same_line t t' = true ∧ Token_Text t' ≠ "{" ∧ rest_of_line t' ts post
  end.

#[global] Instance Dispenser_wf_dec d : Decision (Dispenser_wf d).
Proof. unfold Dispenser_wf. apply _. Defined.

#[global] Instance advances_preorder : PreOrder advances.
Proof.
  split.
  - by intros d.
  - intros d1 d2 d3 [Ht1 Hc1] [Ht2 Hc2]. split; [congruence|lia].
Qed.

Section cursor.
Implicit Types (d : Dispenser) (t : Token).

Lemma len_with_cursor c d : len (with_cursor c d) = len d.
Proof. done. Qed.

Lemma NewDispenser_wf tokens : Dispenser_wf (NewDispenser tokens).
Proof. unfold Dispenser_wf. simpl. lia. Qed.

Lemma advances_len d d' : advances d d' → len d' = len d.
Proof. unfold len. by intros [-> _]. Qed.

Lemma token_at_Some d i t :
  token_at d i = Some t → (0 ≤ i < len d)%Z.
Proof.
  unfold token_at, len. case_decide; [|done].
  intros Hi%lookup_lt_Some. lia.
Qed.

(** [Next] moves the cursor by one when it returns [true], and not at all
    when it returns [false], which it does exactly on the last token. *)
Lemma Dispenser_Next_true d :
  (Dispenser_cursor d < len d - 1)%Z →
  Dispenser_Next d = (true, with_cursor (Dispenser_cursor d + 1) d).
Proof. unfold Dispenser_Next. intros. by rewrite decide_True. Qed.

Lemma Dispenser_Next_false d :
  (len d - 1 ≤ Dispenser_cursor d)%Z → Dispenser_Next d = (false, d).
Proof. unfold Dispenser_Next. intros. by rewrite decide_False by lia. Qed.

Lemma Dispenser_Next_cursor d :
  Dispenser_cursor (Dispenser_Next d).2 =
  (Dispenser_cursor d + if (Dispenser_Next d).1 then 1 else 0)%Z.
Proof. unfold Dispenser_Next. case_decide; simpl; lia. Qed.

Lemma Dispenser_Next_nesting d :
  Dispenser_nesting (Dispenser_Next d).2 = Dispenser_nesting d.
Proof. unfold Dispenser_Next. by case_decide. Qed.

Lemma Dispenser_Next_advances d : advances d (Dispenser_Next d).2.
Proof.
  split; [unfold Dispenser_Next; by case_decide|].
  rewrite Dispenser_Next_cursor. destruct (Dispenser_Next d).1; lia.
Qed.

Lemma Dispenser_Next_wf d : Dispenser_wf d → Dispenser_wf (Dispenser_Next d).2.
Proof.
  unfold Dispenser_Next, Dispenser_wf. case_decide; simpl; [|done].
  rewrite len_with_cursor. lia.
Qed.

(** [NextArg] by cases: it moves the cursor by one, from before the first
    token or to a token on the same line, or leaves the dispenser alone. *)
Lemma Dispenser_NextArg_cases d :
  (Dispenser_NextArg d = (true, with_cursor (Dispenser_cursor d + 1) d) ∧
   ((Dispenser_cursor d < 0)%Z ∨
    ∃ t t', token_at d (Dispenser_cursor d) = Some t ∧
            token_at d (Dispenser_cursor d + 1) = Some t' ∧
            same_line t t' = true)) ∨
  (Dispenser_NextArg d = (false, d) ∧ (0 ≤ Dispenser_cursor d)%Z).
Proof.
  unfold Dispenser_NextArg.
  destruct (decide (Dispenser_cursor d < 0)%Z); [by auto|].
  destruct (decide (len d ≤ Dispenser_cursor d)%Z); [right; split; [done|lia]|].
  destruct (token_at d (Dispenser_cursor d)) as [t|] eqn:Ht;
    [|right; split; [done|lia]].
  destruct (token_at d (Dispenser_cursor d + 1)) as [t'|] eqn:Ht';
    [|right; split; [done|lia]].
  destruct (same_line t t') eqn:Hline; [left|right; split; [done|lia]].
  split; [done|]. right. by exists t, t'.
Qed.

Lemma Dispenser_NextArg_cursor d :
  Dispenser_cursor (Dispenser_NextArg d).2 =
  (Dispenser_cursor d + if (Dispenser_NextArg d).1 then 1 else 0)%Z.
Proof.
  destruct (Dispenser_NextArg_cases d) as [[-> _]|[-> _]]; simpl; lia.
Qed.

Lemma Dispenser_NextArg_tokens d :
  Dispenser_tokens (Dispenser_NextArg d).2 = Dispenser_tokens d.
Proof. by destruct (Dispenser_NextArg_cases d) as [[-> _]|[-> _]]. Qed.

Lemma Dispenser_NextArg_nesting d :
  Dispenser_nesting (Dispenser_NextArg d).2 = Dispenser_nesting d.
Proof. by destruct (Dispenser_NextArg_cases d) as [[-> _]|[-> _]]. Qed.

Lemma Dispenser_NextArg_advances d : advances d (Dispenser_NextArg d).2.
Proof.
  split; [apply Dispenser_NextArg_tokens|].
  rewrite Dispenser_NextArg_cursor. destruct (Dispenser_NextArg d).1; lia.
Qed.

(** [NextArg] returns [true] only with the cursor before the last token,
    or on an empty dispenser. *)
Lemma Dispenser_NextArg_true_bound d :
  Dispenser_wf d → (Dispenser_NextArg d).1 = true →
  (Dispenser_cursor d < Z.max (len d - 1) 0)%Z.
Proof.
  unfold Dispenser_wf.
  destruct (Dispenser_NextArg_cases d)
    as [[-> [?|(t & t' & _ & Ht'%token_at_Some & _)]]|[-> _]]; simpl;
    [lia|lia|done].
Qed.

Lemma Dispenser_NextArg_wf d :
  Dispenser_wf d → Dispenser_wf (Dispenser_NextArg d).2.
Proof.
  intros Hwf. pose proof (Dispenser_NextArg_true_bound d Hwf) as Hb.
  pose proof (Dispenser_NextArg_cursor d) as Hc. revert Hwf Hb Hc.
  unfold Dispenser_wf, len.
  rewrite Dispenser_NextArg_tokens. destruct (Dispenser_NextArg d).1; lia.
Qed.

End cursor.

(** ** [RemainingArgs] *)

Section remaining_args.
Implicit Types (d : Dispenser) (t : Token) (args : list string).

Lemma RemainingArgs_loop_advances fuel d args :
  advances d (RemainingArgs_loop fuel d args).2.
Proof.
  revert d args; induction fuel as [|fuel IH]; intros d args; simpl; [done|].
  pose proof (Dispenser_NextArg_cursor d) as Hc.
  pose proof (Dispenser_NextArg_tokens d) as Ht.
  destruct (Dispenser_NextArg d) as [[] d']; simpl in *; [|split; [done|lia]].
  destruct (String.eqb _ _); simpl; [split; simpl; [done|lia]|].
  etrans; [|apply IH]. split; [done|lia].
Qed.

Lemma RemainingArgs_loop_wf fuel d args :
  Dispenser_wf d → Dispenser_wf (RemainingArgs_loop fuel d args).2.
Proof.
  revert d args; induction fuel as [|fuel IH]; intros d args Hwf; simpl; [done|].
  pose proof (Dispenser_NextArg_wf d Hwf) as Hwf'.
  pose proof (Dispenser_NextArg_cursor d) as Hc.
  destruct (Dispenser_NextArg d) as [[] d']; simpl in *; [|done].
  destruct (String.eqb _ _); simpl; [|by apply IH].
  revert Hwf Hwf'. unfold Dispenser_wf. rewrite len_with_cursor. simpl. lia.
Qed.

Lemma RemainingArgs_loop_nesting fuel d args :
  Dispenser_nesting (RemainingArgs_loop fuel d args).2 = Dispenser_nesting d.
Proof.
  revert d args; induction fuel as [|fuel IH]; intros d args; simpl; [done|].
  pose proof (Dispenser_NextArg_nesting d) as Hn.
  destruct (Dispenser_NextArg d) as [[] d']; simpl in *; [|done].
  destruct (String.eqb _ _); simpl; [done|]. by rewrite IH.
Qed.

(** The loop ends before its fuel does: with as many turns as there are
    tokens after the cursor, one turn more changes nothing. *)
Lemma RemainingArgs_loop_fuel fuel d args :
  Dispenser_wf d →
  (len d - Dispenser_cursor d ≤ Z.of_nat fuel)%Z →
  RemainingArgs_loop (S fuel) d args = RemainingArgs_loop fuel d args.
Proof.
  revert d args; induction fuel as [|fuel IH]; intros d args Hwf Hfuel.
  - simpl. pose proof (Dispenser_NextArg_true_bound d Hwf) as Hb.
    destruct (Dispenser_NextArg_cases d) as [[Hn _]|[-> _]]; [|done].
    rewrite Hn in Hb. specialize (Hb eq_refl). unfold Dispenser_wf, len in *. lia.
  - change (RemainingArgs_loop (S (S fuel)) d args) with
      (let '(more, d') := Dispenser_NextArg d in
       if more then
         if String.eqb (Dispenser_Val d') "{"
         then (args, with_cursor (Dispenser_cursor d' - 1) d')
         else RemainingArgs_loop (S fuel) d' (args ++ [Dispenser_Val d'])
       else (args, d')).
    change (RemainingArgs_loop (S fuel) d args) with
      (let '(more, d') := Dispenser_NextArg d in
       if more then
         if String.eqb (Dispenser_Val d') "{"
         then (args, with_cursor (Dispenser_cursor d' - 1) d')
         else RemainingArgs_loop fuel d' (args ++ [Dispenser_Val d'])
       else (args, d')).
    pose proof (Dispenser_NextArg_wf d Hwf) as Hwf'.
    pose proof (Dispenser_NextArg_cursor d) as Hc.
    pose proof (advances_len _ _ (Dispenser_NextArg_advances d)) as Hlen.
    destruct (Dispenser_NextArg d) as [[] d']; simpl in *; [|done].
    destruct (String.eqb _ _); [done|]. apply IH; [done|lia].
Qed.

Lemma RemainingArgs_loop_fuel_le fuel fuel' d args :
  Dispenser_wf d →
  (len d - Dispenser_cursor d ≤ Z.of_nat fuel)%Z → fuel ≤ fuel' →
  RemainingArgs_loop fuel' d args = RemainingArgs_loop fuel d args.
Proof.
  intros Hwf Hfuel. induction 1 as [|fuel' Hle IH]; [done|].
  rewrite RemainingArgs_loop_fuel by (done || lia). done.
Qed.

Lemma Dispenser_RemainingArgs_advances d : advances d (Dispenser_RemainingArgs d).2.
Proof. apply RemainingArgs_loop_advances. Qed.

Lemma Dispenser_RemainingArgs_wf d :
  Dispenser_wf d → Dispenser_wf (Dispenser_RemainingArgs d).2.
Proof. apply RemainingArgs_loop_wf. Qed.

Lemma Dispenser_RemainingArgs_nesting d :
  Dispenser_nesting (Dispenser_RemainingArgs d).2 = Dispenser_nesting d.
Proof. apply RemainingArgs_loop_nesting. Qed.

(** On the last token, or past it, there is no argument left. *)
Lemma Dispenser_RemainingArgs_last d :
  (0 ≤ Dispenser_cursor d)%Z → (len d - 1 ≤ Dispenser_cursor d)%Z →
  Dispenser_RemainingArgs d = ([], d).
Proof.
  intros H0 Hlast. unfold Dispenser_RemainingArgs. simpl.
  destruct (Dispenser_NextArg_cases d)
    as [[_ [?|(t & t' & _ & Ht'%token_at_Some & _)]]|[-> _]]; [lia|lia|done].
Qed.

End remaining_args.

(** ** [NextBlock] *)

Section next_block.
Implicit Types (d : Dispenser).

Lemma Dispenser_NextBlock_advances d : advances d (Dispenser_NextBlock d).2.
Proof.
  unfold Dispenser_NextBlock. case_decide.
  - pose proof (Dispenser_Next_advances d) as Hn.
    destruct (Dispenser_Next d) as [b d1]. by destruct (String.eqb _ _).
  - pose proof (Dispenser_NextArg_advances d) as Ha.
    pose proof (Dispenser_NextArg_cursor d) as Hc.
    destruct (Dispenser_NextArg d) as [[] d1]; simpl in *; [|done].
    destruct (String.eqb (Dispenser_Val d1) "{"); simpl.
    + pose proof (Dispenser_Next_advances d1) as Hn.
      destruct (Dispenser_Next d1) as [b d2]. simpl in *.
      destruct (String.eqb _ _); simpl; by etrans.
    + destruct Ha as [Ht _]. split; simpl; [done|lia].
Qed.

Lemma Dispenser_NextBlock_wf d :
  Dispenser_wf d → Dispenser_wf (Dispenser_NextBlock d).2.
Proof.
  intros Hwf. unfold Dispenser_NextBlock. case_decide.
  - pose proof (Dispenser_Next_wf d Hwf) as Hn.
    destruct (Dispenser_Next d) as [b d1]. by destruct (String.eqb _ _).
  - pose proof (Dispenser_NextArg_wf d Hwf) as Ha.
    pose proof (Dispenser_NextArg_cursor d) as Hc.
    pose proof (advances_len _ _ (Dispenser_NextArg_advances d)) as Hlen.
    destruct (Dispenser_NextArg d) as [[] d1]; simpl in *; [|done].
    destruct (String.eqb (Dispenser_Val d1) "{"); simpl.
    + pose proof (Dispenser_Next_wf d1 Ha) as Hn.
      destruct (Dispenser_Next d1) as [b d2]. simpl in *.
      by destruct (String.eqb _ _).
    + revert Hwf. unfold Dispenser_wf. rewrite len_with_cursor, Hlen. simpl. lia.
Qed.

(** When [NextBlock] returns [true] the cursor has moved forward, unless
    it was on the last token, inside a block that is not closed. *)
Lemma Dispenser_NextBlock_true d :
  (Dispenser_NextBlock d).1 = true →
  (Dispenser_cursor d < Dispenser_cursor (Dispenser_NextBlock d).2)%Z ∨
  ((Dispenser_NextBlock d).2 = d ∧ (len d - 1 ≤ Dispenser_cursor d)%Z).
Proof.
  unfold Dispenser_NextBlock. case_decide.
  - unfold Dispenser_Next. case_decide; simpl.
    + destruct (String.eqb _ _); simpl; [done|]. intros _. left. lia.
    + destruct (String.eqb _ _); simpl; [done|]. intros _. right. split; [done|lia].
  - pose proof (Dispenser_NextArg_cursor d) as Hc.
    destruct (Dispenser_NextArg d) as [[] d1]; simpl in *; [|done].
    destruct (String.eqb (Dispenser_Val d1) "{"); simpl; [|done].
    pose proof (Dispenser_Next_advances d1) as [_ Hn].
    destruct (Dispenser_Next d1) as [b d2]. simpl in *.
    destruct (String.eqb _ _); simpl; [done|]. intros _. left. lia.
Qed.

(** [parse] opens one block at a time: the depth is [0] outside a block
    and [1] inside, and [NextBlock] returns [true] exactly inside. *)
Lemma Dispenser_NextBlock_nesting d :
  (0 ≤ Dispenser_nesting d ≤ 1)%Z →
  Dispenser_nesting (Dispenser_NextBlock d).2 =
  if (Dispenser_NextBlock d).1 then 1%Z else 0%Z.
Proof.
  intros Hn. unfold Dispenser_NextBlock. case_decide.
  - pose proof (Dispenser_Next_nesting d) as Hd.
    destruct (Dispenser_Next d) as [b d1]. simpl in Hd.
    destruct (String.eqb _ _); simpl; lia.
  - pose proof (Dispenser_NextArg_nesting d) as Hd.
    destruct (Dispenser_NextArg d) as [[] d1]; simpl in *; [|lia].
    destruct (String.eqb (Dispenser_Val d1) "{"); simpl; [|lia].
    pose proof (Dispenser_Next_nesting d1) as Hd1.
    destruct (Dispenser_Next d1) as [b d2]. simpl in Hd1.
    destruct (String.eqb _ _); simpl; lia.
Qed.

End next_block.

(** ** The text under the cursor *)

Lemma Dispenser_Val_outside d :
  (Dispenser_cursor d < 0 ∨ len d ≤ Dispenser_cursor d)%Z → Dispenser_Val d = "".
Proof.
  intros Hc. unfold Dispenser_Val.
  destruct (token_at d (Dispenser_cursor d)) as [t|] eqn:Ht; [|done].
  apply token_at_Some in Ht. lia.
Qed.

(** ** The dispenser at a position *)

Section position.
Implicit Types (pre post ts : list Token) (t : Token) (n : Z).

Lemma NewDispenser_on tokens : NewDispenser tokens = on [] tokens 0.
Proof. done. Qed.

Lemma with_cursor_on pre t post n :
  with_cursor (Dispenser_cursor (on pre (t :: post) n) + 1) (on pre (t :: post) n) =
  on (pre ++ [t]) post n.
Proof.
  unfold with_cursor, on. simpl. f_equal.
  - by rewrite <- app_assoc.
  - rewrite length_app. simpl. lia.
Qed.

Lemma len_on pre post n : len (on pre post n) = Z.of_nat (length pre + length post).
Proof. unfold len, on. simpl. by rewrite length_app. Qed.

Lemma token_at_middle d pre t post :
  Dispenser_tokens d = pre ++ t :: post →
  token_at d (Z.of_nat (length pre)) = Some t.
Proof.
  intros Ht. unfold token_at. rewrite decide_True by lia.
  rewrite Nat2Z.id, Ht. by apply list_lookup_middle.
Qed.

Lemma cursor_on_snoc pre t post n :
  Dispenser_cursor (on (pre ++ [t]) post n) = Z.of_nat (length pre).
Proof. simpl. rewrite length_app. simpl. lia. Qed.

Lemma Dispenser_Val_on pre t post n :
  Dispenser_Val (on (pre ++ [t]) post n) = Token_Text t.
Proof.
  unfold Dispenser_Val. rewrite cursor_on_snoc.
  rewrite (token_at_middle _ pre t post); [done|]. simpl. by rewrite <- app_assoc.
Qed.

Lemma Dispenser_Next_on pre t post n :
  Dispenser_Next (on pre (t :: post) n) = (true, on (pre ++ [t]) post n).
Proof.
  rewrite Dispenser_Next_true, with_cursor_on; [done|].
  rewrite len_on. simpl. lia.
Qed.

Lemma Dispenser_Next_on_nil pre n :
  Dispenser_Next (on pre [] n) = (false, on pre [] n).
Proof. apply Dispenser_Next_false. rewrite len_on. simpl. lia. Qed.

Lemma Dispenser_NextArg_on pre t t' post n :
  Dispenser_NextArg (on (pre ++ [t]) (t' :: post) n) =
  if same_line t t' then (true, on ((pre ++ [t]) ++ [t']) post n)
  else (false, on (pre ++ [t]) (t' :: post) n).
Proof.
  unfold Dispenser_NextArg.
  rewrite <- (with_cursor_on (pre ++ [t]) t' post n), !cursor_on_snoc.
  rewrite decide_False by lia.
  rewrite decide_False by (rewrite len_on, length_app; simpl; lia).
  rewrite (token_at_middle _ pre t (t' :: post)) by (simpl; by rewrite <- app_assoc).
  replace (Z.of_nat (length pre) + 1)%Z with (Z.of_nat (length (pre ++ [t])))
    by (rewrite length_app; simpl; lia).
  by rewrite (token_at_middle _ (pre ++ [t]) t' post).
Qed.

Lemma Dispenser_NextArg_on_nil pre t n :
  Dispenser_NextArg (on (pre ++ [t]) [] n) = (false, on (pre ++ [t]) [] n).
Proof.
  unfold Dispenser_NextArg. rewrite !cursor_on_snoc.
  rewrite decide_False by lia.
  rewrite decide_False by (rewrite len_on, length_app; simpl; lia).
  replace (token_at _ (_ + 1)) with (@None Token); [by case_match|].
  symmetry. unfold token_at. case_decide; [|done].
  apply lookup_ge_None_2. simpl. rewrite app_nil_r, length_app. simpl. lia.
Qed.

(** [RemainingArgs] returns the rest of the line and leaves the cursor on
    its last token. *)
Lemma RemainingArgs_loop_on fuel pre t ts post n args :
  length ts < fuel → rest_of_line t ts post →
  RemainingArgs_loop fuel (on (pre ++ [t]) (ts ++ post) n) args =
  (args ++ map Token_Text ts, on (pre ++ t :: ts) post n).
Proof.
  revert fuel pre t args; induction ts as [|t' ts IH];
    intros [|fuel] pre t args Hfuel Hline; simpl in *; try lia.
  - rewrite app_nil_r. destruct post as [|t' post].
    + by rewrite Dispenser_NextArg_on_nil.
    + by rewrite Dispenser_NextArg_on, Hline.
  - destruct Hline as (Hsame & Hbrace & Hline).
    rewrite Dispenser_NextArg_on, Hsame, Dispenser_Val_on.
    apply String.eqb_neq in Hbrace as ->.
    rewrite IH by (done || lia). by rewrite <- !app_assoc.
Qed.

Lemma Dispenser_RemainingArgs_on pre t ts post n :
  rest_of_line t ts post →
  Dispenser_RemainingArgs (on (pre ++ [t]) (ts ++ post) n) =
  (map Token_Text ts, on (pre ++ t :: ts) post n).
Proof.
  intros Hline. unfold Dispenser_RemainingArgs.
  rewrite RemainingArgs_loop_on; [done| |done].
  simpl. rewrite !length_app. lia.
Qed.

(** [NextBlock] inside a block: to the next line, or out of the block at
    its closing brace. *)
Lemma Dispenser_NextBlock_on pre t post :
  Dispenser_NextBlock (on pre (t :: post) 1) =
  if String.eqb (Token_Text t) "}" then (false, on (pre ++ [t]) post 0)
  else (true, on (pre ++ [t]) post 1).
Proof.
  unfold Dispenser_NextBlock. rewrite decide_True by done.
  by rewrite Dispenser_Next_on, Dispenser_Val_on.
Qed.

Lemma Dispenser_NextBlock_close pre t post :
  Token_Text t = "}" →
  Dispenser_NextBlock (on pre (t :: post) 1) = (false, on (pre ++ [t]) post 0).
Proof. intros Ht. by rewrite Dispenser_NextBlock_on, Ht. Qed.

Lemma Dispenser_NextBlock_line pre t post :
  Token_Text t ≠ "}" →
  Dispenser_NextBlock (on pre (t :: post) 1) = (true, on (pre ++ [t]) post 1).
Proof.
  intros Ht%String.eqb_neq. by rewrite Dispenser_NextBlock_on, Ht.
Qed.

(** [NextBlock] outside a block, before an opening brace on the line: into
    the block, unless it closes at once. *)
Lemma Dispenser_NextBlock_on_open pre t t1 t2 post :
  same_line t t1 = true → Token_Text t1 = "{" →
  Dispenser_NextBlock (on (pre ++ [t]) (t1 :: t2 :: post) 0) =
  if String.eqb (Token_Text t2) "}" then (false, on (pre ++ [t; t1; t2]) post 0)
  else (true, on (pre ++ [t; t1; t2]) post 1).
Proof.
  intros Hsame Hopen. unfold Dispenser_NextBlock. rewrite decide_False by done.
  rewrite Dispenser_NextArg_on, Hsame. simpl negb. cbv iota.
  rewrite Dispenser_Val_on, Hopen. simpl negb. cbv iota.
  rewrite Dispenser_Next_on, Dispenser_Val_on.
  replace (((pre ++ [t]) ++ [t1]) ++ [t2]) with (pre ++ [t; t1; t2])
    by (by rewrite <- !app_assoc).
  by destruct (String.eqb _ _).
Qed.

Lemma Dispenser_NextBlock_open_close pre t t1 t2 post :
  same_line t t1 = true → Token_Text t1 = "{" → Token_Text t2 = "}" →
  Dispenser_NextBlock (on (pre ++ [t]) (t1 :: t2 :: post) 0) =
  (false, on (pre ++ [t; t1; t2]) post 0).
Proof. intros ?? Ht. by rewrite Dispenser_NextBlock_on_open, Ht. Qed.

Lemma Dispenser_NextBlock_open_line pre t t1 t2 post :
  same_line t t1 = true → Token_Text t1 = "{" → Token_Text t2 ≠ "}" →
  Dispenser_NextBlock (on (pre ++ [t]) (t1 :: t2 :: post) 0) =
  (true, on (pre ++ [t; t1; t2]) post 1).
Proof.
  intros ?? Ht%String.eqb_neq. by rewrite Dispenser_NextBlock_on_open, Ht.
Qed.

End position.
