(* ===== verification/Directive.v ===== *)
(** * [parse] over the tokens of the directive ([setup.go] l.77-134)

    [Corefile] has [parse] over the lines the controller yields.  This file
    has it over the controller itself, the dispenser of [Dispenser]: the
    two loops call [c.Next()] and [c.NextBlock()], which move the cursor,
    and the cases of the [switch] call [c.Val()] and [c.RemainingArgs()].

    The loops of the source end when a method returns [false]; they are not
    structural, so [Next_loop] and [NextBlock_loop] run on fuel and return
    [None] when it runs out, after having tested whether the loop ends.
    [parse_tokens] gives them [S (length tokens)] turns each.

    [controller_of] reads from a dispenser the controller of [Corefile]
    it stands for: the blocks of lines the same calls yield.

    The theorems: the fuel is enough ([parse_tokens] always returns, and
    more fuel changes nothing), because a turn that goes on moves the
    cursor forward and no case of the [switch] succeeds on the last token;
    [parse_tokens] is [parse] of [Corefile] on [controller_of], which
    carries the theorems of [Corefile] over to the tokens; the dispenser
    is well formed when the loops end. *)

From Stdlib Require Import ZArith String Ascii List Lia.
From stdpp Require Import base tactics option list strings gmap.
From S2P Require Import Prelude GoStrings Libs Types Schema Netip Corefile Dispenser.

Section parse_tokens.
Context `{!SchemaConsts, !TimeLib, !NetTypes, !NetLib}.

(** The [switch] of l.93-114 at the token under the cursor.  Only the
    three cases of a directive call [c.RemainingArgs()]. *)
Definition parse_switch (st : ParseVars) (d : Dispenser)
    : outcome ParseVars * Dispenser :=
  let val := Dispenser_Val d in
  if String.eqb val "client" then
    let '(args, d) := Dispenser_RemainingArgs d in (parse_client st args, d)
  else if String.eqb val "record" then
    let '(args, d) := Dispenser_RemainingArgs d in (parse_record st args, d)
  else if String.eqb val "reload" then
    let '(args, d) := Dispenser_RemainingArgs d in (parse_reload st args, d)
  else (Returns (Err (unknown_argument val)), d).

(** [for c.NextBlock() { switch ... }] (l.92-115): the variables and the
    dispenser when the loop ends, or the failure of a case. *)
Fixpoint NextBlock_loop (fuel : nat) (st : ParseVars) (d : Dispenser)
    : option (outcome (ParseVars * Dispenser)) :=
  let '(more, d) := Dispenser_NextBlock d in
  if more then
    match fuel with
    | 0 => None
    | S fuel =>
        match parse_switch st d with
        | (Returns (Ok st), d) => NextBlock_loop fuel st d
        | (Returns (Err e), _) => Some (Returns (Err e))
        | (Panics msg, _) => Some (Panics msg)
        end
    end
  else Some (Returns (Ok (st, d))).

(** [for c.Next() { for c.NextBlock() { ... } }] (l.91-116); the inner
    loop gets [inner] turns. *)
Fixpoint Next_loop (inner fuel : nat) (st : ParseVars) (d : Dispenser)
    : option (outcome (ParseVars * Dispenser)) :=
  let '(more, d) := Dispenser_Next d in
  if more then
    match fuel with
    | 0 => None
    | S fuel =>
        match NextBlock_loop inner st d with
        | None => None
        | Some (Returns (Ok (st, d))) => Next_loop inner fuel st d
        | Some (Returns (Err e)) => Some (Returns (Err e))
        | Some (Panics msg) => Some (Panics msg)
        end
    end
  else Some (Returns (Ok (st, d))).

(** [parse] with [fuel] turns for each loop. *)
Definition parse_fuel (fuel : nat) (d : Dispenser) : option (outcome Views) :=
  match Next_loop fuel fuel parse_init d with
  | None => None
  | Some (Returns (Ok (st, _))) => Some (parse_finish st)
  | Some (Returns (Err e)) => Some (Returns (Err e))
  | Some (Panics msg) => Some (Panics msg)
  end.

(** [parse] (l.77-134) on a dispenser. *)
Definition parse_tokens (d : Dispenser) : option (outcome Views) :=
  parse_fuel (S (length (Dispenser_tokens d))) d.

(** ** What the loops read *)

(** The lines the turns of [for c.NextBlock()] read: of each its
    [c.Val()] and the [c.RemainingArgs()] that follow it. *)
Fixpoint NextBlock_lines (fuel : nat) (d : Dispenser) : Block * Dispenser :=
  let '(more, d) := Dispenser_NextBlock d in
  if more then
    match fuel with
    | 0 => ([], d)
    | S fuel =>
        let '(args, d') := Dispenser_RemainingArgs d in
        let '(ls, d') := NextBlock_lines fuel d' in
        (mkLine (Dispenser_Val d) args :: ls, d')
    end
  else ([], d).

(** The blocks the turns of [for c.Next()] read. *)
Fixpoint Next_blocks (inner fuel : nat) (d : Dispenser) : Controller :=
  let '(more, d) := Dispenser_Next d in
  if more then
    match fuel with
    | 0 => []
    | S fuel =>
        let '(b, d) := NextBlock_lines inner d in b :: Next_blocks inner fuel d
    end
  else [].

(** The controller of [Corefile] that a dispenser stands for. *)
Definition controller_of (d : Dispenser) : Controller :=
  let fuel := S (length (Dispenser_tokens d)) in Next_blocks fuel fuel d.

End parse_tokens.

(** ** The cursor through the loops *)

(** Case analysis on the comparisons of strings of the goal. *)
Ltac eqb_cases :=
  repeat match goal with
         | |- context [String.eqb ?a ?b] => destruct (String.eqb a b)
         end.

Section loops_facts.
Context `{!SchemaConsts, !TimeLib, !NetTypes, !NetLib}.
Implicit Types (st : ParseVars) (d : Dispenser) (fuel inner : nat).

(** The [switch] as [parse_line] of [Corefile] on the line that starts
    under the cursor. *)
Lemma parse_switch_line st d :
  (parse_switch st d).1 =
  parse_line st (mkLine (Dispenser_Val d) (Dispenser_RemainingArgs d).1).
Proof.
  unfold parse_switch, parse_line. simpl.
  destruct (Dispenser_RemainingArgs d) as [args d'].
  by eqb_cases.
Qed.

Lemma parse_switch_advances st d : advances d (parse_switch st d).2.
Proof.
  unfold parse_switch. pose proof (Dispenser_RemainingArgs_advances d) as Ha.
  destruct (Dispenser_RemainingArgs d) as [args d'].
  by eqb_cases.
Qed.

Lemma parse_switch_wf st d : Dispenser_wf d → Dispenser_wf (parse_switch st d).2.
Proof.
  intros Hwf. unfold parse_switch.
  pose proof (Dispenser_RemainingArgs_wf d Hwf) as Ha.
  destruct (Dispenser_RemainingArgs d) as [args d'].
  by eqb_cases.
Qed.

(** A case that succeeds has called [c.RemainingArgs()]. *)
Lemma parse_switch_Ok st d st' :
  (parse_switch st d).1 = Returns (Ok st') →
  (parse_switch st d).2 = (Dispenser_RemainingArgs d).2.
Proof.
  unfold parse_switch. destruct (Dispenser_RemainingArgs d) as [args d'].
  by eqb_cases.
Qed.

(** On the last token no case succeeds: a directive finds no argument. *)
Lemma parse_switch_last st d st' :
  (len d - 1 ≤ Dispenser_cursor d)%Z → (parse_switch st d).1 ≠ Returns (Ok st').
Proof.
  intros Hlast. rewrite parse_switch_line. unfold parse_line. simpl.
  destruct (decide (0 ≤ Dispenser_cursor d)%Z) as [Hpos|Hneg].
  - rewrite Dispenser_RemainingArgs_last by done. simpl.
    by eqb_cases.
  - rewrite Dispenser_Val_outside by lia. done.
Qed.

(** The readers by turns. *)
Lemma NextBlock_lines_false fuel d d' :
  Dispenser_NextBlock d = (false, d') → NextBlock_lines fuel d = ([], d').
Proof. intros Hd. destruct fuel; simpl; by rewrite Hd. Qed.

Lemma NextBlock_lines_true fuel d d' :
  Dispenser_NextBlock d = (true, d') →
  NextBlock_lines (S fuel) d =
  let '(args, d'') := Dispenser_RemainingArgs d' in
  let '(ls, d'') := NextBlock_lines fuel d'' in
  (mkLine (Dispenser_Val d') args :: ls, d'').
Proof. intros Hd. simpl. by rewrite Hd. Qed.

Lemma Next_blocks_false inner fuel d d' :
  Dispenser_Next d = (false, d') → Next_blocks inner fuel d = [].
Proof. intros Hd. destruct fuel; simpl; by rewrite Hd. Qed.

Lemma Next_blocks_true inner fuel d d' :
  Dispenser_Next d = (true, d') →
  Next_blocks inner (S fuel) d =
  let '(b, d'') := NextBlock_lines inner d' in b :: Next_blocks inner fuel d''.
Proof. intros Hd. simpl. by rewrite Hd. Qed.

(** A turn of the inner loop that goes on moves the cursor forward. *)
Lemma NextBlock_turn st d st' d' :
  Dispenser_NextBlock d = (true, d') →
  (parse_switch st d').1 = Returns (Ok st') →
  (Dispenser_cursor d < Dispenser_cursor (parse_switch st d').2)%Z.
Proof.
  intros Hnext Hbody. pose proof (Dispenser_NextBlock_true d) as Htrue.
  pose proof (parse_switch_advances st d') as [_ Hadv].
  rewrite Hnext in Htrue. simpl in Htrue.
  destruct Htrue as [Hlt|[-> Hlast]]; [done|lia|].
  by apply (parse_switch_last st d st') in Hlast.
Qed.

Lemma parse_switch_nesting st d :
  Dispenser_nesting (parse_switch st d).2 = Dispenser_nesting d.
Proof.
  unfold parse_switch. pose proof (Dispenser_RemainingArgs_nesting d) as Ha.
  destruct (Dispenser_RemainingArgs d) as [args d'].
  by eqb_cases.
Qed.

(** A property of the dispenser that the methods keep holds when a loop
    ends, if it held when the loop began. *)
Section invariant.
Context (P : Dispenser → Prop).
Context (HNext : ∀ d, P d → P (Dispenser_Next d).2).
Context (HNextBlock : ∀ d, P d → P (Dispenser_NextBlock d).2).
Context (Hswitch : ∀ st d, P d → P (parse_switch st d).2).

Lemma NextBlock_loop_invariant fuel st d st' d' :
  NextBlock_loop fuel st d = Some (Returns (Ok (st', d'))) → P d → P d'.
Proof.
  revert st d; induction fuel as [|fuel IH]; intros st d; simpl;
    pose proof (HNextBlock d) as Hd;
    destruct (Dispenser_NextBlock d) as [[] d1]; simpl in *;
    try done; try (by intros [= <- <-]).
  pose proof (Hswitch st d1) as Hb.
  destruct (parse_switch st d1) as [[[st1|]|] d2]; simpl in *; [|done..].
  intros Hr HP. apply (IH _ _ Hr); auto.
Qed.

Lemma Next_loop_invariant inner fuel st d st' d' :
  Next_loop inner fuel st d = Some (Returns (Ok (st', d'))) → P d → P d'.
Proof.
  revert st d; induction fuel as [|fuel IH]; intros st d; simpl;
    pose proof (HNext d) as Hd;
    destruct (Dispenser_Next d) as [[] d1]; simpl in *;
    try done; try (by intros [= <- <-]).
  destruct (NextBlock_loop inner st d1) as [[[[st1 d2]|]|]|] eqn:Ho; [|done..].
  intros Hr HP. apply (IH _ _ Hr), (NextBlock_loop_invariant _ _ _ _ _ Ho); auto.
Qed.

End invariant.

(** What the loops leave, when they end: the tokens, the cursor not
    before where it was, and within the tokens if it was. *)
Lemma NextBlock_loop_Ok fuel st d st' d' :
  NextBlock_loop fuel st d = Some (Returns (Ok (st', d'))) →
  advances d d' ∧ (Dispenser_wf d → Dispenser_wf d').
Proof.
  intros Hr. split.
  - eapply (NextBlock_loop_invariant (advances d)); [..|exact Hr|done];
      intros; etrans; eauto using Dispenser_NextBlock_advances, parse_switch_advances.
  - eapply (NextBlock_loop_invariant Dispenser_wf); [..|exact Hr];
      auto using Dispenser_NextBlock_wf, parse_switch_wf.
Qed.

Lemma Next_loop_Ok inner fuel st d st' d' :
  Next_loop inner fuel st d = Some (Returns (Ok (st', d'))) →
  advances d d' ∧ (Dispenser_wf d → Dispenser_wf d').
Proof.
  intros Hr. split.
  - eapply (Next_loop_invariant (advances d)); [..|exact Hr|done];
      intros; etrans;
      eauto using Dispenser_Next_advances, Dispenser_NextBlock_advances,
        parse_switch_advances.
  - eapply (Next_loop_invariant Dispenser_wf); [..|exact Hr];
      auto using Dispenser_Next_wf, Dispenser_NextBlock_wf, parse_switch_wf.
Qed.

(** [parse] opens one block at a time, and the inner loop ends outside
    the block. *)
Lemma NextBlock_loop_nesting fuel st d st' d' :
  NextBlock_loop fuel st d = Some (Returns (Ok (st', d'))) →
  (0 ≤ Dispenser_nesting d ≤ 1)%Z → Dispenser_nesting d' = 0%Z.
Proof.
  revert st d; induction fuel as [|fuel IH]; intros st d; simpl;
    pose proof (Dispenser_NextBlock_nesting d) as Hn;
    destruct (Dispenser_NextBlock d) as [[] d1]; simpl in *;
    try done; try (by intros [= <- <-]).
  pose proof (parse_switch_nesting st d1) as Hb.
  destruct (parse_switch st d1) as [[[st1|]|] d2]; simpl in *; [|done..].
  intros Hr Hd. apply (IH _ _ Hr). rewrite Hb, Hn; lia.
Qed.

Lemma Next_loop_nesting inner fuel st d st' d' :
  Next_loop inner fuel st d = Some (Returns (Ok (st', d'))) →
  Dispenser_nesting d = 0%Z → Dispenser_nesting d' = 0%Z.
Proof.
  revert st d; induction fuel as [|fuel IH]; intros st d; simpl;
    pose proof (Dispenser_Next_nesting d) as Hn;
    destruct (Dispenser_Next d) as [[] d1]; simpl in *;
    try done; try (by intros [= <- <-]; congruence).
  destruct (NextBlock_loop inner st d1) as [[[[st1 d2]|]|]|] eqn:Ho; [|done..].
  intros Hr Hd. apply (IH _ _ Hr), (NextBlock_loop_nesting _ _ _ _ _ Ho). lia.
Qed.

(** The outer loop ends on the last token. *)
Lemma Next_loop_last inner fuel st d st' d' :
  Next_loop inner fuel st d = Some (Returns (Ok (st', d'))) →
  (len d' - 1 ≤ Dispenser_cursor d')%Z.
Proof.
  revert st d; induction fuel as [|fuel IH]; intros st d; simpl;
    unfold Dispenser_Next; case_decide; try done;
    try (intros [= <- <-]; lia).
  destruct (NextBlock_loop inner st _) as [[[[st1 d2]|]|]|] eqn:Ho; [|done..].
  apply IH.
Qed.

(** The inner loop ends within its fuel. *)
Lemma NextBlock_loop_terminates fuel st d :
  Dispenser_wf d → (len d - Dispenser_cursor d < Z.of_nat fuel)%Z →
  is_Some (NextBlock_loop fuel st d).
Proof.
  revert st d; induction fuel as [|fuel IH]; intros st d Hwf Hfuel.
  { unfold Dispenser_wf, len in *. lia. }
  simpl. pose proof (Dispenser_NextBlock_wf d Hwf) as Hw.
  pose proof (advances_len _ _ (Dispenser_NextBlock_advances d)) as Hlen.
  destruct (Dispenser_NextBlock d) as [[] d1] eqn:Hnext; simpl in *; [|done].
  pose proof (λ st', NextBlock_turn st d st' d1 Hnext) as Hturn.
  pose proof (parse_switch_wf st d1 Hw) as Hbw.
  pose proof (advances_len _ _ (parse_switch_advances st d1)) as Hlen'.
  destruct (parse_switch st d1) as [[[st1|]|] d2]; simpl in *; [|done..].
  specialize (Hturn st1 eq_refl). apply IH; [done|lia].
Qed.

(** The outer loop ends within its fuel. *)
Lemma Next_loop_terminates inner fuel st d :
  Dispenser_wf d → (len d < Z.of_nat inner)%Z →
  (len d - Dispenser_cursor d ≤ Z.of_nat fuel + 1)%Z →
  is_Some (Next_loop inner fuel st d).
Proof.
  revert st d; induction fuel as [|fuel IH]; intros st d Hwf Hinner Hfuel;
    simpl; unfold Dispenser_Next; case_decide as Hcur; try done; [lia|].
  assert (Dispenser_wf (with_cursor (Dispenser_cursor d + 1) d)) as Hwf1.
  { revert Hwf. unfold Dispenser_wf. rewrite len_with_cursor. simpl. lia. }
  destruct (NextBlock_loop_terminates inner st _ Hwf1) as [o Ho].
  { rewrite len_with_cursor. unfold Dispenser_wf in Hwf. simpl. lia. }
  rewrite Ho. destruct o as [[[st1 d2]|]|]; [|done..].
  apply NextBlock_loop_Ok in Ho as [Hadv Hwf2].
  pose proof (advances_len _ _ Hadv) as Hlen. destruct Hadv as [_ Hadv].
  rewrite len_with_cursor in Hlen. simpl in Hadv.
  apply IH; [by apply Hwf2|lia|lia].
Qed.

(** More fuel does not change what a loop returns. *)
Lemma NextBlock_loop_mono fuel fuel' st d r :
  NextBlock_loop fuel st d = Some r → fuel ≤ fuel' →
  NextBlock_loop fuel' st d = Some r.
Proof.
  revert fuel' st d; induction fuel as [|fuel IH]; intros [|fuel'] st d; simpl;
    destruct (Dispenser_NextBlock d) as [[] d1]; try done; try (intros; lia).
  destruct (parse_switch st d1) as [[[st1|]|] d2]; try done.
  intros Hr ?. apply IH; [done|lia].
Qed.

Lemma Next_loop_mono inner inner' fuel fuel' st d r :
  Next_loop inner fuel st d = Some r → inner ≤ inner' → fuel ≤ fuel' →
  Next_loop inner' fuel' st d = Some r.
Proof.
  intros Hr Hinner. revert fuel' st d Hr.
  induction fuel as [|fuel IH]; intros [|fuel'] st d; simpl;
    destruct (Dispenser_Next d) as [[] d1]; try done; try (intros; lia).
  destruct (NextBlock_loop inner st d1) as [o|] eqn:Ho; [|done].
  rewrite (NextBlock_loop_mono _ _ _ _ _ Ho Hinner).
  destruct o as [[[st1 d2]|]|]; try done. intros Hr ?. apply IH; [done|lia].
Qed.

Lemma parse_fuel_mono fuel fuel' d r :
  parse_fuel fuel d = Some r → fuel ≤ fuel' → parse_fuel fuel' d = Some r.
Proof.
  unfold parse_fuel. intros Hr Hfuel.
  destruct (Next_loop fuel fuel parse_init d) as [o|] eqn:Ho; [|done].
  by rewrite (Next_loop_mono _ _ _ _ _ _ _ Ho Hfuel Hfuel).
Qed.

(** [parse] returns when each loop has more turns than there are tokens. *)
Lemma parse_fuel_terminates fuel d :
  Dispenser_wf d → (len d < Z.of_nat fuel)%Z → is_Some (parse_fuel fuel d).
Proof.
  intros Hwf Hfuel. unfold parse_fuel.
  destruct (Next_loop_terminates fuel fuel parse_init d) as [o ->]; [done..| |].
  { unfold Dispenser_wf in Hwf. lia. }
  by destruct o as [[[st d']|]|].
Qed.

(** What [parse] returns with some fuel, it returns with any fuel that is
    enough. *)
Lemma parse_fuel_stable fuel fuel' d r :
  Dispenser_wf d → (len d < Z.of_nat fuel')%Z →
  parse_fuel fuel d = Some r → parse_fuel fuel' d = Some r.
Proof.
  intros Hwf Hfuel Hr. destruct (Nat.le_gt_cases fuel fuel') as [Hle|Hgt].
  { by eapply parse_fuel_mono. }
  destruct (parse_fuel_terminates fuel' d) as [r' Hr']; [done..|].
  rewrite Hr'. apply (parse_fuel_mono _ fuel) in Hr'; [congruence|lia].
Qed.

(** The loops over the dispenser are the folds of [Corefile] over the
    lines they read. *)
Lemma NextBlock_loop_read fuel st d r :
  NextBlock_loop fuel st d = Some r →
  r = let! st' := parse_block st (NextBlock_lines fuel d).1 in
      Returns (Ok (st', (NextBlock_lines fuel d).2)).
Proof.
  unfold parse_block.
  revert st d r; induction fuel as [|fuel IH]; intros st d r; simpl;
    destruct (Dispenser_NextBlock d) as [[] d1]; try done; try (by intros [= <-]).
  pose proof (parse_switch_line st d1) as Hline.
  pose proof (parse_switch_Ok st d1) as Hd.
  destruct (Dispenser_RemainingArgs d1) as [args d2].
  destruct (parse_switch st d1) as [o d3]; simpl in Hline, Hd; subst o.
  destruct (NextBlock_lines fuel d2) as [ls d4] eqn:Hls. simpl.
  destruct (parse_line st _) as [[st1|e]|m]; simpl; try (by intros [= <-]).
  rewrite (Hd st1 eq_refl). intros Hr%IH. by rewrite Hls in Hr.
Qed.

Lemma Next_loop_read inner fuel st d r :
  Next_loop inner fuel st d = Some r →
  (let! p := r in Returns (Ok p.1)) =
  parse_blocks st (Next_blocks inner fuel d).
Proof.
  unfold parse_blocks.
  revert st d r; induction fuel as [|fuel IH]; intros st d r; simpl;
    destruct (Dispenser_Next d) as [[] d1]; try done; try (by intros [= <-]).
  destruct (NextBlock_loop inner st d1) as [o|] eqn:Ho; [|done].
  apply NextBlock_loop_read in Ho.
  destruct (NextBlock_lines inner d1) as [b d2]. simpl in *. subst o.
  destruct (parse_block st b) as [[st1|e]|m]; simpl; try (by intros [= <-]).
  apply IH.
Qed.

Lemma parse_fuel_read fuel d r :
  parse_fuel fuel d = Some r → r = parse (Next_blocks fuel fuel d).
Proof.
  unfold parse_fuel, parse.
  destruct (Next_loop fuel fuel parse_init d) as [o|] eqn:Ho; [|done].
  apply Next_loop_read in Ho. rewrite <- Ho.
  destruct o as [[[st d']|e]|m]; simpl; by intros [= <-].
Qed.

Lemma parse_tokens_controller_of d :
  Dispenser_wf d → parse_tokens d = Some (parse (controller_of d)).
Proof.
  intros Hwf. unfold parse_tokens, controller_of.
  destruct (parse_fuel_terminates (S (length (Dispenser_tokens d))) d)
    as [r Hr]; [done|unfold len; lia|].
  rewrite Hr. f_equal. by apply parse_fuel_read.
Qed.

End loops_facts.

(** ** [parse] over the dispenser *)

Section properties.
Context `{!SchemaConsts, !TimeLib, !NetTypes, !NetLib}.
Implicit Types (st : ParseVars) (d : Dispenser) (fuel inner : nat).

(** C3. Refinement: on every dispenser whose cursor is within its tokens,
    [parse] over the tokens returns what [parse] of [Corefile] returns on
    the controller the dispenser stands for, the blocks of lines that
    [Next], [NextBlock], [Val] and [RemainingArgs] read.  The theorems of
    [Corefile] on [parse] thus hold of the tokens. *)
Theorem parse_tokens_refines_parse d :
  Dispenser_wf d → parse_tokens d = Some (parse (controller_of d)).
Proof. apply parse_tokens_controller_of. Qed.

(** C7. Termination: the two loops of [parse] end on every dispenser
    whose cursor is within its tokens, within [S (length tokens)] turns
    each: a turn that goes on moves the cursor forward, and on the last
    token, where [NextBlock] would return [true] for ever inside a block
    that is not closed, every case of the [switch] fails. *)
Theorem parse_tokens_terminates d : Dispenser_wf d → is_Some (parse_tokens d).
Proof. intros Hwf. apply parse_fuel_terminates; [done|]. unfold len. lia. Qed.

(** C22. The dispenser stays well formed through the loops: when they end
    without a failure the tokens are the same, the cursor is within them
    and on the last of them, and no block is left open. *)
Theorem Next_loop_dispenser_wf inner fuel st d st' d' :
  Dispenser_wf d → Dispenser_nesting d = 0%Z →
  Next_loop inner fuel st d = Some (Returns (Ok (st', d'))) →
  Dispenser_wf d' ∧ Dispenser_nesting d' = 0%Z ∧
  Dispenser_tokens d' = Dispenser_tokens d ∧
  (len d' - 1 ≤ Dispenser_cursor d')%Z.
Proof.
  intros Hwf Hn Hr. destruct (Next_loop_Ok _ _ _ _ _ _ Hr) as [[Ht _] Hwf'].
  split_and!; eauto using Next_loop_nesting, Next_loop_last.
Qed.

End properties.

(** ** Runs *)

(** The tokens of the directive

      views {
          client /etc/coredns/clients.yaml
          record https://config.example/records
          reload 10s
      }

    read from line 2 of the file [Corefile]. *)
Definition tokens_ex : list Token :=
  [mkToken "Corefile" 2 "views"; mkToken "Corefile" 2 "{";
   mkToken "Corefile" 3 "client"; mkToken "Corefile" 3 "/etc/coredns/clients.yaml";
   mkToken "Corefile" 4 "record"; mkToken "Corefile" 4 "https://config.example/records";
   mkToken "Corefile" 5 "reload"; mkToken "Corefile" 5 "10s";
   mkToken "Corefile" 6 "}"].

Example parse_tokens_ex : parse_tokens (NewDispenser tokens_ex) = Some (Returns (Ok views_ex)).
Proof. reflexivity. Qed.

Example controller_of_ex : controller_of (NewDispenser tokens_ex) = corefile_ex.
Proof. reflexivity. Qed.

(** The arguments of the directive itself are not read: the block does
    not open, and the directives are missing. *)
Example parse_tokens_ex_args :
  parse_tokens (NewDispenser [mkToken "Corefile" 2 "views"; mkToken "Corefile" 2 "a.yaml";
                              mkToken "Corefile" 2 "b.yaml"])
  = Some (Returns (Err missing_client)).
Proof. reflexivity. Qed.

(** Two directives on a line: the second is an argument of the first. *)
Example parse_tokens_ex_one_line :
  parse_tokens (NewDispenser [mkToken "Corefile" 2 "views"; mkToken "Corefile" 2 "{";
                              mkToken "Corefile" 3 "client"; mkToken "Corefile" 3 "a.yaml";
                              mkToken "Corefile" 3 "record"; mkToken "Corefile" 3 "b.yaml";
                              mkToken "Corefile" 4 "}"])
  = Some (Returns (Err missing_record)).
Proof. reflexivity. Qed.

(** A block that is not closed: the loop comes to the last token, where a
    directive finds no argument. *)
Example parse_tokens_ex_unclosed :
  parse_tokens (NewDispenser [mkToken "Corefile" 2 "views"; mkToken "Corefile" 2 "{";
                              mkToken "Corefile" 3 "client"; mkToken "Corefile" 3 "a.yaml";
                              mkToken "Corefile" 4 "record"])
  = Some (Panics index_out_of_range).
Proof. reflexivity. Qed.

Lemma parse_tokens_refines_parse_witness :
  parse_tokens (NewDispenser tokens_ex) =
  Some (parse (controller_of (NewDispenser tokens_ex))).
Proof. apply parse_tokens_refines_parse. compute_done. Defined.

Lemma parse_tokens_terminates_witness : is_Some (parse_tokens (NewDispenser tokens_ex)).
Proof. apply parse_tokens_terminates. compute_done. Defined.

Lemma Next_loop_dispenser_wf_witness :
  Dispenser_wf (on tokens_ex [] 0) ∧ Dispenser_nesting (on tokens_ex [] 0) = 0%Z ∧
  Dispenser_tokens (on tokens_ex [] 0) = Dispenser_tokens (NewDispenser tokens_ex) ∧
  (len (on tokens_ex [] 0) - 1 ≤ Dispenser_cursor (on tokens_ex [] 0))%Z.
Proof.
  apply (Next_loop_dispenser_wf 4 2 parse_init (NewDispenser tokens_ex)
           (mkParseVars "/etc/coredns/clients.yaml" "yaml"
              "https://config.example/records" "http" None (10 * Second)));
    [compute_done|reflexivity|reflexivity].
Defined.
