(* ===== verification/Layout.v ===== *)
(** * The directive laid out in lines

    [Corefile] models what [parse] sees of the controller as blocks of
    lines, [Directive] as the tokens the dispenser hands out.  This file
    relates the two.  [layout] gives the tokens of a Corefile in which each
    occurrence of the directive is written the usual way,

      views {
          client clients.yaml
          record records.yaml
      }

    the name registered in [init] (l.45) and the opening brace on one line,
    a line for each directive with its arguments, the closing brace on a
    line of its own.  The tokens carry the file and the line they were
    read at, which is what [NextArg] goes by.

    The theorems, for every controller whose texts hold no line break
    and whose lines neither start with a closing brace nor hold an opening
    one among their arguments: the loops of [parse] read the lines back
    from the tokens ([controller_of] after [layout] is the identity), and
    so [parse_tokens] on the tokens returns what [parse] of [Corefile]
    returns on the lines. *)

From Stdlib Require Import ZArith String Ascii List Lia.
From stdpp Require Import base tactics option list strings gmap.
From S2P Require Import Prelude GoStrings Libs Types Schema Netip Corefile.
From S2P Require Import Dispenser Directive.

(** ** The tokens *)

(** The name the plugin is registered under:
    [plugin.Register("views", setup)] (l.45). *)
Definition directive : string := "views".

Section layout.
Context (file : string).

Definition tok (line : Z) (text : string) : Token :=
  {| Token_File := file; Token_Line := line; Token_Text := text |}.

(** A line of a block, on line [k] of the file. *)
Definition line_tokens (k : Z) (l : Line) : list Token :=
  tok k (Val l) :: map (tok k) (RemainingArgs l).

(** The lines of a block, from line [k] on. *)
Fixpoint lines_tokens (k : Z) (ls : list Line) : list Token :=
  match ls with
  | [] => []
  | l :: ls => line_tokens k l ++ lines_tokens (k + 1) ls
  end.

(** The block of an occurrence of the directive, which opens on line
    [k]. *)
Definition block_body (k : Z) (b : Block) : list Token :=
  tok k "{" :: lines_tokens (k + 1) b ++ [tok (k + 1 + Z.of_nat (length b)) "}"].

(** An occurrence of the directive, from line [k] on. *)
Definition block_tokens (k : Z) (b : Block) : list Token :=
  tok k directive :: block_body k b.

(** The occurrences of the directive, one below the other. *)
Fixpoint layout (k : Z) (c : Controller) : list Token :=
  match c with
  | [] => []
  | b :: c => block_tokens k b ++ layout (k + 2 + Z.of_nat (length b)) c
  end.

(** A text without a line break. *)
Definition plain (s : string) : Prop := count_newlines s = 0%Z.

(** A line that the layout keeps apart from the braces of its block. *)
Definition line_plain (l : Line) : Prop :=
  Val l ≠ "}" ∧ plain (Val l) ∧
  Forall (λ a, a ≠ "{" ∧ plain a) (RemainingArgs l).

(** The tokens [post] start below line [k]. *)
Definition starts_below (k : Z) (post : list Token) : Prop :=
  match post with
  | [] => True
  | t :: _ => (k < Token_Line t)%Z
  end.

End layout.

#[global] Instance plain_dec s : Decision (plain s).
Proof. unfold plain. apply _. Defined.

#[global] Instance line_plain_dec l : Decision (line_plain l).
Proof. unfold line_plain. apply _. Defined.

(** ** The lines under the dispenser *)

Section layout_facts.
Context `{!SchemaConsts, !TimeLib, !NetTypes, !NetLib}.
Context (file : string).
Implicit Types (st : ParseVars) (l : Line) (ls : list Line) (b : Block)
  (c : Controller) (pre post : list Token) (k : Z) (fuel inner : nat).

#[local] Abbreviation tok := (tok file).
#[local] Abbreviation line_tokens := (line_tokens file).
#[local] Abbreviation lines_tokens := (lines_tokens file).
#[local] Abbreviation block_body := (block_body file).
#[local] Abbreviation block_tokens := (block_tokens file).
#[local] Abbreviation layout := (layout file).

Lemma same_line_tok k a a' : plain a → same_line (tok k a) (tok k a') = true.
Proof.
  unfold same_line, plain. simpl. intros ->.
  rewrite String.eqb_refl, Z.add_0_r. simpl. apply Z.eqb_refl.
Qed.

Lemma same_line_below k a t : plain a → (k < Token_Line t)%Z → same_line (tok k a) t = false.
Proof.
  unfold same_line, plain. simpl. intros -> Hk.
  apply andb_false_intro2, Z.eqb_neq. lia.
Qed.

Lemma map_Token_Text k args : map Token_Text (map (tok k) args) = args.
Proof. rewrite map_map. simpl. apply map_id. Qed.

Lemma rest_of_line_tok k a args post :
  plain a → Forall (λ a, a ≠ "{" ∧ plain a) args → starts_below k post →
  rest_of_line (tok k a) (map (tok k) args) post.
Proof.
  intros Ha Hargs Hpost. revert a Ha.
  induction Hargs as [|a' args [Hbrace Ha'] _ IH]; intros a Ha; simpl.
  - destruct post as [|t post]; [done|]. by apply same_line_below.
  - split_and!; [by apply same_line_tok|done|by apply IH].
Qed.

Lemma lines_tokens_cons k l ls :
  lines_tokens k (l :: ls) = line_tokens k l ++ lines_tokens (k + 1) ls.
Proof. done. Qed.

Lemma starts_below_lines k ls t post :
  (k + Z.of_nat (length ls) < Token_Line t)%Z →
  starts_below k (lines_tokens (k + 1) ls ++ t :: post).
Proof.
  destruct ls as [|l ls]; simpl; intros; lia.
Qed.

(** [c.RemainingArgs()] on the first token of a line. *)
Lemma Dispenser_RemainingArgs_line pre k l post n :
  line_plain l → starts_below k post →
  Dispenser_RemainingArgs
    (on (pre ++ [tok k (Val l)]) (map (tok k) (RemainingArgs l) ++ post) n) =
  (RemainingArgs l, on (pre ++ line_tokens k l) post n).
Proof.
  intros (_ & Hval & Hargs) Hpost.
  rewrite Dispenser_RemainingArgs_on by by apply rest_of_line_tok.
  by rewrite map_Token_Text.
Qed.

Lemma lines_tokens_head k l ls post :
  lines_tokens k (l :: ls) ++ post =
  tok k (Val l) :: map (tok k) (RemainingArgs l) ++ lines_tokens (k + 1) ls ++ post.
Proof. simpl. by rewrite <- app_assoc. Qed.

Lemma block_body_head k b post :
  block_body k b ++ post =
  tok k "{" :: lines_tokens (k + 1) b ++
  tok (k + 1 + Z.of_nat (length b)) "}" :: post.
Proof. unfold block_body. simpl. by rewrite <- app_assoc. Qed.

(** The inner loop inside a block reads the lines up to the closing
    brace. *)
Lemma NextBlock_lines_on ls fuel pre k close post :
  length ls ≤ fuel → Forall line_plain ls →
  Token_Text close = "}" → (k + Z.of_nat (length ls) ≤ Token_Line close)%Z →
  NextBlock_lines fuel (on pre (lines_tokens k ls ++ close :: post) 1) =
  (ls, on (pre ++ lines_tokens k ls ++ [close]) post 0).
Proof.
  revert fuel pre k; induction ls as [|l ls IH];
    intros fuel pre k Hfuel Hls Hclose Hbelow.
  { change (lines_tokens k [] ++ close :: post) with (close :: post).
    by rewrite (NextBlock_lines_false _ _ _ (Dispenser_NextBlock_close _ _ _ Hclose)). }
  destruct fuel as [|fuel]; [simpl in Hfuel; lia|].
  apply Forall_cons in Hls as [Hl Hls]. pose proof Hl as [Hval _].
  rewrite lines_tokens_head.
  rewrite (NextBlock_lines_true _ _ _
             (Dispenser_NextBlock_line _ (tok k (Val l)) _ Hval)).
  rewrite Dispenser_RemainingArgs_line, Dispenser_Val_on
    by (done || apply starts_below_lines; simpl in *; lia).
  rewrite IH by (done || simpl in *; lia).
  rewrite lines_tokens_cons, <- !app_assoc. by destruct l.
Qed.

(** The inner loop on an occurrence of the directive, the cursor on its
    name, reads the lines of the block. *)
Lemma NextBlock_lines_block b inner pre k post :
  length b ≤ inner → Forall line_plain b →
  NextBlock_lines inner (on (pre ++ [tok k directive]) (block_body k b ++ post) 0) =
  (b, on (pre ++ block_tokens k b) post 0).
Proof.
  intros Hinner Hb. rewrite block_body_head.
  pose proof (same_line_tok k directive "{" eq_refl) as Hsame.
  destruct b as [|l ls].
  { simpl. by erewrite NextBlock_lines_false
      by (by apply Dispenser_NextBlock_open_close). }
  destruct inner as [|inner]; [simpl in Hinner; lia|].
  apply Forall_cons in Hb as [Hl Hls]. pose proof Hl as [Hval _].
  rewrite lines_tokens_head.
  rewrite (NextBlock_lines_true _ _ _
             (Dispenser_NextBlock_open_line _ _ _ (tok (k + 1) (Val l)) _
                Hsame eq_refl Hval)).
  replace (pre ++ [tok k directive; tok k "{"; tok (k + 1) (Val l)])
    with ((pre ++ [tok k directive; tok k "{"]) ++ [tok (k + 1) (Val l)])
    by (by rewrite <- app_assoc).
  rewrite Dispenser_RemainingArgs_line, Dispenser_Val_on
    by (done || apply starts_below_lines; simpl in *; lia).
  rewrite NextBlock_lines_on by (done || simpl in *; lia).
  unfold block_tokens, block_body. rewrite lines_tokens_cons, <- !app_assoc.
  by destruct l.
Qed.

Lemma layout_head k b c :
  layout k (b :: c) =
  tok k directive :: block_body k b ++ layout (k + 2 + Z.of_nat (length b)) c.
Proof. done. Qed.

(** The outer loop reads the occurrences of the directive. *)
Lemma Next_blocks_layout c inner fuel pre k :
  length c ≤ fuel → Forall (λ b, length b ≤ inner) c →
  Forall (Forall line_plain) c →
  Next_blocks inner fuel (on pre (layout k c) 0) = c.
Proof.
  revert fuel pre k; induction c as [|b c IH]; intros fuel pre k Hfuel Hinner Hc.
  { by rewrite (Next_blocks_false _ _ _ _ (Dispenser_Next_on_nil _ _)). }
  destruct fuel as [|fuel]; [simpl in Hfuel; lia|].
  apply Forall_cons in Hinner as [Hb Hinner]. apply Forall_cons in Hc as [Hpb Hc].
  rewrite layout_head, (Next_blocks_true _ _ _ _ (Dispenser_Next_on _ _ _ _)).
  rewrite NextBlock_lines_block by done.
  by rewrite IH by (done || simpl in *; lia).
Qed.

(** There are tokens enough for the turns of the loops. *)
Lemma length_concat_le c :
  Forall (λ b, length b ≤ length c + length (concat c)) c.
Proof.
  induction c as [|b c IH]; constructor; simpl; rewrite length_app; [lia|].
  eapply Forall_impl; [exact IH|]. simpl. lia.
Qed.

Lemma length_lines_tokens k ls : length ls ≤ length (lines_tokens k ls).
Proof.
  revert k; induction ls as [|l ls IH]; intros k; simpl; [done|].
  rewrite length_app. specialize (IH (k + 1)%Z). lia.
Qed.

Lemma length_layout k c : length c + length (concat c) ≤ length (layout k c).
Proof.
  revert k; induction c as [|b c IH]; intros k; simpl; [done|].
  rewrite !length_app. pose proof (length_lines_tokens (k + 1) b).
  specialize (IH (k + 2 + Z.of_nat (length b))%Z). lia.
Qed.

(** Round trip: the loops of [parse] read back the lines a Corefile was
    laid out from. *)
Lemma controller_of_layout k c :
  Forall (Forall line_plain) c → controller_of (NewDispenser (layout k c)) = c.
Proof.
  intros Hc. unfold controller_of. rewrite NewDispenser_on.
  pose proof (length_layout k c) as Hlen.
  apply Next_blocks_layout; simpl; [lia| |done].
  eapply Forall_impl; [apply length_concat_le|]. simpl. lia.
Qed.

End layout_facts.

(** ** The refinement *)

Section layout_properties.
Context `{!SchemaConsts, !TimeLib, !NetTypes, !NetLib}.

(** C10. Refinement: on the tokens of a Corefile in which the occurrences
    of the directive are laid out in lines, [parse] over the dispenser
    returns what [parse] of [Corefile] returns on these lines, settings,
    error or panic, provided that no text holds a line break, no line
    starts with a closing brace and no argument is an opening brace. *)
Theorem parse_tokens_layout file k c :
  Forall (Forall line_plain) c →
  parse_tokens (NewDispenser (layout file k c)) = Some (parse c).
Proof.
  intros Hc. rewrite parse_tokens_controller_of by apply NewDispenser_wf.
  by rewrite controller_of_layout.
Qed.

End layout_properties.

(** ** Runs *)

Example layout_ex : layout "Corefile" 2 corefile_ex = tokens_ex.
Proof. reflexivity. Qed.

Example controller_of_layout_ex :
  controller_of (NewDispenser (layout "Corefile" 2 corefile_ex)) = corefile_ex.
Proof. reflexivity. Qed.

Lemma parse_tokens_layout_witness :
  parse_tokens (NewDispenser (layout "Corefile" 2 corefile_ex)) =
  Some (parse corefile_ex).
Proof. apply parse_tokens_layout. compute_done. Defined.
