(* ===== verification/Interleave.v ===== *)
(** * Two loads at once: the writes of [loadConfig] interleaved
      ([setup.go] l.56, l.146, l.182-236)

    [loadConfig] is called from two places: the start-up hook (l.56) and
    the goroutine of [reload] on every tick (l.146).  Nothing keeps a tick
    from coming while the load of the start-up hook is still writing, and
    the two calls then write the same plugin [*v] in turns.

    A call is here the sequence of its writes ([loadConfig_ops]): the reset
    of [v.ClientACLs] (l.182), one [append] for each raw client (l.196),
    the new map of [v.ClientZones] (l.202), one assignment for each raw
    record set (l.235).  Two calls at once are an interleaving ([Merge]) of
    two such sequences, each write taken as a whole.

    The theorems: a sequence alone leaves what [loadConfig] leaves; two
    sequences interleaved leave, in each field, what the loop builds from
    all of one document merged with the end of the other ([Overlap]); when
    both calls read the same documents the record sets are the right ones
    and the groups are the right ones up to repetitions and their order,
    which changes an answer only for a client that several groups contain;
    and any group of the document may come first ([late_reset]).

    Not modelled: accesses that overlap inside one write (the read and the
    write of an [append], two writes to one map, which the Go run time may
    answer with a fatal error). *)

From Stdlib Require Import ZArith String Ascii List Lia.
From stdpp Require Import base tactics option list strings gmap.
From S2P Require Import Prelude GoStrings Libs Types Schema Netip DnsName Samples.
From S2P Require Import Corefile Fetch Build Loader Resolver Publish.

(** ** Interleavings *)

(** [Merge a b c]: [c] is [a] and [b] interleaved, each in its order. *)
Inductive Merge {A : Type} : list A → list A → list A → Prop :=
| Merge_nil : Merge [] [] []
| Merge_l x a b c : Merge a b c → Merge (x :: a) b (x :: c)
| Merge_r y a b c : Merge a b c → Merge a (y :: b) (y :: c).

(** The interleaving a schedule gives: [true] takes from [a], [false] from
    [b]; when the schedule or a list ends, what is left follows. *)
Fixpoint merge {A : Type} (sched : list bool) (a b : list A) : list A :=
  match sched with
  | [] => a ++ b
  | turn :: sched =>
      match a, b with
      | [], _ => b
      | _, [] => a
      | x :: a', y :: b' =>
          if turn then x :: merge sched a' b else y :: merge sched a b'
      end
  end.

(** [m] is all of [es1] interleaved with the end of [es2], or all of [es2]
    with the end of [es1]. *)
Definition Overlap {A : Type} (es1 es2 m : list A) : Prop :=
  ∃ S, (S `suffix_of` es2 ∧ Merge es1 S m) ∨ (S `suffix_of` es1 ∧ Merge es2 S m).

(** ** A field that a call resets and then builds *)

Inductive Op (E : Type) : Type :=
| Reset
| Upd (e : E).
Arguments Reset {E}.
Arguments Upd {E} e.

Section field.
Context {X E : Type} (x0 : X) (upd : X → E → X).

Definition op (x : X) (o : Op E) : X :=
  match o with
  | Reset => x0
  | Upd e => upd x e
  end.

(** The writes of a call to the field. *)
Definition field_ops (es : list E) : list (Op E) := Reset :: (Upd <$> es).

End field.

Section merge_facts.
Context {A : Type}.
Implicit Types (a b c : list A).

Lemma Merge_nil_l b : Merge [] b b.
Proof. induction b; by constructor. Qed.

Lemma Merge_nil_r a : Merge a [] a.
Proof. induction a; by constructor. Qed.

Lemma Merge_app a b : Merge a b (a ++ b).
Proof. induction a; simpl; [apply Merge_nil_l|by constructor]. Qed.

Lemma Merge_app_l p a b c : Merge a b c → Merge (p ++ a) b (p ++ c).
Proof. intros Hm. induction p; simpl; [done|by constructor]. Qed.

Lemma Merge_sym a b c : Merge a b c → Merge b a c.
Proof. induction 1; by constructor. Qed.

Lemma Merge_nil_l_inv b c : Merge [] b c → c = b.
Proof.
  intros H. remember [] as a eqn:Ha. induction H; simplify_eq; [done|].
  f_equal. auto.
Qed.

Lemma Merge_nil_r_inv a c : Merge a [] c → c = a.
Proof. intros H%Merge_sym. by apply Merge_nil_l_inv. Qed.

Lemma Merge_merge sched a b : Merge a b (merge sched a b).
Proof.
  revert a b; induction sched as [|[] sched IH]; intros [|x a] [|y b]; simpl;
    try (by constructor); auto using Merge_app, Merge_nil_l, Merge_nil_r.
Qed.

Lemma Merge_length a b c : Merge a b c → length c = length a + length b.
Proof. induction 1; simpl; lia. Qed.

Lemma elem_of_Merge a b c x : Merge a b c → x ∈ c ↔ x ∈ a ∨ x ∈ b.
Proof. induction 1; set_solver. Qed.

Lemma Merge_omap {B} (f : A → option B) a b c :
  Merge a b c → Merge (omap f a) (omap f b) (omap f c).
Proof.
  induction 1 as [|x a b c Hm IH|y a b c Hm IH]; simpl; [constructor|..];
    destruct (f _); by try constructor.
Qed.

Lemma Merge_filter (P : A → Prop) `{!∀ x, Decision (P x)} a b c :
  Merge a b c → Merge (filter P a) (filter P b) (filter P c).
Proof.
  induction 1 as [|x a b c Hm IH|y a b c Hm IH].
  - constructor.
  - rewrite !filter_cons. destruct (decide (P x)); by try constructor.
  - rewrite !filter_cons. destruct (decide (P y)); by try constructor.
Qed.

(** An interleaving of two lists that end alike ends as they do. *)
Lemma Merge_last a b c :
  Merge a b c → (b ≠ [] → last b = last a) → last c = last a.
Proof.
  induction 1 as [|x a b c Hm IH|y a b c Hm IH]; intros Hb; [done|..].
  - destruct a as [|x' a].
    + apply Merge_nil_l_inv in Hm as ->. destruct b as [|y b]; [done|].
      rewrite last_cons_cons. by apply Hb.
    + rewrite last_cons_cons in *. rewrite <- IH by done.
      apply Merge_length in Hm. destruct c; [simpl in Hm; lia|done].
  - specialize (Hb ltac:(done)). destruct b as [|y' b].
    + apply Merge_nil_r_inv in Hm as ->. destruct a; [done|].
      by rewrite last_cons_cons.
    + rewrite last_cons_cons in Hb. rewrite <- IH by done.
      apply Merge_length in Hm. destruct c; [simpl in Hm; lia|done].
Qed.

(** With twice the same list. *)
Lemma Overlap_same a c : Overlap a a c → ∃ S, S `suffix_of` a ∧ Merge a S c.
Proof. intros [S [[]|[]]]; eauto. Qed.

Lemma elem_of_Overlap a c x : Overlap a a c → x ∈ c ↔ x ∈ a.
Proof.
  intros (S & [p ->] & Hm)%Overlap_same.
  rewrite (elem_of_Merge _ _ _ _ Hm). set_solver.
Qed.

Lemma Overlap_last_filter (P : A → Prop) `{!∀ x, Decision (P x)} a c :
  Overlap a a c → last (filter P c) = last (filter P a).
Proof.
  intros (S & [p ->] & Hm)%Overlap_same. apply (Merge_filter P) in Hm.
  apply (Merge_last _ _ _ Hm). rewrite filter_app, last_app.
  intros HS. destruct (last (filter P S)) eqn:Hl; [done|].
  by apply last_None in Hl.
Qed.

Lemma Merge_fmap_inv {B} (f : A → B) a b (c : list B) :
  Merge (f <$> a) (f <$> b) c → ∃ m, Merge a b m ∧ c = f <$> m.
Proof.
  intros Hm. remember (f <$> a) as a' eqn:Ha. remember (f <$> b) as b' eqn:Hb.
  revert a b Ha Hb.
  induction Hm as [|x a' b' c Hm IH|y a' b' c Hm IH]; intros a b Ha Hb.
  - destruct a, b; try done. exists []. split; [constructor|done].
  - destruct a as [|x' a]; simplify_eq/=.
    destruct (IH a b eq_refl eq_refl) as (m & ? & ->).
    exists (x' :: m). split; [by constructor|done].
  - destruct b as [|y' b]; simplify_eq/=.
    destruct (IH a b eq_refl eq_refl) as (m & ? & ->).
    exists (y' :: m). split; [by constructor|done].
Qed.

End merge_facts.

Section field_facts.
Context {X E : Type} (x0 : X) (upd : X → E → X).
Implicit Types (x : X) (es : list E) (s : list (Op E)).

Lemma foldl_op_Upd x es : foldl (op x0 upd) x (Upd <$> es) = foldl upd x es.
Proof. revert x; induction es; simpl; auto. Qed.

(** A call alone builds the field from its reset value. *)
Lemma foldl_field_ops x es : foldl (op x0 upd) x (field_ops es) = foldl upd x0 es.
Proof. apply foldl_op_Upd. Qed.

(** A call beside the end of another: after the reset the field holds
    what is built from all of the one and the end of the other. *)
Lemma Merge_field_Upd es1 es2 s x :
  Merge (field_ops es1) (Upd <$> es2) s →
  ∃ S m, S `suffix_of` es2 ∧ Merge es1 S m ∧
         foldl (op x0 upd) x s = foldl upd x0 m.
Proof.
  revert s x; induction es2 as [|e es2 IH]; intros s x Hm.
  - apply Merge_nil_r_inv in Hm as ->. exists [], es1.
    split_and!; [done|apply Merge_nil_r|apply foldl_field_ops].
  - inversion Hm as [|o a b c Hc|o a b c Hc]; subst.
    + apply Merge_fmap_inv in Hc as (m & Hc & ->). exists (e :: es2), m.
      split_and!; [done|done|apply foldl_op_Upd].
    + destruct (IH c (upd x e) Hc) as (S & m & HS & Hc' & Hm').
      exists S, m. split_and!; [by apply suffix_cons_r|done|done].
Qed.

(** Two calls at once. *)
Lemma Merge_field_ops es1 es2 s x :
  Merge (field_ops es1) (field_ops es2) s →
  ∃ m, Overlap es1 es2 m ∧ foldl (op x0 upd) x s = foldl upd x0 m.
Proof.
  intros Hm. inversion Hm as [|o a b c Hc|o a b c Hc]; subst.
  - apply Merge_sym, (Merge_field_Upd _ _ _ x0) in Hc as (S & m & HS & Hc & Hm').
    exists m. split; [exists S; by right|done].
  - apply (Merge_field_Upd _ _ _ x0) in Hc as (S & m & HS & Hc & Hm').
    exists m. split; [exists S; by left|done].
Qed.

End field_facts.

(** ** The writes of [loadConfig] *)

(** A write of [loadConfig] to the plugin: the reset of [v.ClientACLs]
    (l.182), the [append] that ends a turn of the loop over the raw
    clients (l.196-199), the new map of [v.ClientZones] (l.202), the
    assignment that ends a turn of the loop over the raw record sets
    (l.235). *)
Inductive Write : Type :=
| ResetACLs
| AppendACL (client : RawClientACL)
| MakeZones
| AssignZones (r : RawRecord).

Section writes.
Context `{!DNSConsts, !NetTypes, !NetLib, !HostLib}.

(** [v.ClientACLs] after a turn of the loop of l.184-200. *)
Definition append_acl (acls : list ClientACL) (client : RawClientACL) : list ClientACL :=
  (client_step (acls, []) client).1.

(** The plugin after a write. *)
Definition write (v : Views) (o : Write) : Views :=
  match o with
  | ResetACLs => with_config v [] (Views_ClientZones v)
  | AppendACL client =>
      with_config v (append_acl (Views_ClientACLs v) client) (Views_ClientZones v)
  | MakeZones => with_config v (Views_ClientACLs v) ∅
  | AssignZones r =>
      with_config v (Views_ClientACLs v) (record_step (Views_ClientZones v) r)
  end.

(** The plugin after a sequence of writes. *)
Definition run_writes (v : Views) (s : list Write) : Views := foldl write v s.

(** The writes of a call of [loadConfig] that has fetched [rawClients] and
    [rawRecords] (l.182-236). *)
Definition loadConfig_ops (rawClients : list RawClientACL)
    (rawRecords : list RawRecord) : list Write :=
  ResetACLs :: (AppendACL <$> rawClients) ++ MakeZones :: (AssignZones <$> rawRecords).

(** The writes to each of the two fields. *)
Definition acl_op (o : Write) : option (Op RawClientACL) :=
  match o with
  | ResetACLs => Some Reset
  | AppendACL client => Some (Upd client)
  | _ => None
  end.

Definition zone_op (o : Write) : option (Op RawRecord) :=
  match o with
  | MakeZones => Some Reset
  | AssignZones r => Some (Upd r)
  | _ => None
  end.

End writes.

Section writes_facts.
Context `{!DNSConsts, !NetTypes, !NetLib, !HostLib}.
Implicit Types (v : Views) (s : list Write) (clients : list RawClientACL)
  (records : list RawRecord).

Lemma run_writes_settings v s : same_settings (run_writes v s) v.
Proof.
  unfold run_writes. revert v; induction s as [|o s IH]; intros v; simpl; [done|].
  etrans; [apply IH|]. destruct o; apply with_config_settings.
Qed.

Lemma run_writes_ClientACLs v s :
  Views_ClientACLs (run_writes v s) =
  foldl (op [] append_acl) (Views_ClientACLs v) (omap acl_op s).
Proof.
  unfold run_writes. revert v; induction s as [|o s IH]; intros v; simpl; [done|].
  rewrite IH. by destruct o.
Qed.

Lemma run_writes_ClientZones v s :
  Views_ClientZones (run_writes v s) =
  foldl (op ∅ record_step) (Views_ClientZones v) (omap zone_op s).
Proof.
  unfold run_writes. revert v; induction s as [|o s IH]; intros v; simpl; [done|].
  rewrite IH. by destruct o.
Qed.

Lemma omap_acl_op_AppendACL clients :
  omap acl_op (AppendACL <$> clients) = Upd <$> clients.
Proof. induction clients; simpl; by f_equal. Qed.

Lemma omap_acl_op_AssignZones records :
  omap acl_op (MakeZones :: (AssignZones <$> records)) = [].
Proof. simpl. by induction records. Qed.

Lemma omap_zone_op_AppendACL clients :
  omap zone_op (AppendACL <$> clients) = [].
Proof. by induction clients. Qed.

Lemma omap_zone_op_AssignZones records :
  omap zone_op (MakeZones :: (AssignZones <$> records)) = field_ops records.
Proof. unfold field_ops. simpl. f_equal. induction records; simpl; by f_equal. Qed.

Lemma omap_acl_op clients records :
  omap acl_op (loadConfig_ops clients records) = field_ops clients.
Proof.
  unfold loadConfig_ops, field_ops. rewrite app_comm_cons, omap_app.
  rewrite omap_acl_op_AssignZones, app_nil_r. simpl. f_equal.
  apply omap_acl_op_AppendACL.
Qed.

Lemma omap_zone_op clients records :
  omap zone_op (loadConfig_ops clients records) = field_ops records.
Proof.
  unfold loadConfig_ops. simpl. rewrite omap_app.
  by rewrite omap_zone_op_AppendACL, omap_zone_op_AssignZones.
Qed.

Lemma foldl_append_acl clients : foldl append_acl [] clients = acl_of <$> clients.
Proof. apply (foldl_client_step_fst clients []). Qed.

(** The plugin is its settings and its two fields. *)
Lemma run_writes_eq v s acls zones :
  Views_ClientACLs (run_writes v s) = acls →
  Views_ClientZones (run_writes v s) = zones →
  run_writes v s = with_config v acls zones.
Proof.
  intros Ha Hz. apply Views_eq.
  - etrans; [apply run_writes_settings|]. symmetry. apply with_config_settings.
  - rewrite with_config_snapshot. unfold snapshot. by rewrite Ha, Hz.
Qed.

(** A call alone. *)
Lemma run_writes_loadConfig_ops v clients records :
  run_writes v (loadConfig_ops clients records) =
  with_config v (acl_of <$> clients) (build_ClientZones records).
Proof.
  apply run_writes_eq.
  - by rewrite run_writes_ClientACLs, omap_acl_op, foldl_field_ops, foldl_append_acl.
  - by rewrite run_writes_ClientZones, omap_zone_op, foldl_field_ops.
Qed.

(** Two calls at once. *)
Lemma run_writes_Merge v clients1 records1 clients2 records2 s :
  Merge (loadConfig_ops clients1 records1) (loadConfig_ops clients2 records2) s →
  ∃ mc mr, Overlap clients1 clients2 mc ∧ Overlap records1 records2 mr ∧
    run_writes v s = with_config v (acl_of <$> mc) (build_ClientZones mr).
Proof.
  intros Hm.
  pose proof (Merge_omap acl_op _ _ _ Hm) as Ha. rewrite !omap_acl_op in Ha.
  pose proof (Merge_omap zone_op _ _ _ Hm) as Hz. rewrite !omap_zone_op in Hz.
  apply (Merge_field_ops [] append_acl _ _ _ (Views_ClientACLs v)) in Ha
    as (mc & Hmc & Ha).
  apply (Merge_field_ops ∅ record_step _ _ _ (Views_ClientZones v)) in Hz
    as (mr & Hmr & Hz).
  exists mc, mr. split_and!; [done..|]. apply run_writes_eq.
  - by rewrite run_writes_ClientACLs, Ha, foldl_append_acl.
  - by rewrite run_writes_ClientZones, Hz.
Qed.

(** The writes of a call from its [k]-th [append] on. *)
Definition ops_from clients2 records : list Write :=
  (AppendACL <$> clients2) ++ MakeZones :: (AssignZones <$> records).

Lemma loadConfig_ops_app clients1 clients2 records :
  loadConfig_ops (clients1 ++ clients2) records =
  (ResetACLs :: (AppendACL <$> clients1)) ++ ops_from clients2 records.
Proof. unfold loadConfig_ops, ops_from. by rewrite fmap_app, <-app_assoc. Qed.

(** One call resets the groups and appends [clients1]; the other resets
    them again; the first appends the rest, [clients2], and the second
    then appends all of its own. *)
Definition late_reset clients1 clients2 records : list Write :=
  (ResetACLs :: (AppendACL <$> clients1)) ++
  ResetACLs :: ops_from clients2 records ++ ops_from (clients1 ++ clients2) records.

Lemma late_reset_Merge clients1 clients2 records :
  Merge (loadConfig_ops (clients1 ++ clients2) records)
        (loadConfig_ops (clients1 ++ clients2) records)
        (late_reset clients1 clients2 records).
Proof.
  rewrite loadConfig_ops_app at 1. apply Merge_app_l.
  apply Merge_r, Merge_app.
Qed.

Lemma omap_acl_op_ops_from clients records :
  omap acl_op (ops_from clients records) = Upd <$> clients.
Proof.
  unfold ops_from.
  by rewrite omap_app, omap_acl_op_AssignZones, omap_acl_op_AppendACL, app_nil_r.
Qed.

Lemma omap_zone_op_ops_from clients records :
  omap zone_op (ops_from clients records) = field_ops records.
Proof.
  unfold ops_from.
  by rewrite omap_app, omap_zone_op_AssignZones, omap_zone_op_AppendACL.
Qed.

Lemma run_writes_late_reset v clients1 clients2 records :
  run_writes v (late_reset clients1 clients2 records) =
  with_config v (acl_of <$> clients2 ++ clients1 ++ clients2)
    (build_ClientZones records).
Proof.
  apply run_writes_eq.
  - rewrite run_writes_ClientACLs. unfold late_reset.
    rewrite omap_app, foldl_app. simpl.
    rewrite omap_app, !omap_acl_op_ops_from, <-fmap_app.
    by rewrite foldl_op_Upd, foldl_append_acl.
  - rewrite run_writes_ClientZones. unfold late_reset.
    rewrite omap_app. simpl.
    rewrite omap_zone_op_AppendACL, omap_app, !omap_zone_op_ops_from. simpl.
    rewrite foldl_app.
    by rewrite !foldl_field_ops.
Qed.

End writes_facts.

(** ** Two calls that read the same documents *)

Section same_documents.
Context `{!DNSConsts, !NetTypes, !NetLib, !HostLib}.
Implicit Types (acls : list ClientACL) (ip : IP).

(** The groups that contain an address all name one view. *)
Definition one_view acls ip : Prop :=
  Forall (λ g, Forall (λ g', group_contains ip g → group_contains ip g' →
                             ClientACL_Name g = ClientACL_Name g') acls) acls.

#[global] Instance one_view_dec acls ip : Decision (one_view acls ip).
Proof. unfold one_view. apply _. Defined.

Lemma one_view_elem_of acls ip g g' :
  one_view acls ip → g ∈ acls → g' ∈ acls →
  group_contains ip g → group_contains ip g' →
  ClientACL_Name g = ClientACL_Name g'.
Proof.
  intros Hone Hg Hg'. eapply Forall_forall in Hone; [|exact Hg].
  eapply Forall_forall in Hone; [|exact Hg']. done.
Qed.

Lemma build_ClientZones_Overlap (records mr : list RawRecord) :
  Overlap records records mr → build_ClientZones mr = build_ClientZones records.
Proof.
  intros Ho. apply map_eq; intros n. rewrite !build_ClientZones_lookup.
  by rewrite (Overlap_last_filter _ _ _ Ho).
Qed.

(** The view of a client depends on the set of the groups only, when the
    groups that contain it name one view. *)
Lemma match_group_elem_of acls acls' ip :
  (∀ g, g ∈ acls' ↔ g ∈ acls) → one_view acls ip →
  match_group acls' ip = match_group acls ip.
Proof.
  intros Hel Hone. unfold match_group, find_group.
  destruct (find (group_contains ip) acls') as [g'|] eqn:Hf';
    destruct (find (group_contains ip) acls) as [g|] eqn:Hf; simpl; [| | |done].
  - apply find_some in Hf' as [Hin'%list_elem_of_In Hc'].
    apply find_some in Hf as [Hin%list_elem_of_In Hc].
    f_equal. apply (one_view_elem_of acls ip); [done|by apply Hel|done|by rewrite Hc'|by rewrite Hc].
  - apply find_some in Hf' as [Hin'%list_elem_of_In%Hel%list_elem_of_In Hc'].
    apply (find_none _ _ Hf) in Hin'. congruence.
  - apply find_some in Hf as [Hin%list_elem_of_In%Hel%list_elem_of_In Hc].
    apply (find_none _ _ Hf') in Hin. congruence.
Qed.

Lemma resolve_Overlap v (clients mc : list RawClientACL) (records mr : list RawRecord)
    ip qname qtype :
  Overlap clients clients mc → Overlap records records mr →
  one_view (acl_of <$> clients) ip →
  resolve (with_config v (acl_of <$> mc) (build_ClientZones mr)) ip qname qtype =
  resolve (with_config v (acl_of <$> clients) (build_ClientZones records)) ip qname qtype.
Proof.
  intros Hmc Hmr Hone. unfold resolve. simpl.
  rewrite (build_ClientZones_Overlap _ _ Hmr).
  rewrite (match_group_elem_of (acl_of <$> clients) (acl_of <$> mc)); [done| |done].
  intros g. rewrite !list_elem_of_fmap. by setoid_rewrite (elem_of_Overlap _ _ _ Hmc).
Qed.

End same_documents.

(** ** Calls of [loadConfig] *)

Section calls.
Context `{!SchemaConsts, !DNSConsts, !NetTypes, !NetLib, !HostLib, !HTTPTypes, !HTTPLib}.
Context `{!Decoder (list RawClientACL), !Decoder (list RawRecord)}.
Implicit Types (w : World) (v : Views) (s : list Write) (ip : IP)
  (qname : string) (qtype : Z).

(** The writes of a call of [loadConfig] in the world [w]: those of the
    documents it fetches (l.154-237). *)
Definition load_ops w v : list Write :=
  loadConfig_ops (fetch_out (client_fetch w v)) (fetch_out (record_fetch w v)).

(** The writes of a call, one after the other and nothing in between,
    leave the plugin as [loadConfig] leaves it. *)
Lemma run_writes_load_ops w v :
  run_writes v (load_ops w v) = loaded_views (loadConfig w v).
Proof. unfold load_ops. by rewrite run_writes_loadConfig_ops, loadConfig_views. Qed.

(** C17. Two calls at once, whatever the order of their writes, leave the
    settings alone and build each field from the documents of both: the
    groups are those of all the raw clients of one call interleaved with
    the last raw clients of the other, and the record sets are built from
    all the raw record sets of one call interleaved with the last of the
    other. *)
Theorem concurrent_loads_Overlap w1 w2 v s :
  Merge (load_ops w1 v) (load_ops w2 v) s →
  ∃ mc mr,
    Overlap (fetch_out (client_fetch w1 v)) (fetch_out (client_fetch w2 v)) mc ∧
    Overlap (fetch_out (record_fetch w1 v)) (fetch_out (record_fetch w2 v)) mr ∧
    run_writes v s = with_config v (acl_of <$> mc) (build_ClientZones mr).
Proof. apply run_writes_Merge. Qed.

(** C18. Two calls at once that read the same documents answer a client
    as one call does, whatever the order of their writes, when the groups
    that contain the client name one view. *)
Theorem concurrent_loads_resolve w v s ip qname qtype :
  Merge (load_ops w v) (load_ops w v) s →
  one_view (Views_ClientACLs (loaded_views (loadConfig w v))) ip →
  resolve (run_writes v s) ip qname qtype =
  resolve (loaded_views (loadConfig w v)) ip qname qtype.
Proof.
  rewrite loadConfig_views. simpl.
  intros (mc & mr & Hmc & Hmr & ->)%(run_writes_Merge v) Hone.
  by apply resolve_Overlap.
Qed.

(** C16. Two calls at once can put any group of the document first.  For
    every group [client] of the document the calls fetch there is an order
    of their writes (one call resets and appends the groups before
    [client], the other resets, the first goes on) after which the groups
    are those from [client] on followed by the whole document, the record
    sets are those of the document, and every address [client] contains is
    matched to the view of [client], whichever groups come before it in
    the document. *)
Theorem concurrent_loads_may_reorder w v clients1 client clients2 :
  fetch_out (client_fetch w v) = clients1 ++ client :: clients2 →
  ∃ s, Merge (load_ops w v) (load_ops w v) s ∧
       run_writes v s =
         with_config v
           (acl_of <$> (client :: clients2) ++ clients1 ++ client :: clients2)
           (build_ClientZones (fetch_out (record_fetch w v))) ∧
       ∀ ip, group_contains ip (acl_of client) →
             match_group (Views_ClientACLs (run_writes v s)) ip =
             Some (RawClientACL_Name client).
Proof.
  intros Hdoc. unfold load_ops. rewrite Hdoc.
  exists (late_reset clients1 (client :: clients2) (fetch_out (record_fetch w v))).
  split; [apply late_reset_Merge|]. rewrite run_writes_late_reset.
  split; [done|]. intros ip Hip. unfold match_group, find_group. simpl.
  by rewrite (Is_true_true_1 _ Hip).
Qed.

End calls.

(** ** Runs *)

(** The start-up hook resets the groups and appends the first of them; a
    tick comes, and its call resets the groups again; the hook appends its
    second group before the call of the tick appends its two. *)
Definition schedule_ex : list bool := [true; true; false; true; false; false].

Definition writes_ex : list Write :=
  merge schedule_ex (load_ops world_ok settings_ex) (load_ops world_ok settings_ex).

Example run_writes_ex :
  ClientACL_Name <$> Views_ClientACLs (run_writes settings_ex writes_ex) =
  ["external"; "internal"; "external"].
Proof. vm_compute. reflexivity. Qed.

(** The same, by the answers: the internal client is answered from the
    external view. *)
Example concurrent_loads_reorder :
  ∃ s, Merge (load_ops world_ok settings_ex) (load_ops world_ok settings_ex) s ∧
       resolve (loaded_views (loadConfig world_ok settings_ex))
         client_internal "host.example.com" TypeA =
       Some {| Answer_TTL := 300; Answer_Type := TypeA; Answer_Value := "10.1.2.3." |} ∧
       resolve (run_writes settings_ex s) client_internal "host.example.com" TypeA =
       Some {| Answer_TTL := 300; Answer_Type := TypeA; Answer_Value := "203.0.113.9." |}.
Proof.
  exists writes_ex. split; [apply Merge_merge|]. split; vm_compute; reflexivity.
Qed.

Lemma concurrent_loads_Overlap_witness :
  ∃ mc mr,
    Overlap (fetch_out (client_fetch world_ok settings_ex))
      (fetch_out (client_fetch world_ok settings_ex)) mc ∧
    Overlap (fetch_out (record_fetch world_ok settings_ex))
      (fetch_out (record_fetch world_ok settings_ex)) mr ∧
    run_writes settings_ex writes_ex =
    with_config settings_ex (acl_of <$> mc) (build_ClientZones mr).
Proof. apply concurrent_loads_Overlap. apply Merge_merge. Defined.

Lemma concurrent_loads_resolve_witness :
  resolve (run_writes settings_ex writes_ex) client_external "host.example.com" TypeA =
  resolve (loaded_views (loadConfig world_ok settings_ex))
    client_external "host.example.com" TypeA.
Proof. apply concurrent_loads_resolve; [apply Merge_merge|compute_done]. Defined.

Lemma concurrent_loads_may_reorder_witness :
  ∃ s, Merge (load_ops world_ok settings_ex) (load_ops world_ok settings_ex) s ∧
       run_writes settings_ex s =
         with_config settings_ex
           (acl_of <$> (mkRawClientACL "external" ["0.0.0.0/0"] :: []) ++
              [mkRawClientACL "internal" ["10.0.0.0/8"]] ++
              mkRawClientACL "external" ["0.0.0.0/0"] :: [])
           (build_ClientZones (fetch_out (record_fetch world_ok settings_ex))) ∧
       ∀ ip, group_contains ip (acl_of (mkRawClientACL "external" ["0.0.0.0/0"])) →
             match_group (Views_ClientACLs (run_writes settings_ex s)) ip =
             Some (RawClientACL_Name (mkRawClientACL "external" ["0.0.0.0/0"])).
Proof. apply concurrent_loads_may_reorder. vm_compute. reflexivity. Defined.
