(* ===== verification/Concurrent.v ===== *)
(** * The two callers of [loadConfig], write by write ([setup.go] l.55-58,
      l.136-152, l.154-237)

    [loadConfig] is called by the start-up hook (l.56) and by the goroutine
    of [reload] on every tick (l.146), on the same plugin [*v] and with no
    lock.  [Lifecycle] takes a call as one step; here a call is what the
    source runs: it enters (l.155-180: the two documents are fetched and
    the errors logged) and then does its writes one at a time (l.182-236,
    the writes of [Interleave]), and between two of them the other caller,
    the server and the run-time take their steps.

    A state [Conc] is the plugin of [Lifecycle] with, for each caller, the
    writes its call has still to do.  The steps [CStep] are: a caller
    enters [loadConfig] ([Enter]), a caller does its next write
    ([DoWrite]), and the steps of [Lifecycle] that are not loads ([Sync]).
    The goroutine is sequential: it enters, makes its ticker or returns
    only when its call has returned; the start-up hook does not enter
    again while its call runs.  The shutdown hook and the ticker are not
    held back by a call.  [cstep] is the relation as a function and
    [CReachable] its closure.

    The theorems: [cstep] and [CStep] agree; a run of [Lifecycle] is the
    run here in which every call does all its writes before anything else
    happens; a call whose writes no write of the other caller comes
    between leaves what [loadConfig] leaves, whatever else happens
    meanwhile; every interleaving of the writes of two calls is a run of
    the plugin [setup] returns; the settings and the well-formedness of
    the record sets hold in every state, between the writes too.

    Not modelled: what overlaps inside one write (see [Interleave]), and a
    world that changes between the two fetches of one call. *)

From Stdlib Require Import ZArith String Ascii List Lia.
From stdpp Require Import base tactics option list strings gmap.
From S2P Require Import Prelude GoStrings Libs Types Schema Netip DnsName Samples.
From S2P Require Import Corefile Fetch Build Loader Lifecycle Resolver Publish Interleave.

(** Who calls [loadConfig]. *)
Inductive Caller : Type :=
| Hook     (** the start-up hook, l.56 *)
| Reload.  (** the goroutine of [reload], l.146 *)

#[global] Instance Caller_eq_dec : EqDecision Caller.
Proof. solve_decision. Defined.

Section concurrent.
Context `{!SchemaConsts, !DNSConsts, !NetTypes, !NetLib, !HostLib, !HTTPTypes, !HTTPLib, !TimeLib, !PluginLib}.
Context `{!Decoder (list RawClientACL), !Decoder (list RawRecord)}.

(** ** The state *)

Record Conc : Type := mkConc {
  conc_plugin : Plugin;
  (** the writes the call of the start-up hook has still to do *)
  conc_hook : list Write;
  (** the writes the call of the goroutine has still to do *)
  conc_reload : list Write;
}.

Inductive Action : Type :=
| Enter (c : Caller) (w : World)
| DoWrite (c : Caller)
| Sync (ev : Event).

(** Nobody is in [loadConfig]. *)
Definition idle (p : Plugin) : Conc :=
  {| conc_plugin := p; conc_hook := []; conc_reload := [] |}.

Definition calling (c : Caller) (s : Conc) : list Write :=
  match c with
  | Hook => conc_hook s
  | Reload => conc_reload s
  end.

Definition with_calling (c : Caller) (ops : list Write) (s : Conc) : Conc :=
  match c with
  | Hook => {| conc_plugin := conc_plugin s; conc_hook := ops;
               conc_reload := conc_reload s |}
  | Reload => {| conc_plugin := conc_plugin s; conc_hook := conc_hook s;
                 conc_reload := ops |}
  end.

Definition with_plugin (p : Plugin) (s : Conc) : Conc :=
  {| conc_plugin := p; conc_hook := conc_hook s; conc_reload := conc_reload s |}.

(** ** The statements *)

(** What a write logs: the warnings of the prefixes of its raw client
    (l.189), logged in the turn of the loop that ends with the [append]. *)
Definition write_log (o : Write) : Log :=
  match o with
  | AppendACL client => cidr_warnings client
  | _ => []
  end.

(** [loadConfig] up to its loops (l.155-180): the documents are fetched
    and the errors logged; [*v] is read, not written. *)
Definition fetch_plugin (w : World) (p : Plugin) : Plugin :=
  {| plugin_v := plugin_v p;
     plugin_reloadChan := plugin_reloadChan p;
     plugin_goroutine := plugin_goroutine p;
     plugin_ticker := plugin_ticker p;
     plugin_process := plugin_process p;
     plugin_log := plugin_log p ++
       log_err (fetch_err (client_fetch w (plugin_v p))) ++
       log_err (fetch_err (record_fetch w (plugin_v p)));
     plugin_io := plugin_io p ++
       fetch_io (client_fetch w (plugin_v p)) ++
       fetch_io (record_fetch w (plugin_v p)) |}.

(** One write of l.182-236 on the plugin. *)
Definition write_plugin (p : Plugin) (o : Write) : Plugin :=
  {| plugin_v := write (plugin_v p) o;
     plugin_reloadChan := plugin_reloadChan p;
     plugin_goroutine := plugin_goroutine p;
     plugin_ticker := plugin_ticker p;
     plugin_process := plugin_process p;
     plugin_log := plugin_log p ++ write_log o;
     plugin_io := plugin_io p |}.

(** A caller enters [loadConfig]: its writes are those of the documents it
    has fetched. *)
Definition enter (c : Caller) (w : World) (s : Conc) : Conc :=
  with_calling c (load_ops w (plugin_v (conc_plugin s)))
    (with_plugin (fetch_plugin w (conc_plugin s)) s).

(** A caller does its next write. *)
Definition do_write (c : Caller) (s : Conc) : Conc :=
  match calling c s with
  | [] => s
  | o :: ops => with_calling c ops (with_plugin (write_plugin (conc_plugin s) o) s)
  end.

(** The steps of [Lifecycle] taken as they are: those that do not load;
    the goroutine takes its own (l.140, l.143-144) only when it is not in
    [loadConfig]; the shutdown hook (l.61) and the ticker wait for
    nobody. *)
Definition sync_ok (ev : Event) (s : Conc) : Prop :=
  match ev with
  | OnStartup _ | SelectTick _ => False
  | NewTicker | SelectStop => conc_reload s = []
  | OnShutdown | Tick => True
  end.

#[global] Instance sync_ok_dec ev s : Decision (sync_ok ev s).
Proof. destruct ev; simpl; apply _. Defined.

(** ** The steps *)

Inductive CStep : Conc → Action → Conc → Prop :=
| CStep_Enter_Hook w s :
    plugin_process (conc_plugin s) = Running →
    conc_hook s = [] →
    CStep s (Enter Hook w) (enter Hook w s)
| CStep_Enter_Reload w s :
    plugin_process (conc_plugin s) = Running →
    plugin_goroutine (conc_plugin s) = GoSelect →
    plugin_ticker (conc_plugin s) = Some true →
    conc_reload s = [] →
    CStep s (Enter Reload w)
      (enter Reload w (with_plugin (with_ticker (Some false) (conc_plugin s)) s))
| CStep_DoWrite c s :
    plugin_process (conc_plugin s) = Running →
    calling c s ≠ [] →
    CStep s (DoWrite c) (do_write c s)
| CStep_Sync ev s p' :
    sync_ok ev s →
    Step (conc_plugin s) ev p' →
    CStep s (Sync ev) (with_plugin p' s).

(** The relation as a function: [None] when the step cannot be taken. *)
Definition cstep (s : Conc) (a : Action) : option Conc :=
  match a with
  | Enter Hook w =>
      if decide (plugin_process (conc_plugin s) = Running ∧ conc_hook s = [])
      then Some (enter Hook w s) else None
  | Enter Reload w =>
      if decide (plugin_process (conc_plugin s) = Running ∧
                 plugin_goroutine (conc_plugin s) = GoSelect ∧
                 plugin_ticker (conc_plugin s) = Some true ∧
                 conc_reload s = [])
      then Some (enter Reload w
                   (with_plugin (with_ticker (Some false) (conc_plugin s)) s))
      else None
  | DoWrite c =>
      if decide (plugin_process (conc_plugin s) = Running ∧ calling c s ≠ [])
      then Some (do_write c s) else None
  | Sync ev =>
      if decide (sync_ok ev s)
      then p' ← step (conc_plugin s) ev; Some (with_plugin p' s)
      else None
  end.

(** A sequence of steps. *)
Fixpoint crun (s : Conc) (acts : list Action) : option Conc :=
  match acts with
  | [] => Some s
  | a :: acts => s' ← cstep s a; crun s' acts
  end.

(** The states reached, with the steps that lead there. *)
Inductive CReachable (s0 : Conc) : list Action → Conc → Prop :=
| CReachable_init : CReachable s0 [] s0
| CReachable_step acts s a s' :
    CReachable s0 acts s → CStep s a s' → CReachable s0 (acts ++ [a]) s'.

(** ** A run of [Lifecycle], write by write *)

(** A call that does all its writes before anything else happens. *)
Definition call (c : Caller) (w : World) (p : Plugin) : list Action :=
  Enter c w :: replicate (length (load_ops w (plugin_v p))) (DoWrite c).

(** The steps of an event of [Lifecycle]. *)
Definition actions_of (p : Plugin) (ev : Event) : list Action :=
  match ev with
  | OnStartup w => call Hook w p
  | SelectTick w => call Reload w p
  | _ => [Sync ev]
  end.

(** The steps of a run of [Lifecycle]. *)
Fixpoint actions (p : Plugin) (evs : list Event) : list Action :=
  match evs with
  | [] => []
  | ev :: evs =>
      actions_of p ev ++
      match step p ev with
      | Some p' => actions p' evs
      | None => []
      end
  end.

(** ** Calls that do not overlap *)

(** A step that leaves the call of [c] alone: not a write of the other
    caller, and not [c] entering again. *)
Definition quiet (c : Caller) (a : Action) : bool :=
  match a with
  | Enter c' _ => bool_decide (c' ≠ c)
  | DoWrite c' => bool_decide (c' = c)
  | Sync _ => true
  end.

End concurrent.

(** ** The relation, the function and the closure *)

Section concurrent_facts.
Context `{!SchemaConsts, !DNSConsts, !NetTypes, !NetLib, !HostLib, !HTTPTypes, !HTTPLib, !TimeLib, !PluginLib}.
Context `{!Decoder (list RawClientACL), !Decoder (list RawRecord)}.
Implicit Types (p : Plugin) (s : Conc) (a : Action) (acts : list Action)
  (c : Caller) (w : World) (v : Views) (o : Write) (ops : list Write).

Lemma CStep_cstep s a s' : CStep s a s' → cstep s a = Some s'.
Proof.
  destruct 1 as [| | |ev s p' Hok Hstep]; simpl.
  - by rewrite decide_True.
  - by rewrite decide_True.
  - by rewrite decide_True.
  - by rewrite decide_True, (Step_step _ _ _ Hstep).
Qed.

Lemma cstep_CStep s a s' : cstep s a = Some s' → CStep s a s'.
Proof.
  destruct a as [[] w|c|ev]; simpl; case_decide as Hg; try done.
  - intros [= <-]. destruct Hg. by constructor.
  - intros [= <-]. destruct Hg as (?&?&?&?). by constructor.
  - intros [= <-]. destruct Hg. by constructor.
  - destruct (step (conc_plugin s) ev) as [p'|] eqn:Hstep; [|done].
    intros [= <-]. constructor; [done|by apply step_Step].
Qed.

Lemma crun_cons s a acts : crun s (a :: acts) = s' ← cstep s a; crun s' acts.
Proof. done. Qed.

Lemma crun_app s acts1 acts2 :
  crun s (acts1 ++ acts2) = s' ← crun s acts1; crun s' acts2.
Proof.
  revert s; induction acts1 as [|a acts1 IH]; intros s; simpl; [done|].
  destruct (cstep s a); simpl; [apply IH|done].
Qed.

Lemma crun_snoc s acts a : crun s (acts ++ [a]) = s' ← crun s acts; cstep s' a.
Proof.
  rewrite crun_app. destruct (crun s acts) as [s'|]; simpl; [|done].
  by destruct (cstep s' a).
Qed.

Lemma CReachable_crun s0 acts s : CReachable s0 acts s ↔ crun s0 acts = Some s.
Proof.
  split.
  - induction 1 as [|acts s a s' _ IH Hstep]; [done|].
    rewrite crun_snoc, IH. simpl. by apply CStep_cstep.
  - revert s; induction acts as [|a acts IH] using rev_ind; intros s.
    + intros [= <-]. constructor.
    + rewrite crun_snoc. destruct (crun s0 acts) as [s1|] eqn:Hrun; [|done].
      simpl. intros Hstep%cstep_CStep. econstructor; eauto.
Qed.

Lemma CReachable_app s0 acts1 acts2 s :
  CReachable s0 (acts1 ++ acts2) s ↔
  ∃ s1, CReachable s0 acts1 s1 ∧ CReachable s1 acts2 s.
Proof.
  setoid_rewrite CReachable_crun. rewrite crun_app.
  destruct (crun s0 acts1) as [s1|]; simpl; naive_solver.
Qed.

Lemma CReachable_cons s0 a acts s :
  CReachable s0 (a :: acts) s ↔ ∃ s1, CStep s0 a s1 ∧ CReachable s1 acts s.
Proof.
  rewrite CReachable_crun. setoid_rewrite CReachable_crun. simpl. split.
  - destruct (cstep s0 a) as [s1|] eqn:Hstep; [|done].
    exists s1. split; [by apply cstep_CStep|done].
  - intros (s1 & ->%CStep_cstep & Hrun). done.
Qed.

(** ** What a step does *)

Lemma CStep_running s a s' :
  CStep s a s' → plugin_process (conc_plugin s) = Running.
Proof. destruct 1; try done. by eapply Step_running. Qed.

Lemma calling_with_calling c c' ops s :
  calling c (with_calling c' ops s) = if decide (c' = c) then ops else calling c s.
Proof. by destruct c, c'. Qed.

Lemma calling_with_plugin c p s : calling c (with_plugin p s) = calling c s.
Proof. by destruct c. Qed.

Lemma conc_plugin_with_calling c ops s :
  conc_plugin (with_calling c ops s) = conc_plugin s.
Proof. by destruct c. Qed.

Lemma conc_plugin_do_write c s :
  conc_plugin (do_write c s) =
  match calling c s with
  | [] => conc_plugin s
  | o :: _ => write_plugin (conc_plugin s) o
  end.
Proof.
  unfold do_write. destruct (calling c s); [done|].
  by rewrite conc_plugin_with_calling.
Qed.

Lemma calling_do_write c c' s :
  calling c (do_write c' s) = if decide (c' = c) then tail (calling c s) else calling c s.
Proof.
  unfold do_write. destruct (calling c' s) as [|o ops] eqn:Hc'.
  - case_decide; [by subst; rewrite Hc'|done].
  - rewrite calling_with_calling, calling_with_plugin.
    case_decide; [by subst; rewrite Hc'|done].
Qed.

(** A step of [Lifecycle] that is not a load leaves [*v] alone. *)
Lemma Step_sync_plugin_v ev s p' :
  sync_ok ev s → Step (conc_plugin s) ev p' → plugin_v p' = plugin_v (conc_plugin s).
Proof. intros Hok ->%Step_plugin_v. by destruct ev. Qed.

(** What a step does to the plugin [*v]: one write, or nothing. *)
Lemma CStep_plugin_v s a s' :
  CStep s a s' →
  plugin_v (conc_plugin s') =
  match a with
  | DoWrite c => foldl write (plugin_v (conc_plugin s)) (take 1 (calling c s))
  | _ => plugin_v (conc_plugin s)
  end.
Proof.
  destruct 1 as [| |c s|ev s p' Hok Hstep].
  - done.
  - done.
  - rewrite conc_plugin_do_write. by destruct (calling c s).
  - by apply (Step_sync_plugin_v ev).
Qed.

(** What a step does to the writes a caller has still to do. *)
Lemma CStep_calling c s a s' :
  CStep s a s' →
  calling c s' =
  match a with
  | Enter c' w =>
      if decide (c' = c) then load_ops w (plugin_v (conc_plugin s)) else calling c s
  | DoWrite c' => if decide (c' = c) then tail (calling c s) else calling c s
  | Sync _ => calling c s
  end.
Proof.
  destruct 1 as [| |c' s|ev s p' Hok Hstep].
  - by destruct c.
  - by destruct c.
  - apply calling_do_write.
  - apply calling_with_plugin.
Qed.

Lemma write_settings v o : same_settings (write v o) v.
Proof. destruct o; apply with_config_settings. Qed.

Lemma CStep_same_settings s a s' :
  CStep s a s' → same_settings (plugin_v (conc_plugin s')) (plugin_v (conc_plugin s)).
Proof.
  intros ->%CStep_plugin_v. destruct a as [| c|]; try done.
  destruct (calling c s); [done|apply write_settings].
Qed.

Lemma CReachable_same_settings s0 acts s :
  CReachable s0 acts s →
  same_settings (plugin_v (conc_plugin s)) (plugin_v (conc_plugin s0)).
Proof.
  induction 1 as [|acts s a s' _ IH Hstep]; [done|].
  etrans; [by eapply CStep_same_settings|done].
Qed.

End concurrent_facts.

(** ** A call that does its writes *)

Section calls_facts.
Context `{!SchemaConsts, !DNSConsts, !NetTypes, !NetLib, !HostLib, !HTTPTypes, !HTTPLib, !TimeLib, !PluginLib}.
Context `{!Decoder (list RawClientACL), !Decoder (list RawRecord)}.
Implicit Types (p : Plugin) (s : Conc) (a : Action) (acts : list Action)
  (c : Caller) (w : World) (v : Views) (o : Write) (ops : list Write).

(** The plugin after a sequence of writes. *)
Lemma foldl_write_plugin p ops :
  foldl write_plugin p ops =
  {| plugin_v := run_writes (plugin_v p) ops;
     plugin_reloadChan := plugin_reloadChan p;
     plugin_goroutine := plugin_goroutine p;
     plugin_ticker := plugin_ticker p;
     plugin_process := plugin_process p;
     plugin_log := plugin_log p ++ (ops ≫= write_log);
     plugin_io := plugin_io p |}.
Proof.
  revert p; induction ops as [|o ops IH]; intros p; simpl.
  - rewrite app_nil_r. by destruct p.
  - rewrite IH. simpl. by rewrite <-app_assoc.
Qed.

Lemma loadConfig_ops_log (clients : list RawClientACL) (records : list RawRecord) :
  loadConfig_ops clients records ≫= write_log = clients ≫= cidr_warnings.
Proof.
  unfold loadConfig_ops. rewrite bind_cons, bind_app, bind_cons. simpl.
  replace ((AssignZones <$> records) ≫= write_log) with (@nil LogEntry)
    by (by induction records).
  rewrite app_nil_r. induction clients; simpl; [done|by f_equal].
Qed.

(** A call that enters and does all its writes is a load of [Lifecycle]. *)
Lemma foldl_write_plugin_load w p :
  foldl write_plugin (fetch_plugin w p) (load_ops w (plugin_v p)) = load w p.
Proof.
  rewrite foldl_write_plugin. unfold load. f_equal.
  - apply run_writes_load_ops.
  - unfold load_ops. rewrite loadConfig_ops_log, loadConfig_log.
    unfold fetch_plugin. cbn [plugin_log plugin_v]. by rewrite <-!app_assoc.
  - by rewrite loadConfig_unfold.
Qed.

(** The writes of a caller one after the other. *)
Lemma crun_DoWrite c s :
  plugin_process (conc_plugin s) = Running →
  crun s (replicate (length (calling c s)) (DoWrite c)) =
  Some (with_calling c [] (with_plugin (foldl write_plugin (conc_plugin s) (calling c s)) s)).
Proof.
  remember (calling c s) as ops eqn:Hops. revert s Hops.
  induction ops as [|o ops IH]; intros s Hops Hrun; simpl.
  - f_equal. destruct c, s; simpl in *; by subst.
  - rewrite decide_True by (by rewrite <-Hops). simpl.
    rewrite IH.
    + unfold do_write. rewrite <-Hops. f_equal. by destruct c, s.
    + by rewrite calling_do_write, decide_True, <-Hops.
    + by rewrite conc_plugin_do_write, <-Hops.
Qed.

Lemma crun_call c w s s' :
  CStep s (Enter c w) s' →
  calling c s' = load_ops w (plugin_v (conc_plugin s)) →
  plugin_process (conc_plugin s') = Running →
  crun s (call c w (conc_plugin s)) =
  Some (with_calling c [] (with_plugin (foldl write_plugin (conc_plugin s') (calling c s')) s')).
Proof.
  intros Hstep Hops Hrun. unfold call.
  rewrite crun_cons, (CStep_cstep _ _ _ Hstep), <-Hops.
  by apply crun_DoWrite.
Qed.

Lemma crun_call_Hook w p :
  plugin_process p = Running →
  crun (idle p) (call Hook w p) = Some (idle (load w p)).
Proof.
  intros Hrun.
  etrans; [by apply (crun_call Hook w (idle p) (enter Hook w (idle p)));
             [apply CStep_Enter_Hook|..]|].
  by rewrite <-foldl_write_plugin_load.
Qed.

Lemma crun_call_Reload w p :
  plugin_process p = Running →
  plugin_goroutine p = GoSelect →
  plugin_ticker p = Some true →
  crun (idle p) (call Reload w p) = Some (idle (load w (with_ticker (Some false) p))).
Proof.
  intros Hrun Hgo Htick.
  etrans; [by eapply (crun_call Reload w (idle p)); [apply CStep_Enter_Reload|..]|].
  by rewrite <-(foldl_write_plugin_load w (with_ticker (Some false) p)).
Qed.

Lemma crun_actions_of p ev p' :
  Step p ev p' → crun (idle p) (actions_of p ev) = Some (idle p').
Proof.
  intros Hstep. pose proof (Step_step _ _ _ Hstep) as Hs.
  destruct Hstep; simpl actions_of;
    try (by apply crun_call_Hook); try (by apply crun_call_Reload);
    simpl; rewrite Hs; done.
Qed.

Lemma crun_actions p evs p' :
  run p evs = Some p' → crun (idle p) (actions p evs) = Some (idle p').
Proof.
  revert p; induction evs as [|ev evs IH]; intros p; simpl.
  - by intros [= <-].
  - destruct (step p ev) as [p1|] eqn:Hstep; [|done]. simpl. intros Hrun.
    rewrite crun_app, (crun_actions_of p ev p1) by (by apply step_Step).
    simpl. by apply IH.
Qed.

End calls_facts.

(** ** A call beside the steps of the others *)

Section quiet_facts.
Context `{!SchemaConsts, !DNSConsts, !NetTypes, !NetLib, !HostLib, !HTTPTypes, !HTTPLib, !TimeLib, !PluginLib}.
Context `{!Decoder (list RawClientACL), !Decoder (list RawRecord)}.
Implicit Types (p : Plugin) (s : Conc) (a : Action) (acts : list Action)
  (c : Caller) (w : World) (v : Views) (o : Write) (ops : list Write).

(** A step that leaves the call of [c] alone does the next write of [c]
    or leaves [*v] and the writes of [c] as they are. *)
Lemma CStep_quiet c s a s' :
  CStep s a s' → quiet c a →
  ∃ ops, calling c s = ops ++ calling c s' ∧
         plugin_v (conc_plugin s') = run_writes (plugin_v (conc_plugin s)) ops.
Proof.
  intros Hstep Hq. pose proof (CStep_plugin_v _ _ _ Hstep) as Hv.
  pose proof (CStep_calling c _ _ _ Hstep) as Hc.
  destruct a as [c' w|c'|ev]; simpl in Hq.
  - apply bool_decide_unpack in Hq. rewrite decide_False in Hc by done.
    exists []. by rewrite Hc.
  - apply bool_decide_unpack in Hq as ->. rewrite decide_True in Hc by done.
    exists (take 1 (calling c s)). rewrite Hc. split; [|done].
    by destruct (calling c s).
  - exists []. by rewrite Hc.
Qed.

Lemma CReachable_quiet c s1 acts s :
  CReachable s1 acts s → Forall (quiet c) acts →
  ∃ ops, calling c s1 = ops ++ calling c s ∧
         plugin_v (conc_plugin s) = run_writes (plugin_v (conc_plugin s1)) ops.
Proof.
  induction 1 as [|acts s a s' _ IH Hstep]; [by exists []|].
  intros [Hacts [Ha _]%Forall_cons]%Forall_app.
  destruct (IH Hacts) as (ops & Hc & Hv).
  destruct (CStep_quiet c _ _ _ Hstep Ha) as (ops' & Hc' & Hv').
  exists (ops ++ ops'). split.
  - by rewrite Hc, Hc', app_assoc.
  - rewrite Hv', Hv. unfold run_writes. by rewrite foldl_app.
Qed.

(** The call that entered last and was left alone. *)
Lemma CReachable_call_alone s0 acts1 c w acts2 s :
  CReachable s0 (acts1 ++ Enter c w :: acts2) s →
  Forall (quiet c) acts2 →
  calling c s = [] →
  plugin_v (conc_plugin s) = loaded_views (loadConfig w (plugin_v (conc_plugin s0))).
Proof.
  intros (s1 & Hs1 & (s2 & Hstep & Hs2)%CReachable_cons)%CReachable_app Hq Hdone.
  destruct (CReachable_quiet c _ _ _ Hs2 Hq) as (ops & Hc & ->).
  rewrite Hdone, app_nil_r in Hc. subst ops.
  rewrite (CStep_calling c _ _ _ Hstep), decide_True by done.
  rewrite (CStep_plugin_v _ _ _ Hstep), run_writes_load_ops.
  f_equal. apply loadConfig_same_settings.
  by apply (CReachable_same_settings _ _ _ Hs1).
Qed.

(** ** The writes of two calls in any order *)

Lemma plugin_process_foldl_write_plugin p ops :
  plugin_process (foldl write_plugin p ops) = plugin_process p.
Proof. by rewrite foldl_write_plugin. Qed.

Lemma do_write_cons c s o ops :
  calling c s = o :: ops →
  do_write c s = with_calling c ops (with_plugin (write_plugin (conc_plugin s) o) s).
Proof. unfold do_write. by intros ->. Qed.

Lemma cstep_DoWrite c s o ops :
  plugin_process (conc_plugin s) = Running →
  calling c s = o :: ops →
  cstep s (DoWrite c) =
  Some (with_calling c ops (with_plugin (write_plugin (conc_plugin s) o) s)).
Proof.
  intros Hrun Hc. simpl. rewrite decide_True by (by rewrite Hc).
  by rewrite (do_write_cons c s o ops).
Qed.

Lemma crun_Merge ops1 ops2 m :
  Merge ops1 ops2 m → ∀ s,
  plugin_process (conc_plugin s) = Running →
  conc_hook s = ops1 → conc_reload s = ops2 →
  ∃ acts, crun s acts = Some (idle (foldl write_plugin (conc_plugin s) m)).
Proof.
  induction 1 as [|o ops1 ops2 m _ IH|o ops1 ops2 m _ IH]; intros s Hrun Hh Hr.
  - exists []. destruct s; simpl in *. by subst.
  - destruct (IH (with_calling Hook ops1 (with_plugin (write_plugin (conc_plugin s) o) s)))
      as (acts & Hacts); [done..|].
    exists (DoWrite Hook :: acts).
    by rewrite crun_cons, (cstep_DoWrite Hook s o ops1).
  - destruct (IH (with_calling Reload ops2 (with_plugin (write_plugin (conc_plugin s) o) s)))
      as (acts & Hacts); [done..|].
    exists (DoWrite Reload :: acts).
    by rewrite crun_cons, (cstep_DoWrite Reload s o ops2).
Qed.

(** The start-up hook and the goroutine both in [loadConfig]: the ticker
    is made, it ticks, the hook enters and the goroutine enters. *)
Definition both_enter (w1 w2 : World) : list Action :=
  [Sync NewTicker; Sync Tick; Enter Hook w1; Enter Reload w2].

Definition both_entered (w1 w2 : World) (v : Views) : Conc :=
  enter Reload w2
    (with_plugin (with_ticker (Some false) (fetch_plugin w1
       (with_ticker (Some true) (with_ticker (Some false)
          (with_goroutine GoSelect (reload v))))))
       (enter Hook w1 (idle (with_ticker (Some true) (with_ticker (Some false)
          (with_goroutine GoSelect (reload v))))))).

Lemma crun_both_enter w1 w2 v :
  (0 < Views_ReloadInterval v)%Z →
  crun (idle (reload v)) (both_enter w1 w2) = Some (both_entered w1 w2 v).
Proof.
  intros Hpos. unfold both_enter. rewrite crun_cons.
  rewrite (CStep_cstep (idle (reload v)) (Sync NewTicker)
             (with_plugin (new_ticker (reload v)) (idle (reload v))))
    by (by constructor; [|constructor]).
  rewrite (new_ticker_pos (reload v)) by done. done.
Qed.

(** ** Well-formed record sets, between the writes too *)

Lemma write_Zones_wf v o :
  map_Forall (λ _ zs, Zones_wf zs) (Views_ClientZones v) →
  map_Forall (λ _ zs, Zones_wf zs) (Views_ClientZones (write v o)).
Proof.
  intros Hwf. destruct o; simpl; [done|done|apply map_Forall_empty|].
  apply map_Forall_insert_2; [apply build_Zones_wf|done].
Qed.

Lemma CStep_Zones_wf s a s' :
  CStep s a s' →
  map_Forall (λ _ zs, Zones_wf zs) (Views_ClientZones (plugin_v (conc_plugin s))) →
  map_Forall (λ _ zs, Zones_wf zs) (Views_ClientZones (plugin_v (conc_plugin s'))).
Proof.
  intros ->%CStep_plugin_v Hwf. destruct a as [|c|]; [done| |done].
  destruct (calling c s); [done|by apply write_Zones_wf].
Qed.

Lemma CReachable_Zones_wf s0 acts s :
  CReachable s0 acts s →
  map_Forall (λ _ zs, Zones_wf zs) (Views_ClientZones (plugin_v (conc_plugin s0))) →
  map_Forall (λ _ zs, Zones_wf zs) (Views_ClientZones (plugin_v (conc_plugin s))).
Proof. induction 1; eauto using CStep_Zones_wf. Qed.

End quiet_facts.

(** ** Properties of the calls of [loadConfig] *)

Section concurrent_properties.
Context `{!SchemaConsts, !DNSConsts, !NetTypes, !NetLib, !HostLib, !HTTPTypes, !HTTPLib, !TimeLib, !PluginLib}.
Context `{!Decoder (list RawClientACL), !Decoder (list RawRecord)}.
Implicit Types (p : Plugin) (s : Conc) (a : Action) (acts : list Action)
  (c : Caller) (w : World) (v : Views) (o : Write) (ops : list Write).

(** The function [cstep] computes the relation [CStep]. *)
Theorem cstep_iff_CStep s a s' : cstep s a = Some s' ↔ CStep s a s'.
Proof. split; [apply cstep_CStep|apply CStep_cstep]. Qed.

(** C5. The configuration in force is that of a call that was left alone.
    Whatever the plugin has been through, when a caller has entered
    [loadConfig] in the world [w] and, from then on, the other caller has
    done no write and this caller has not entered again, then once the
    call has no write left [*v] is what [loadConfig] makes in [w] of the
    plugin the run started with; the ticks, the shutdown and the other
    caller entering in between change nothing to it. *)
Theorem call_alone_loads s0 acts1 c w acts2 s :
  CReachable s0 (acts1 ++ Enter c w :: acts2) s →
  Forall (quiet c) acts2 →
  calling c s = [] →
  plugin_v (conc_plugin s) = loaded_views (loadConfig w (plugin_v (conc_plugin s0))).
Proof. apply CReachable_call_alone. Qed.


(** C19. Every interleaving of the writes of two calls happens: when the
    reload interval is positive, for every order [m] of the writes of the
    call of the start-up hook in [w1] and of the call of the goroutine in
    [w2] there is a run of the plugin [setup] returns, in which the ticker
    ticks before the hook has entered, that does the writes in that order
    and leaves the process running, nobody in [loadConfig], and [*v] as
    the writes in that order make it. *)
Theorem interleavings_reachable v w1 w2 m :
  (0 < Views_ReloadInterval v)%Z →
  Merge (load_ops w1 v) (load_ops w2 v) m →
  ∃ acts s,
    CReachable (idle (reload v)) (both_enter w1 w2 ++ acts) s ∧
    plugin_v (conc_plugin s) = run_writes v m ∧
    plugin_process (conc_plugin s) = Running ∧
    conc_hook s = [] ∧ conc_reload s = [].
Proof.
  intros Hpos Hm.
  destruct (crun_Merge _ _ _ Hm (both_entered w1 w2 v)) as (acts & Hacts); [done..|].
  eexists acts, _. split.
  - apply CReachable_crun. by rewrite crun_app, crun_both_enter.
  - simpl. by rewrite foldl_write_plugin.
Qed.

(** C23. From [setup] on, in every state the plugin reaches, between the
    writes of its calls and while two calls write in turns too, the
    settings are well formed and every record set of the plugin is well
    formed. *)
Theorem setup_CReachable_wf ctl p0 acts s :
  setup ctl = Returns (Ok p0) →
  CReachable (idle p0) acts s →
  settings_wf (plugin_v (conc_plugin s)) ∧
  map_Forall (λ _ zs, Zones_wf zs) (Views_ClientZones (plugin_v (conc_plugin s))).
Proof.
  unfold setup. destruct (parse ctl) as [[v|]|] eqn:Hparse; [|done..].
  intros [= <-] Hreach. apply parse_Ok_wf in Hparse as [Hwf [_ Hzones]]. split.
  - eapply settings_wf_same_settings; [|done].
    apply (CReachable_same_settings _ _ _ Hreach).
  - apply (CReachable_Zones_wf _ _ _ Hreach). simpl. rewrite Hzones.
    apply map_Forall_empty.
Qed.

End concurrent_properties.

(** ** The plugin of [Samples], write by write *)

(** The ticker ticks while the start-up hook is in [loadConfig]; the hook
    does its writes, the server shuts down, and the goroutine serves the
    tick when the sources have gone. *)
Definition actions_ex : list Action :=
  [Sync NewTicker; Enter Hook world_ok; DoWrite Hook; Sync Tick; DoWrite Hook;
   DoWrite Hook; DoWrite Hook; DoWrite Hook; DoWrite Hook; Sync OnShutdown;
   Enter Reload world_down; DoWrite Reload; DoWrite Reload].

Definition conc_ex : Conc :=
  default (idle (reload settings_ex)) (crun (idle (reload settings_ex)) actions_ex).

Lemma CReachable_ex : CReachable (idle (reload settings_ex)) actions_ex conc_ex.
Proof. apply CReachable_crun. vm_compute. reflexivity. Qed.

Example conc_ex_idle : conc_hook conc_ex = [] ∧ conc_reload conc_ex = [].
Proof. vm_compute. done. Qed.

Lemma call_alone_loads_witness :
  plugin_v (conc_plugin conc_ex) =
  loaded_views (loadConfig world_down (plugin_v (conc_plugin (idle (reload settings_ex))))).
Proof.
  apply (call_alone_loads (idle (reload settings_ex)) (take 10 actions_ex) Reload
           world_down (drop 11 actions_ex) conc_ex).
  - apply CReachable_ex.
  - by repeat constructor.
  - reflexivity.
Defined.


Lemma interleavings_reachable_witness :
  ∃ acts s,
    CReachable (idle (reload settings_ex)) (both_enter world_ok world_ok ++ acts) s ∧
    plugin_v (conc_plugin s) = run_writes settings_ex writes_ex ∧
    plugin_process (conc_plugin s) = Running ∧
    conc_hook s = [] ∧ conc_reload s = [].
Proof. apply interleavings_reachable; [done|apply Merge_merge]. Defined.

Lemma setup_CReachable_wf_witness :
  settings_wf (plugin_v (conc_plugin (enter Hook world_ok (idle (reload views_ex))))) ∧
  map_Forall (λ _ zs, Zones_wf zs)
    (Views_ClientZones (plugin_v (conc_plugin (enter Hook world_ok (idle (reload views_ex)))))).
Proof.
  apply (setup_CReachable_wf corefile_ex (reload views_ex) [Enter Hook world_ok]).
  - vm_compute. reflexivity.
  - apply CReachable_crun. vm_compute. reflexivity.
Defined.
